(** * video-sync: a shallow embedding of the synchronisation agent,
      the connection manager and the session coordinator.

    Three source files are embedded, each in a module of its own:
    - [Content]    : content/content.js      (the per-page sync agent)
    - [Offscreen]  : offscreen/offscreen.js  (the connection manager)
    - [Background] : the background service worker (the session coordinator)
    with [System] and [Routing] for the messages between them, [Lifecycle]
    for the course of a session in the manager, and [Capture] and
    [Presentation] for the rest of content/content.js: the capture of local
    media events, and the toasts and chat messages on the page.

    Conventions.  JavaScript numbers carried by sync events and by the media
    element are finite binary64 values and are modelled by the rationals
    ([Q]) they stand for; where the source computes with them and the result
    need not be a binary64 value, the result is rounded ([roundDouble]).  An
    absent object field ([undefined]) is [None].  Handlers run to completion, one at
    a time, so each handler is a function from the state before to the state
    after, together with the effects it issued, in order. *)

From Stdlib Require Import Ascii String DecimalString QArith Qabs Qround SpecFloat.
From stdpp Require Import gmap strings list fin_maps.

Local Open Scope string_scope.
Local Open Scope list_scope.

(** ** Shared vocabulary: the wire payload *)

(** A sync event as it travels between the components.  Only the fields the
    source reads or writes are kept. *)
Record SyncData := mkData {
  type     : string;
  time     : option Q;
  speed    : option Q;
  playing  : option bool;
  nickname : option string;
  message  : option string;
  url      : option string
}.

Definition blankData (ty : string) : SyncData :=
  mkData ty None None None None None None.

(** [x || d] on a number field: [undefined] and [0] are falsy. *)
Definition num_or (x : option Q) (d : Q) : Q :=
  match x with
  | Some q => if Qeq_bool q 0 then d else q
  | None => d
  end.

(** [x || d] on a string field: [undefined] and the empty string are falsy. *)
Definition str_or (x : option string) (d : string) : string :=
  match x with
  | Some "" => d
  | Some s => s
  | None => d
  end.

(** Truthiness of a boolean field. *)
Definition truthy (x : option bool) : bool :=
  match x with Some b => b | None => false end.

(** [a > b] on numbers. *)
Definition Qgtb (a b : Q) : bool := negb (Qle_bool a b).

(** ** Double-precision arithmetic

    A finite binary64 value is [m * 2^k] for integers [m] and [k] with
    [|m| < 2^53] and [-1074 <= k].  An arithmetic operation yields the exact
    result rounded to the nearest such value, a tie going to the one whose
    [m] is even. *)

(** The exponent [e] with [2^e <= n/d < 2^(e+1)]. *)
Definition binade (n d : positive) : Z :=
  let e := (Z.log2 (Zpos n) - Z.log2 (Zpos d))%Z in
  if (Zpos d * 2 ^ Z.max 0 e <=? Zpos n * 2 ^ Z.max 0 (- e))%Z then e else (e - 1)%Z.

(** [p / q] rounded to the nearest integer, a tie going to the even one
    (for [0 <= p] and [0 < q]). *)
Definition nearestEven (p q : Z) : Z :=
  let f := (p / q)%Z in
  match (2 * (p mod q) ?= q)%Z with
  | Lt => f
  | Gt => (f + 1)%Z
  | Eq => if Z.even f then f else (f + 1)%Z
  end.

(** [m * 2^k] as a rational. *)
Definition scaled (m k : Z) : Q :=
  if (0 <=? k)%Z then inject_Z (m * 2 ^ k)
  else Qred (m # Z.to_pos (2 ^ (- k))).

(** The binary64 value nearest to [n/d]: the spacing of the values is
    [2^(e-52)] in the binade [e] of [n/d], and [2^-1074] below [2^-1022].
    (Past the largest finite value the source has [Infinity]; the model
    keeps the rounded number, which compares with a finite number the same
    way.) *)
Definition roundPos (n d : positive) : Q :=
  let k := (Z.max (binade n d) (-1022) - 52)%Z in
  scaled (nearestEven (Zpos n * 2 ^ Z.max 0 (- k)) (Zpos d * 2 ^ Z.max 0 k)) k.

Definition roundDouble (x : Q) : Q :=
  match Qnum (Qred x) with
  | Z0 => 0
  | Zpos n => roundPos n (Qden (Qred x))
  | Zneg n => - roundPos n (Qden (Qred x))
  end.

(** [x] is a binary64 value. *)
Definition isDouble (x : Q) : Prop := roundDouble x = Qred x.

(** [a - b] on numbers. *)
Definition numSub (a b : Q) : Q := roundDouble (a - b).

(** The rational a finite value of the Standard Library's specification of
    IEEE 754 arithmetic stands for. *)
Definition ofSpecFloat (f : spec_float) : option Q :=
  match f with
  | S754_zero _ => Some 0%Q
  | S754_finite sign m e => Some (scaled (if sign then Zneg m else Zpos m) e)
  | S754_infinity _ | S754_nan => None
  end.

(** The binary64 values written 0.3 and 0.8. *)
Definition double03 : Q := 5404319552844595 # 18014398509481984.
Definition double08 : Q := 3602879701896397 # 4503599627370496.

(* ====================================================================== *)
(** ** content/content.js *)
(* ====================================================================== *)

Module Content.

Definition SYNC_THRESHOLD : Q := 5 # 10.
Definition DEBOUNCE_MS : Z := 100.

(** The media element, as far as the agent touches it. *)
Record Video := mkVideo {
  clientWidth  : Z;
  clientHeight : Z;
  currentTime  : Q;
  paused       : bool;
  playbackRate : Q
}.

Definition setTime (t : Q) (v : Video) : Video :=
  mkVideo (clientWidth v) (clientHeight v) t (paused v) (playbackRate v).
Definition setPaused (b : bool) (v : Video) : Video :=
  mkVideo (clientWidth v) (clientHeight v) (currentTime v) b (playbackRate v).
Definition setSpeed (r : Q) (v : Video) : Video :=
  mkVideo (clientWidth v) (clientHeight v) (currentTime v) (paused v) r.

(** Texts handed to [showToast]; the rendering is a presentation concern. *)
Inductive Toast :=
| ToastPlayed (sender : string)
| ToastPaused (sender : string)
| ToastSeeked (sender : string) (t : option Q)
| ToastSpeed (sender : string) (s : option Q)
| ToastBuffering (sender : string)
| ToastSynced.

(** What the agent does to the outside, in program order.  The first four
    are operations on the bound media element. *)
Inductive Effect :=
| Seek (t : Q)                      (* activeVideo.currentTime = t   *)
| Play                              (* activeVideo.play()            *)
| Pause                             (* activeVideo.pause()           *)
| SetRate (r : Q)                   (* activeVideo.playbackRate = r  *)
| ShowToast (msg : Toast) (kind : string)
| ShowChat (nick msg : option string)
| RuntimeSend (action : string) (data : SyncData)
| ClearIgnoreAfter (ms : Z)         (* setTimeout(() => ignoreEvents = false, ms) *)
| ConsoleLog (msg : string).

(** The agent: the page's playable elements in the order [findAllVideos]
    lists them, the handle of the bound one, and the script's variables. *)
Record Agent := mkAgent {
  dom          : list Video;
  activeVideo  : option nat;
  ignoreEvents : bool;
  isBuffering  : bool;
  myNickname   : option string;
  href         : string
}.

Definition with_dom (d : list Video) (a : Agent) : Agent :=
  mkAgent d (activeVideo a) (ignoreEvents a) (isBuffering a) (myNickname a) (href a).
Definition with_active (v : option nat) (a : Agent) : Agent :=
  mkAgent (dom a) v (ignoreEvents a) (isBuffering a) (myNickname a) (href a).
Definition with_ignore (b : bool) (a : Agent) : Agent :=
  mkAgent (dom a) (activeVideo a) b (isBuffering a) (myNickname a) (href a).

(** *** findPrimaryVideo *)

Definition area (v : Video) : Z := (clientWidth v * clientHeight v)%Z.

(** The [forEach] of findPrimaryVideo: [i] is the index of the element being
    visited, the accumulator is [(largest, maxArea)]. *)
Fixpoint scanLargest (vs : list Video) (i : nat) (acc : nat * Z) : nat * Z :=
  match vs with
  | [] => acc
  | v :: rest =>
      scanLargest rest (S i)
        (if (snd acc <? area v)%Z then (i, area v) else acc)
  end.

Definition findPrimaryVideo (vs : list Video) : option nat :=
  match vs with
  | [] => None
  | _ => Some (fst (scanLargest vs 0%nat (0%nat, 0%Z)))
  end.

(** *** A small monad: agent state, effect log, exceptions *)

Inductive Outcome (A : Type) :=
| Returned (a : A) (s : Agent) (log : list Effect)
| Thrown (err : string) (s : Agent) (log : list Effect).
Arguments Returned {A} a s log.
Arguments Thrown {A} err s log.

Definition M (A : Type) : Type := Agent -> list Effect -> Outcome A.

Definition ret {A} (a : A) : M A := fun s log => Returned a s log.
Definition bind {A B} (m : M A) (k : A -> M B) : M B :=
  fun s log =>
    match m s log with
    | Returned a s' log' => k a s' log'
    | Thrown e s' log' => Thrown e s' log'
    end.
Definition throw {A} (e : string) : M A := fun s log => Thrown e s log.
Definition emit (e : Effect) : M unit := fun s log => Returned tt s (log ++ [e]).
Definition getAgent : M Agent := fun s log => Returned s s log.
Definition modify (f : Agent -> Agent) : M unit := fun s log => Returned tt (f s) log.

Notation "x <- m ;; k" := (bind m (fun x => k))
  (at level 100, m at next level, right associativity).
Notation "m ;;; k" := (bind m (fun _ => k))
  (at level 100, right associativity).

(** Operations on the element with handle [i]. *)

Definition readVideo (i : nat) : M Video :=
  s <- getAgent ;;
  match dom s !! i with
  | Some v => ret v
  | None => throw "TypeError: not a media element"
  end.

Definition updVideo (i : nat) (f : Video -> Video) : M unit :=
  v <- readVideo i ;;
  modify (fun s => with_dom (<[i := f v]> (dom s)) s).

(** [currentTime] and [playbackRate] are IDL attributes of type [double]:
    assigning [undefined] raises a TypeError before anything is stored. *)
Definition setCurrentTime (i : nat) (x : option Q) : M unit :=
  match x with
  | Some t =>
      updVideo i (setTime t) ;;;
      emit (Seek t)
  | None => throw "TypeError: non-finite currentTime"
  end.

Definition setPlaybackRate (i : nat) (x : option Q) : M unit :=
  match x with
  | Some r =>
      updVideo i (setSpeed r) ;;;
      emit (SetRate r)
  | None => throw "TypeError: non-finite playbackRate"
  end.

Definition play (i : nat) : M unit :=
  updVideo i (setPaused false) ;;;
  emit Play.

Definition pause (i : nat) : M unit :=
  updVideo i (setPaused true) ;;;
  emit Pause.

Definition when (b : bool) (m : M unit) : M unit := if b then m else ret tt.

(** *** applySync *)

(** The [switch (data.type)] of applySync, for the bound element [i] whose
    state on entry is [v]. *)
Definition applySwitch (data : SyncData) (i : nat) (v : Video) : M unit :=
  let timeDiff := Qabs (numSub (currentTime v) (num_or (time data) 0)) in
  let sender := str_or (nickname data) "Someone" in
  if String.eqb (type data) "play" then
    when (Qgtb timeDiff SYNC_THRESHOLD) (setCurrentTime i (time data)) ;;;
    play i ;;;
    emit (ShowToast (ToastPlayed sender) "peer")
  else if String.eqb (type data) "pause" then
    when (Qgtb timeDiff SYNC_THRESHOLD) (setCurrentTime i (time data)) ;;;
    pause i ;;;
    emit (ShowToast (ToastPaused sender) "peer")
  else if String.eqb (type data) "seek" then
    setCurrentTime i (time data) ;;;
    emit (ShowToast (ToastSeeked sender (time data)) "peer")
  else if String.eqb (type data) "speed" then
    setPlaybackRate i (speed data) ;;;
    emit (ShowToast (ToastSpeed sender (speed data)) "peer")
  else if String.eqb (type data) "buffering" then
    pause i ;;;
    emit (ShowToast (ToastBuffering sender) "warning")
  else if String.eqb (type data) "sync-request" then
    s <- getAgent ;;
    emit (RuntimeSend "sync-response"
            {| type := "sync-response";
               time := Some (currentTime v);
               playing := Some (negb (paused v));
               speed := Some (playbackRate v);
               url := Some (href s);
               nickname := None;
               message := None |})
  else if String.eqb (type data) "sync-response" then
    setCurrentTime i (time data) ;;;
    setPlaybackRate i (Some (num_or (speed data) 1)) ;;;
    (if truthy (playing data) then play i else pause i) ;;;
    emit (ShowToast ToastSynced "success")
  else if String.eqb (type data) "chat" then
    emit (ShowChat (nickname data) (message data))
  else ret tt.

Definition applySync (data : SyncData) (fromPeerId : option string) : M unit :=
  s <- getAgent ;;
  found <- match activeVideo s with
           | Some i => ret (Some i)
           | None =>
               let r := findPrimaryVideo (dom s) in
               modify (with_active r) ;;; ret r
           end ;;
  match found with
  | None => emit (ConsoleLog "[VideoSync] No video found to sync")
  | Some i =>
      modify (with_ignore true) ;;;
      v <- readVideo i ;;
      applySwitch data i v ;;;
      emit (ClearIgnoreAfter 200)
  end.

(** Running a handler from an empty log. *)
Definition run {A} (m : M A) (s : Agent) : Outcome A := m s [].

Definition outAgent {A} (o : Outcome A) : Agent :=
  match o with Returned _ s _ => s | Thrown _ s _ => s end.
Definition outLog {A} (o : Outcome A) : list Effect :=
  match o with Returned _ _ l => l | Thrown _ _ l => l end.
Definition completed {A} (o : Outcome A) : bool :=
  match o with Returned _ _ _ => true | Thrown _ _ _ => false end.

(** The operations issued on the media element, in order. *)
Definition isVideoOp (e : Effect) : bool :=
  match e with
  | Seek _ | Play | Pause | SetRate _ => true
  | _ => false
  end.
Definition videoOps (l : list Effect) : list Effect := List.filter isVideoOp l.

(** The element the agent is bound to after a handler ran. *)
Definition boundVideo (s : Agent) : option Video :=
  match activeVideo s with
  | Some i => dom s !! i
  | None => None
  end.

(** The agent has an element to act on: [i] is the bound handle, or no
    handle is bound yet and [i] is what findPrimaryVideo selects; [v] is the
    element's state. *)
Definition available (s : Agent) (i : nat) (v : Video) : Prop :=
  (activeVideo s = Some i \/
   (activeVideo s = None /\ findPrimaryVideo (dom s) = Some i)) /\
  dom s !! i = Some v.

(** The agent once applySync has bound element [i] and raised the
    echo-suppression flag. *)
Definition entered (i : nat) (s : Agent) : Agent :=
  with_ignore true (with_active (Some i) s).

(** The runtime messages a handler sent. *)
Fixpoint sentMessages (l : list Effect) : list (string * SyncData) :=
  match l with
  | [] => []
  | RuntimeSend a d :: rest => (a, d) :: sentMessages rest
  | _ :: rest => sentMessages rest
  end.

(** *** Sample inputs *)

(** An element paused at 10.0 s, normal speed, and an agent bound to it. *)
Definition videoAt10 : Video := mkVideo 640 360 10 true 1.
Definition agentAt10 : Agent :=
  mkAgent [videoAt10] (Some 0%nat) false false None "https://example.org/watch".

(** An agent that has not bound an element yet, on a page with two. *)
Definition agentUnbound : Agent :=
  mkAgent [mkVideo 100 50 3 true 1; videoAt10] None false false None
          "https://example.org/watch".

(** An element playing at 42.3 s with playback rate 0. *)
Definition videoRateZero : Video := mkVideo 640 360 (423 # 10) false 0.
Definition agentRateZero : Agent :=
  mkAgent [videoRateZero] (Some 0%nat) false false None "https://example.org/a".

(** An element paused at the binary64 value 0.3, and an agent bound to it. *)
Definition videoAt03 : Video := mkVideo 640 360 double03 true 1.
Definition agentAt03 : Agent :=
  mkAgent [videoAt03] (Some 0%nat) false false None "https://example.org/watch".

Definition playAt (t : Q) : SyncData :=
  {| type := "play"; time := Some t; speed := None; playing := None;
     nickname := None; message := None; url := None |}.

Definition syncRequest : SyncData := blankData "sync-request".

Definition syncResponse (t s : Q) (p : bool) : SyncData :=
  {| type := "sync-response"; time := Some t; speed := Some s;
     playing := Some p; nickname := None; message := None;
     url := Some "https://example.org/a" |}.

End Content.

(* ====================================================================== *)
(** ** Notifications from the connection manager to the coordinator *)
(* ====================================================================== *)

(** [sendToBackground(action, data)]: one constructor per action. *)
Inductive BgMsg :=
| OffscreenReady
| PeerReady (peerId : string)
| PeerJoined (peerId : string) (count : Z)
| PeerLeft (peerId : string) (count : Z)
| PeerData (data : SyncData) (from : string)
| ConnectionStatus (status : string).

(** The object getStatus returns. *)
Record Status := mkStatus {
  st_connected   : bool;
  st_sessionCode : option string;
  st_isHost      : bool;
  st_peerCount   : Z
}.

(** What a request handler passes to [sendResponse]. *)
Inductive Response :=
| RSession (code : option string) (host : bool)   (* { success: true, code, isHost } *)
| RFailure (error : string)                       (* { success: false, error }      *)
| RSuccess                                        (* { success: true }              *)
| RStatus (st : Status)                           (* the object of getStatus        *)
| RPong.                                          (* { pong: true }                 *)


(** The [success] field of a response, where it has one. *)
Definition success (r : Response) : option bool :=
  match r with
  | RSession _ _ | RSuccess => Some true
  | RFailure _ => Some false
  | RStatus _ | RPong => None
  end.

(** The [code] field of a response, where it has one. *)
Definition codeOf (r : Response) : option string :=
  match r with
  | RSession code _ => code
  | _ => None
  end.

(* ====================================================================== *)
(** ** offscreen/offscreen.js *)
(* ====================================================================== *)

Module Offscreen.

(** *** Session codes *)

Definition chars : string := "ABCDEFGHJKLMNPQRSTUVWXYZ23456789".

(** [s.charAt(i)]: the one-character string at index [i], empty out of range. *)
Definition charAt (s : string) (i : Z) : string :=
  if (i <? 0)%Z then ""
  else match String.get (Z.to_nat i) s with
       | Some c => String c ""
       | None => ""
       end.

(** [Math.random()] is a stream [rnd] of numbers; [k] is the next index.
    [Math.floor(Math.random() * chars.length)] is then: *)
Definition randomIndex (rnd : nat -> Q) (k : nat) : Z :=
  Qfloor (rnd k * inject_Z (Z.of_nat (String.length chars))).

(** The [for] loop of generateSessionCode with [n] iterations left. *)
Fixpoint codeLoop (n : nat) (rnd : nat -> Q) (k : nat) (code : string) : string :=
  match n with
  | O => code
  | S n' => codeLoop n' rnd (S k) (String.append code (charAt chars (randomIndex rnd k)))
  end.

Definition generateSessionCode (rnd : nat -> Q) (k : nat) : string :=
  codeLoop 6 rnd k "".

(** [toUpperCase] on the ASCII letters, which is all a session code has. *)
Definition upperAscii (c : ascii) : ascii :=
  let n := nat_of_ascii c in
  if ((97 <=? n) && (n <=? 122))%nat then ascii_of_nat (n - 32) else c.

Fixpoint toUpperCase (s : string) : string :=
  match s with
  | EmptyString => EmptyString
  | String c rest => String (upperAscii c) (toUpperCase rest)
  end.

Definition sessionCodeToPeerId (code : string) : string :=
  String.append "videosync-" (toUpperCase code).

(** *** State *)

(** A data connection object of the transport.  [c.open] is [conn_open]. *)
Inductive LinkState := Opening | Open | Closed.

Record DataConnection := mkConn {
  conn_peer  : string;
  conn_state : LinkState
}.

Definition conn_open (c : DataConnection) : bool :=
  match conn_state c with Open => true | _ => false end.

(** The transport's peer object. *)
Record Peer := mkPeer {
  peer_id      : option string;
  disconnected : bool;
  destroyed    : bool
}.

(** The module's variables, and [links]: the connection objects on which
    setupConnection has installed its handlers, by reference.  [connections]
    holds references into [links], as the Map of the source holds objects. *)
Record State := mkState {
  peer        : option Peer;
  connections : gmap string nat;
  sessionCode : option string;
  isHost      : bool;
  links       : gmap nat DataConnection
}.

Definition initial : State := mkState None ∅ None false ∅.

Definition with_peer (p : option Peer) (s : State) : State :=
  mkState p (connections s) (sessionCode s) (isHost s) (links s).
Definition with_connections (m : gmap string nat) (s : State) : State :=
  mkState (peer s) m (sessionCode s) (isHost s) (links s).
Definition with_session (code : option string) (host : bool) (s : State) : State :=
  mkState (peer s) (connections s) code host (links s).
Definition with_links (l : gmap nat DataConnection) (s : State) : State :=
  mkState (peer s) (connections s) (sessionCode s) (isHost s) l.

(** What the manager does to the outside, in program order. *)
Inductive Effect :=
| ToBackground (m : BgMsg)                 (* sendToBackground            *)
| ConnSend (r : nat) (data : SyncData)     (* conn.send(data)             *)
| ConnClose (r : nat)                      (* conn.close()                *)
| NewPeer (id : option string)             (* new Peer(id, ...)           *)
| PeerDestroy                              (* peer.destroy()              *)
| PeerReconnect                            (* peer.reconnect()            *)
| PeerConnect (r : nat) (target : string)  (* peer.connect(target)        *)
| SetTimer (ms : Z)                        (* setTimeout                  *)
| ClearTimer                               (* clearTimeout                *)
| Respond (r : Response).                  (* sendResponse                *)

(** [c.open] read through a reference held in the Map. *)
Definition link_open (s : State) (r : nat) : bool :=
  match links s !! r with
  | Some c => conn_open c
  | None => false
  end.

(** The peer links the manager holds open: the connection objects in the
    Open state, whether the Map refers to them or not. *)
Definition openHeld (s : State) : gmap nat DataConnection :=
  filter (fun rc => conn_open rc.2 = true) (links s).

Definition count (m : gmap string nat) : Z := Z.of_nat (size m).

(** *** setupConnection: the four handlers it installs on [conn] *)

(** [conn.on('open')] *)
Definition onOpen (r : nat) (c : DataConnection) (s : State) : State * list Effect :=
  let conns := <[conn_peer c := r]> (connections s) in
  (with_connections conns s,
   [ToBackground (PeerJoined (conn_peer c) (count conns + 1))]).

(** The links the [forEach] of the data handler sends on: every entry of
    the Map whose key differs from the sender's and whose link is open.
    (The Map is walked in insertion order, [map_to_list] in key order; the
    order of sends on different links is not modelled.) *)
Definition relayTargets (from : string) (s : State) : list (string * nat) :=
  List.filter (fun kv => negb (String.eqb kv.1 from) && link_open s kv.2)
              (map_to_list (connections s)).

(** [conn.on('data')] *)
Definition onData (c : DataConnection) (data : SyncData) (s : State)
  : State * list Effect :=
  (s,
   ToBackground (PeerData data (conn_peer c)) ::
   (if isHost s && (1 <? size (connections s))%nat
    then (fun kv => ConnSend kv.2 data) <$> relayTargets (conn_peer c) s
    else [])).

(** [conn.on('close')] *)
Definition onClose (c : DataConnection) (s : State) : State * list Effect :=
  let conns := delete (conn_peer c) (connections s) in
  (with_connections conns s,
   [ToBackground (PeerLeft (conn_peer c) (count conns + 1))]).

(** [conn.on('error')] *)
Definition onError (c : DataConnection) (s : State) : State * list Effect :=
  (with_connections (delete (conn_peer c) (connections s)) s, []).

(** *** The transport's side of [peer.destroy()] and of new objects *)

(** [peer.destroy()] marks the peer destroyed and closes its connections.
    The ['close'] events this raises on open links are not replayed: every
    call site empties the Map right after. *)
Definition closeLink (c : DataConnection) : DataConnection :=
  mkConn (conn_peer c) Closed.

Definition destroyPeer (p : Peer) (s : State) : State :=
  with_links (closeLink <$> links s)
    (with_peer (Some (mkPeer (peer_id p) (disconnected p) true)) s).

(** A reference no connection object has yet. *)
Definition newRef (s : State) : nat := fresh (dom (links s)).

(** The prologue shared by createSession and joinSession:
    [if (peer) { peer.destroy(); connections.clear(); }] *)
Definition resetPeer (s : State) : State * list Effect :=
  match peer s with
  | Some p => (with_connections ∅ (destroyPeer p s), [PeerDestroy])
  | None => (s, [])
  end.

(** *** initPeer *)

(** How an initialisation attempt ends: the peer opens under [id], the
    transport reports an error of type [ty] with message [msg], or the
    15-second timer fires first. *)
Inductive InitOutcome :=
| InitOpen (id : string)
| InitError (ty : string) (msg : option string)
| InitTimeout.

(** The message of the Error that the ['error'] handler rejects with. *)
Definition initErrorMessage (ty : string) (msg : option string) : string :=
  if String.eqb ty "unavailable-id" then "Session code already in use"
  else if String.eqb ty "peer-unavailable" then "Session not found - check the code"
  else if String.eqb ty "network" then "Network error - check your connection"
  else if String.eqb ty "server-error" then "Server error - try again"
  else str_or msg "Connection failed".

(** What the transport does to a peer on which it raises an error.  The
    transport (PeerJS) is not part of this repository; on a peer that has
    never opened it emits ['error'] and then, before the rejected promise is
    acted on: destroys the peer for the types it treats as fatal (among them
    'unavailable-id' and 'server-error'), disconnects it for 'network', and
    leaves it alone for 'peer-unavailable', 'webrtc' and 'disconnected'.
    The ['disconnected'] and ['close'] events of the peer are events of
    their own below. *)
Inductive Fate := Survives | Disconnects | Destroys.

Definition errorFate (ty : string) : Fate :=
  if String.eqb ty "network" then Disconnects
  else if String.eqb ty "peer-unavailable" || String.eqb ty "webrtc"
          || String.eqb ty "disconnected" then Survives
  else Destroys.

(** The peer object [new Peer(peerId, ...)] as it is when the attempt has
    ended.  (A destroyed peer is disconnected too.) *)
Definition afterInit (peerId : option string) (o : InitOutcome) : Peer :=
  match o with
  | InitError ty _ =>
      match errorFate ty with
      | Survives => mkPeer peerId false false
      | Disconnects => mkPeer peerId true false
      | Destroys => mkPeer peerId true true
      end
  | InitOpen _ | InitTimeout => mkPeer peerId false false
  end.

(** The promise settles with [inl id] (resolved) or [inr message]
    (rejected). *)
Definition initPeer (peerId : option string) (o : InitOutcome) (s : State)
  : State * list Effect * (string + string) :=
  let s1 := with_peer (Some (afterInit peerId o)) s in
  match o with
  | InitOpen id =>
      (s1, [NewPeer peerId; SetTimer 15000; ClearTimer; ToBackground (PeerReady id)],
       inl id)
  | InitError ty msg =>
      (s1, [NewPeer peerId; SetTimer 15000; ClearTimer],
       inr (initErrorMessage ty msg))
  | InitTimeout =>
      (s1, [NewPeer peerId; SetTimer 15000],
       inr "Connection timeout - could not reach signaling server")
  end.

(** *** createSession *)

(** The function calls itself on a collision, so the model takes [fuel]:
    the number of calls it may make; [None] means the fuel ran out before a
    call returned.  [rnd] is the stream of random numbers (six per call) and
    [init n] the way the [n]-th initialisation attempt ends. *)
Fixpoint createSession (fuel : nat) (rnd : nat -> Q) (init : nat -> InitOutcome)
    (n : nat) (s : State) : option (State * list Effect * Response) :=
  match fuel with
  | O => None
  | S fuel' =>
      let '(s1, e1) := resetPeer s in
      let code := generateSessionCode rnd (6 * n) in
      let s2 := with_session (Some code) true s1 in
      let '(s3, e3, settled) := initPeer (Some (sessionCodeToPeerId code)) (init n) s2 in
      match settled with
      | inl _ => Some (s3, e1 ++ e3, RSession (Some code) true)
      | inr msg =>
          if String.eqb msg "Session code already in use"
          then match createSession fuel' rnd init (S n) s3 with
               | Some (s', e', r) => Some (s', e1 ++ e3 ++ e', r)
               | None => None
               end
          else Some (s3, e1 ++ e3, RFailure msg)
      end
  end.

(** *** joinSession *)

(** How the connection to the host ends: it opens, it reports an error, or
    the 10-second timer fires first. *)
Inductive ConnectOutcome := ConnectOpen | ConnectError | ConnectTimeout.

(** The promise settles with [inl response] or [inr message]. *)
Definition joinSession (code : string) (init : InitOutcome) (co : ConnectOutcome)
    (s : State) : State * list Effect * (Response + string) :=
  let '(s1, e1) := resetPeer s in
  let s2 := with_session (Some (toUpperCase code)) false s1 in
  let '(s3, e3, settled) := initPeer None init s2 in
  match settled with
  | inr msg => (s3, e1 ++ e3, inl (RFailure msg))
  | inl _ =>
      let hostPeerId := sessionCodeToPeerId (toUpperCase code) in
      let r := newRef s3 in
      let e4 := [PeerConnect r hostPeerId; SetTimer 10000] in
      match co with
      | ConnectTimeout =>
          (s3, e1 ++ e3 ++ e4 ++ [ConnClose r],
           inr "Could not connect to session - host may be offline")
      | ConnectError =>
          (s3, e1 ++ e3 ++ e4 ++ [ClearTimer], inr "Failed to connect to session")
      | ConnectOpen =>
          (* setupConnection(conn) runs inside the 'open' handler: its own
             'open' handler is installed after the event and never runs, so
             the link is not entered into the Map. *)
          (with_links (<[r := mkConn hostPeerId Open]> (links s3)) s3,
           e1 ++ e3 ++ e4 ++ [ClearTimer; ConnSend r (blankData "sync-request")],
           inl (RSession (sessionCode s3) false))
      end
  end.

(** *** leaveSession, getStatus, broadcast *)

Definition leaveSession (s : State) : State * list Effect * Response :=
  let '(s1, e1) :=
    match peer s with
    | Some p => (with_peer None (destroyPeer p s), [PeerDestroy])
    | None => (s, [])
    end in
  (with_session None false (with_connections ∅ s1), e1, RSuccess).

Definition getStatus (s : State) : Status :=
  mkStatus
    (match peer s with
     | Some p => negb (disconnected p) && negb (destroyed p)
     | None => false
     end)
    (sessionCode s)
    (isHost s)
    (count (connections s) +
     match peer s with
     | Some p => if destroyed p then 0 else 1
     | None => 0
     end).

Definition broadcast (data : SyncData) (s : State) : list Effect :=
  (fun kv => ConnSend kv.2 data) <$>
    List.filter (fun kv => link_open s kv.2) (map_to_list (connections s)).

(** *** Events: what the transport and the coordinator make the manager run *)

(** How the asynchronous parts of a request end is given with the request:
    for create-session the fuel, the random numbers and the initialisation
    outcomes; for join-session the initialisation and connection outcomes.
    The last six are the actions of the message listener. *)
Inductive Event :=
| EvConnection (id : string)            (* peer 'connection': setupConnection(conn) *)
| EvOpen (r : nat)                      (* conn 'open'  *)
| EvData (r : nat) (data : SyncData)    (* conn 'data'  *)
| EvClose (r : nat)                     (* conn 'close' *)
| EvError (r : nat)                     (* conn 'error' *)
| EvPeerDisconnected                    (* peer 'disconnected' *)
| EvReconnectTimer                      (* the 1 s timer of the handler above *)
| EvPeerReopen (id : string)            (* peer 'open' after a reconnect *)
| EvPeerClose                           (* peer 'close' *)
| EvCreate (fuel : nat) (rnd : nat -> Q) (init : nat -> InitOutcome)
| EvJoin (code : string) (init : InitOutcome) (co : ConnectOutcome)
| EvLeave                               (* 'leave-session' *)
| EvGetStatus                           (* 'get-status'    *)
| EvBroadcast (data : SyncData)         (* 'broadcast'     *)
| EvPing.                               (* 'ping'          *)

Definition setLink (r : nat) (c : DataConnection) (s : State) : State :=
  with_links (<[r := c]> (links s)) s.

(** One handler run.  [None]: the event cannot occur in this state (no such
    connection object, a link that is not in the state the event needs, no
    peer), or a create-session ran out of fuel. *)
Definition dispatch (e : Event) (s : State) : option (State * list Effect) :=
  match e with
  | EvConnection id =>
      match peer s with
      | Some _ => Some (setLink (newRef s) (mkConn id Opening) s, [])
      | None => None
      end
  | EvOpen r =>
      match links s !! r with
      | Some (mkConn id Opening) =>
          Some (onOpen r (mkConn id Open) (setLink r (mkConn id Open) s))
      | _ => None
      end
  | EvData r data =>
      match links s !! r with
      | Some (mkConn id Open) => Some (onData (mkConn id Open) data s)
      | _ => None
      end
  | EvClose r =>
      match links s !! r with
      | Some (mkConn id Open) =>
          Some (onClose (mkConn id Closed) (setLink r (mkConn id Closed) s))
      | _ => None
      end
  | EvError r =>
      match links s !! r with
      | Some c => Some (onError c s)
      | None => None
      end
  | EvPeerDisconnected =>
      match peer s with
      | Some p =>
          Some (with_peer (Some (mkPeer (peer_id p) true (destroyed p))) s,
                [ToBackground (ConnectionStatus "reconnecting"); SetTimer 1000])
      | None => None
      end
  | EvReconnectTimer =>
      Some (s, match peer s with
               | Some p => if destroyed p then [] else [PeerReconnect]
               | None => []
               end)
  | EvPeerReopen id =>
      match peer s with
      | Some p =>
          if disconnected p && negb (destroyed p)
          then Some (with_peer (Some (mkPeer (peer_id p) false false)) s,
                     [ClearTimer; ToBackground (PeerReady id)])
          else None
      | None => None
      end
  | EvPeerClose =>
      match peer s with
      | Some p =>
          Some (with_peer (Some (mkPeer (peer_id p) (disconnected p) true)) s,
                [ToBackground (ConnectionStatus "closed")])
      | None => None
      end
  | EvCreate fuel rnd init =>
      match createSession fuel rnd init 0 s with
      | Some (s', e, r) => Some (s', e ++ [Respond r])
      | None => None
      end
  | EvJoin code init co =>
      let '(s', e, settled) := joinSession code init co s in
      Some (s', e ++ [Respond (match settled with
                               | inl r => r
                               | inr msg => RFailure msg
                               end)])
  | EvLeave =>
      let '(s', e, r) := leaveSession s in Some (s', e ++ [Respond r])
  | EvGetStatus => Some (s, [Respond (RStatus (getStatus s))])
  | EvBroadcast data => Some (s, broadcast data s ++ [Respond RSuccess])
  | EvPing => Some (s, [Respond RPong])
  end.

(** The states the manager can be in: those a sequence of events leads to
    from the state the script starts in. *)
Inductive reachable : State -> Prop :=
| reachable_initial : reachable initial
| reachable_step s e s' out :
    reachable s -> dispatch e s = Some (s', out) -> reachable s'.

(** Running a list of events; [None] when one of them cannot occur. *)
Fixpoint runEvents (es : list Event) (s : State) : option State :=
  match es with
  | [] => Some s
  | e :: rest =>
      match dispatch e s with
      | Some (s', _) => runEvents rest s'
      | None => None
      end
  end.

(** The session is active: there is a peer and it is not destroyed. *)
Definition active (s : State) : bool :=
  match peer s with
  | Some p => negb (destroyed p)
  | None => false
  end.

(** The [count] of a peer-joined or peer-left notification. *)
Definition noticeCount (m : BgMsg) : option Z :=
  match m with
  | PeerJoined _ n => Some n
  | PeerLeft _ n => Some n
  | _ => None
  end.

(** Every reference held in the Map denotes an open link to the peer it is
    filed under. *)
Definition consistent (s : State) : Prop :=
  forall id r, connections s !! id = Some r -> links s !! r = Some (mkConn id Open).

(** The notifications among the effects of a handler. *)
Fixpoint notices (out : list Effect) : list BgMsg :=
  match out with
  | [] => []
  | ToBackground m :: rest => m :: notices rest
  | _ :: rest => notices rest
  end.

(** No peer-joined or peer-left notification among the effects. *)
Definition uncounted (out : list Effect) : Prop :=
  forall msg, In msg (notices out) -> noticeCount msg = None.

(** What a handler sent, and on which link. *)
Fixpoint sends (out : list Effect) : list (nat * SyncData) :=
  match out with
  | [] => []
  | ConnSend r d :: rest => (r, d) :: sends rest
  | _ :: rest => sends rest
  end.

(** The rejection of an initialisation attempt, if it is one. *)
Definition rejection (o : InitOutcome) : option string :=
  match o with
  | InitOpen _ => None
  | InitError ty msg => Some (initErrorMessage ty msg)
  | InitTimeout => Some "Connection timeout - could not reach signaling server"
  end.

(** The attempt ends in the error createSession retries on. *)
Definition collision (o : InitOutcome) : bool :=
  match rejection o with
  | Some msg => String.eqb msg "Session code already in use"
  | None => false
  end.

(** What createSession answers when attempt [n] is the one it returns from. *)
Definition answer (rnd : nat -> Q) (n : nat) (o : InitOutcome) : Response :=
  match rejection o with
  | None => RSession (Some (generateSessionCode rnd (6 * n))) true
  | Some msg => RFailure msg
  end.

(** *** Sample inputs *)

Definition alwaysCollide : nat -> InitOutcome :=
  fun _ => InitError "unavailable-id" None.

Definition collideTwice : nat -> InitOutcome :=
  fun n => if (n <? 2)%nat then InitError "unavailable-id" None
           else InitOpen "videosync-AAAAAA".

Definition neverAnswers : nat -> InitOutcome := fun _ => InitTimeout.

Definition zeros : nat -> Q := fun _ => 0%Q.

(** Numbers in [0, 1): 0, 1/7, 2/7, ... *)
Definition sevenths : nat -> Q := fun n => Z.of_nat (n mod 7) # 7.

(** A host that three guests have connected to. *)
Definition hostWithThree : list Event :=
  [EvCreate 1 zeros (fun _ => InitOpen "videosync-AAAAAA");
   EvConnection "alice"; EvConnection "bob"; EvConnection "carol";
   EvOpen 0; EvOpen 1; EvOpen 2].

(** The state those events lead to. *)
Definition hostState : State :=
  default initial (runEvents hostWithThree initial).

End Offscreen.

(* ====================================================================== *)
(** ** The background service worker *)
(* ====================================================================== *)

Module Background.

Record State := mkState {
  offscreenReady : bool;
  sessionCode    : option string;
  isHost         : bool;
  peerCount      : Z
}.

Definition initial : State := mkState false None false 0.

Definition with_peerCount (n : Z) (s : State) : State :=
  mkState (offscreenReady s) (sessionCode s) (isHost s) n.
Definition with_sessionCode (c : option string) (s : State) : State :=
  mkState (offscreenReady s) c (isHost s) (peerCount s).

Inductive Effect :=
| UpdateBadge (text color : string)            (* updateBadge(text, color)           *)
| SetPopupEnabled (enabled : bool)             (* setPopupEnabled(enabled)           *)
| NotifySessionStatus (connected : bool)       (* notifyContentScripts('session-status', ...) *)
| NotifyNotification (message : string)        (* notifyContentScripts('notification', ...)   *)
| PeerCountToPopup (n : Z)                     (* sendMessage({ action: 'peer-count', count }) *)
| SyncEventToActiveTab (data : SyncData) (from : string)
| StoreLastSession (code : option string) (host : bool)
| RemoveLastSession
| SendResponse (r : Response).

(** [n.toString()] on an integer. *)
Definition numberToString (n : Z) : string :=
  DecimalString.NilZero.string_of_int (Z.to_int n).

Definition defaultColor : string := "#4CAF50".

(** [activeTab]: whether the query for the active tab finds one. *)
Definition handleOffscreenMessage (m : BgMsg) (activeTab : bool) (s : State)
  : State * list Effect :=
  match m with
  | OffscreenReady =>
      (mkState true (sessionCode s) (isHost s) (peerCount s), [])
  | PeerReady _ => (s, [])
  | PeerJoined _ n =>
      (with_peerCount n s,
       [UpdateBadge (numberToString (n - 1)) defaultColor;
        NotifyNotification "Someone joined the session";
        PeerCountToPopup n])
  | PeerLeft _ n =>
      (with_peerCount n s,
       [UpdateBadge (if (1 <? n)%Z then numberToString (n - 1) else "0") defaultColor;
        NotifyNotification "Someone left the session";
        PeerCountToPopup n])
  | PeerData data from =>
      (s, if activeTab then [SyncEventToActiveTab data from] else [])
  | ConnectionStatus status =>
      if String.eqb status "reconnecting" then (s, [UpdateBadge "!" "#ff9800"])
      else if String.eqb status "closed" then
        (with_sessionCode None s,
         [UpdateBadge "" "#ff4444"; SetPopupEnabled false; NotifySessionStatus false])
      else (s, [])
  end.

(** In the request handlers, [reply] is how [sendToOffscreen] settled:
    [inl r] with the manager's response, [inr msg] with a rejection. *)

Definition handleCreateSession (reply : Response + string) (s : State)
  : State * list Effect :=
  match reply with
  | inl result =>
      if bool_decide (success result = Some true) then
        (mkState (offscreenReady s) (codeOf result) true 1,
         [UpdateBadge "0" defaultColor; SetPopupEnabled true;
          NotifySessionStatus true; StoreLastSession (codeOf result) true;
          SendResponse result])
      else (s, [SendResponse result])
  | inr msg => (s, [SendResponse (RFailure msg)])
  end.

Definition handleJoinSession (reply : Response + string) (s : State)
  : State * list Effect :=
  match reply with
  | inl result =>
      if bool_decide (success result = Some true) then
        (mkState (offscreenReady s) (codeOf result) false 2,
         [UpdateBadge "1" defaultColor; SetPopupEnabled true;
          NotifySessionStatus true; StoreLastSession (codeOf result) false;
          SendResponse result])
      else (s, [SendResponse result])
  | inr msg => (s, [SendResponse (RFailure msg)])
  end.

Definition handleLeaveSession (reply : Response + string) (s : State)
  : State * list Effect :=
  match reply with
  | inl result =>
      (mkState (offscreenReady s) None false 0,
       [UpdateBadge "" defaultColor; SetPopupEnabled false;
        NotifySessionStatus false; RemoveLastSession; SendResponse result])
  | inr _ =>
      (s, [SetPopupEnabled false; NotifySessionStatus false; SendResponse RSuccess])
  end.

Definition disconnectedStatus : Status := mkStatus false None false 0.

(** [hasDocument]: whether the offscreen document exists; [reply]: how the
    get-status request settled. *)
Definition handleGetStatus (hasDocument : bool) (reply : Status + string) (s : State)
  : State * list Effect :=
  if hasDocument then
    match reply with
    | inl status =>
        (mkState (offscreenReady s) (st_sessionCode status) (st_isHost status)
                 (st_peerCount status),
         [SendResponse (RStatus status)])
    | inr _ => (s, [SendResponse (RStatus disconnectedStatus)])
    end
  else (s, [SendResponse (RStatus disconnectedStatus)]).

(** What a request handler answered. *)
Fixpoint responses (out : list Effect) : list Response :=
  match out with
  | [] => []
  | SendResponse r :: rest => r :: responses rest
  | _ :: rest => responses rest
  end.

End Background.

(* ====================================================================== *)
(** ** The coordinator and the manager together *)
(* ====================================================================== *)

Module System.

(** The notifications a manager handler sent reach the coordinator in the
    order they were sent. *)
Definition deliver (out : list Offscreen.Effect) (activeTab : bool)
    (bg : Background.State) : Background.State :=
  fold_left (fun b m => fst (Background.handleOffscreenMessage m activeTab b))
            (Offscreen.notices out) bg.

(** A leave-session request of the UI.  [failure = None]: the request
    reaches the manager, whose listener answers with leaveSession's result;
    [failure = Some msg]: [sendToOffscreen] rejects and the manager never
    runs.  Returns both states and what the UI is answered. *)
Definition leave (failure : option string)
    (sys : Background.State * Offscreen.State)
  : (Background.State * Offscreen.State) * list Response :=
  let '(bg, m) := sys in
  match failure with
  | None =>
      let '(m', _, r) := Offscreen.leaveSession m in
      let '(bg', out) := Background.handleLeaveSession (inl r) bg in
      ((bg', m'), Background.responses out)
  | Some msg =>
      let '(bg', out) := Background.handleLeaveSession (inr msg) bg in
      ((bg', m), Background.responses out)
  end.

(** A get-status request of the UI, the offscreen document existing and the
    request reaching it. *)
Definition status (sys : Background.State * Offscreen.State)
  : (Background.State * Offscreen.State) * list Response :=
  let '(bg, m) := sys in
  let '(bg', out) := Background.handleGetStatus true (inl (Offscreen.getStatus m)) bg in
  ((bg', m), Background.responses out).

End System.

(* ====================================================================== *)
(** ** The life of a session in the connection manager: further vocabulary *)
(* ====================================================================== *)

Module Lifecycle.
Import Offscreen.

(** Every connection object is closed. *)
Definition allClosed (s : State) : Prop :=
  forall r c, links s !! r = Some c -> conn_state c = Closed.

(** Without a peer the manager holds nothing: the Map is empty and no
    connection object is still opening or open. *)
Definition peerless (s : State) : Prop :=
  peer s = None -> connections s = ∅ /\ allClosed s.

(** The state leaveSession leaves, as far as later events can see it. *)
Definition left (s : State) : Prop :=
  peer s = None /\ connections s = ∅ /\ sessionCode s = None /\
  isHost s = false /\ allClosed s.

(** The two requests that start a session. *)
Definition startsSession (e : Event) : bool :=
  match e with
  | EvCreate _ _ _ | EvJoin _ _ _ => true
  | _ => false
  end.

(** Two characters that differ at most in letter case: the same character,
    or the lower and the upper case of one ASCII letter (codes 97 to 122 and
    the codes 32 below). *)
Definition sameLetter (c d : ascii) : bool :=
  let m := nat_of_ascii c in
  let n := nat_of_ascii d in
  Nat.eqb m n
  || ((97 <=? m) && (m <=? 122) && Nat.eqb n (m - 32))%nat
  || ((97 <=? n) && (n <=? 122) && Nat.eqb m (n - 32))%nat.

(** Two strings of the same length that differ at most in letter case. *)
Fixpoint sameUpToCase (a b : string) : bool :=
  match a, b with
  | EmptyString, EmptyString => true
  | String c a', String d b' => sameLetter c d && sameUpToCase a' b'
  | _, _ => false
  end.

(** The string has ASCII characters only (codes below 128), where the
    model's [toUpperCase] is the source's. *)
Fixpoint asciiOnly (a : string) : bool :=
  match a with
  | EmptyString => true
  | String c a' => (nat_of_ascii c <? 128)%nat && asciiOnly a'
  end.

(** The code createSession generates in its [k]-th call. *)
Definition codeOfAttempt (rnd : nat -> Q) (k : nat) : string :=
  generateSessionCode rnd (6 * k).

(** Two guests on one host, the first of which connects a second time. *)
Definition reconnectingGuest : list Event :=
  [EvCreate 1 zeros (fun _ => InitOpen "videosync-AAAAAA");
   EvConnection "alice"; EvOpen 0;
   EvConnection "bob"; EvOpen 1;
   EvConnection "alice"; EvOpen 2].

Definition reconnectedState : State :=
  default initial (runEvents reconnectingGuest initial).

(** The same host once the first link of the guest that connected twice
    has closed. *)
Definition orphanedState : State :=
  default initial (runEvents (reconnectingGuest ++ [EvClose 0]) initial).

End Lifecycle.

(* ====================================================================== *)
(** ** content/content.js: capturing local events *)
(* ====================================================================== *)

Module Capture.
Import Content.

(** A timer set by [debounce]: its id, its delay and the data its callback
    hands to sendEvent. *)
Record Timer := mkTimer {
  timer_id    : nat;
  timer_delay : Z;
  timer_data  : SyncData
}.

(** The agent together with what capturing needs: the elements that carry
    the six listeners, the [debounceTimers] object (key to the id of the last
    timer set under it), the timers that are set and have neither fired nor
    been cleared, and the id the next [setTimeout] returns. *)
Record State := mkState {
  agent          : Agent;
  listening      : gset nat;
  debounceTimers : gmap string nat;
  timers         : list Timer;
  nextTimer      : nat
}.

Definition with_agent (a : Agent) (st : State) : State :=
  mkState a (listening st) (debounceTimers st) (timers st) (nextTimer st).
Definition with_listening (l : gset nat) (st : State) : State :=
  mkState (agent st) l (debounceTimers st) (timers st) (nextTimer st).
Definition with_buffering (b : bool) (a : Agent) : Agent :=
  mkAgent (dom a) (activeVideo a) (ignoreEvents a) b (myNickname a) (href a).

(** What capturing does to the outside. *)
Inductive Out :=
| StorageGetNickname                     (* chrome.storage.local.get(['nickname'], ...) *)
| SendVideoEvent (data : SyncData)       (* sendMessage({ action: 'video-event', data }) *)
| ToastSelf (data : SyncData).           (* showToast(`You ${actionLabels[data.type]}`, 'self') *)

(** getMyNickname: asks the store when no nickname is known yet, and
    answers [myNickname || 'You'] at once. *)
Definition getMyNickname (a : Agent) : string * list Out :=
  (str_or (myNickname a) "You",
   match myNickname a with
   | Some "" | None => [StorageGetNickname]
   | Some _ => []
   end).

(** [clearTimeout(id)]: [undefined] and ids of timers no longer set do
    nothing. *)
Definition clearTimeout (id : option nat) (ts : list Timer) : list Timer :=
  match id with
  | Some i => List.filter (fun t => negb (Nat.eqb (timer_id t) i)) ts
  | None => ts
  end.

(** [debounce(key, sendEvent, data, delay)] *)
Definition debounce (key : string) (data : SyncData) (delay : Z) (st : State) : State :=
  mkState (agent st) (listening st)
          (<[key := nextTimer st]> (debounceTimers st))
          (clearTimeout (debounceTimers st !! key) (timers st)
             ++ [mkTimer (nextTimer st) delay data])
          (S (nextTimer st)).

Definition localData (ty : string) (t s : option Q) (nick : string) : SyncData :=
  {| type := ty; time := t; speed := s; playing := None;
     nickname := Some nick; message := None; url := None |}.

(** The handlers; [target] is [e.target], the element the event fired on. *)

Definition capture (key ty : string) (t s : option Q) (delay : Z) (st : State)
  : State * list Out :=
  let '(nick, o) := getMyNickname (agent st) in
  (debounce key (localData ty t s nick) delay st, o).

Definition onPlay (target : Video) (st : State) : State * list Out :=
  if ignoreEvents (agent st) then (st, [])
  else capture "play" "play" (Some (currentTime target)) None DEBOUNCE_MS st.

Definition onPause (target : Video) (st : State) : State * list Out :=
  if ignoreEvents (agent st) then (st, [])
  else capture "pause" "pause" (Some (currentTime target)) None DEBOUNCE_MS st.

Definition onSeeked (target : Video) (st : State) : State * list Out :=
  if ignoreEvents (agent st) then (st, [])
  else capture "seek" "seek" (Some (currentTime target)) None DEBOUNCE_MS st.

Definition onRateChange (target : Video) (st : State) : State * list Out :=
  if ignoreEvents (agent st) then (st, [])
  else capture "rate" "speed" None (Some (playbackRate target)) DEBOUNCE_MS st.

Definition onBuffering (target : Video) (st : State) : State * list Out :=
  if ignoreEvents (agent st) || isBuffering (agent st) then (st, [])
  else capture "buffer" "buffering" (Some (currentTime target)) None 500
               (with_agent (with_buffering true (agent st)) st).

Definition onPlaying (target : Video) (st : State) : State * list Out :=
  (with_agent (with_buffering false (agent st)) st, []).

(** sendEvent *)
Definition sendEvent (data : SyncData) : list Out :=
  [SendVideoEvent data; ToastSelf data].

(** The timer with id [id] fires: it is no longer set, and its callback
    runs.  Nothing happens for an id that is not set. *)
Definition fire (id : nat) (st : State) : State * list Out :=
  match List.find (fun t => Nat.eqb (timer_id t) id) (timers st) with
  | Some t =>
      (mkState (agent st) (listening st) (debounceTimers st)
               (List.filter (fun t => negb (Nat.eqb (timer_id t) id)) (timers st))
               (nextTimer st),
       sendEvent (timer_data t))
  | None => (st, [])
  end.

(** attachVideoListeners(video), which detaches from the element bound
    before. *)
Definition attachVideoListeners (i : nat) (st : State) : State :=
  match activeVideo (agent st) with
  | Some j =>
      if Nat.eqb j i then st
      else with_listening ({[i]} ∪ (listening st ∖ {[j]}))
             (with_agent (with_active (Some i) (agent st)) st)
  | None =>
      with_listening ({[i]} ∪ listening st)
        (with_agent (with_active (Some i) (agent st)) st)
  end.

(** The callback of the MutationObserver, and the initial detection. *)
Definition onMutation (st : State) : State :=
  match findPrimaryVideo (dom (agent st)) with
  | Some i =>
      match activeVideo (agent st) with
      | Some j => if Nat.eqb j i then st else attachVideoListeners i st
      | None => attachVideoListeners i st
      end
  | None => st
  end.

Definition initialDetection (st : State) : State :=
  match findPrimaryVideo (dom (agent st)) with
  | Some i => attachVideoListeners i st
  | None => st
  end.

(** The kinds of media event the agent listens to. *)
Inductive Kind := KPlay | KPause | KSeeked | KRateChange | KWaiting | KPlaying.

Definition handler (k : Kind) : Video -> State -> State * list Out :=
  match k with
  | KPlay => onPlay
  | KPause => onPause
  | KSeeked => onSeeked
  | KRateChange => onRateChange
  | KWaiting => onBuffering
  | KPlaying => onPlaying
  end.

(** What can happen to a loaded content script, the page's elements
    staying the same ones.  The keyboard shortcut, which calls sendEvent
    directly, is not among these events. *)
Inductive Event :=
| Media (i : nat) (k : Kind)                     (* element [i] fires a media event *)
| Mutation                                       (* the observer's callback runs    *)
| Remote (data : SyncData) (from : option string)(* a 'sync-event' message          *)
| Fire (id : nat)                                (* a debounce timer fires          *)
| ClearIgnore                                    (* applySync's 200 ms timer fires  *)
| SetNickname (nick : string).                   (* a 'set-nickname' message        *)

(** A media event runs a handler only on an element that carries the
    listeners. *)
Definition step (e : Event) (st : State) : State * list Out :=
  match e with
  | Media i k =>
      match dom (agent st) !! i with
      | Some target =>
          if bool_decide (i ∈ listening st) then handler k target st else (st, [])
      | None => (st, [])
      end
  | Mutation => (onMutation st, [])
  | Remote data from =>
      (with_agent (outAgent (run (applySync data from) (agent st))) st, [])
  | Fire id => fire id st
  | ClearIgnore => (with_agent (with_ignore false (agent st)) st, [])
  | SetNickname nick =>
      (with_agent (mkAgent (dom (agent st)) (activeVideo (agent st))
                           (ignoreEvents (agent st)) (isBuffering (agent st))
                           (Some nick) (href (agent st))) st, [])
  end.

Fixpoint steps (es : list Event) (st : State) : State * list Out :=
  match es with
  | [] => (st, [])
  | e :: rest =>
      let '(st1, o1) := step e st in
      let '(st2, o2) := steps rest st1 in
      (st2, o1 ++ o2)
  end.

(** What can happen on the page of a loaded content script: one of the
    events above, or a change of the page itself.  An element is added
    (findAllVideos lists it after those it listed before), or an element is
    laid out anew with another size.  Elements keep their handles; an
    element taken off the page is not modelled. *)
Inductive PageEvent :=
| Script (e : Event)
| Added (v : Video)
| Resized (i : nat) (width height : Z).

Definition resize (w h : Z) (v : Video) : Video :=
  mkVideo w h (currentTime v) (paused v) (playbackRate v).

Definition pageStep (e : PageEvent) (st : State) : State * list Out :=
  match e with
  | Script e' => step e' st
  | Added v => (with_agent (with_dom (dom (agent st) ++ [v]) (agent st)) st, [])
  | Resized i w h =>
      (with_agent (with_dom (alter (resize w h) i (dom (agent st))) (agent st)) st, [])
  end.

Fixpoint pageSteps (es : list PageEvent) (st : State) : State * list Out :=
  match es with
  | [] => (st, [])
  | e :: rest =>
      let '(st1, o1) := pageStep e st in
      let '(st2, o2) := pageSteps rest st1 in
      (st2, o1 ++ o2)
  end.

(** A content script as it is once loaded on a page whose elements are
    [page]: nothing bound, nothing set. *)
Definition loaded (page : list Video) (url : string) : State :=
  mkState (mkAgent page None false false None url) ∅ ∅ [] 0.

(** Every timer that is set has an id below the next one to be handed out. *)
Definition timersBelowNext (st : State) : Prop :=
  Forall (fun t => timer_id t < nextTimer st) (timers st).

(** The video events among the outputs. *)
Fixpoint videoEvents (o : list Out) : list SyncData :=
  match o with
  | [] => []
  | SendVideoEvent d :: rest => d :: videoEvents rest
  | _ :: rest => videoEvents rest
  end.

(** A computation of the agent that leaves alone the echo-suppression
    flag, the binding and the sizes of the page's elements. *)
Definition steady {A} (m : M A) : Prop :=
  forall s log,
    ignoreEvents (outAgent (m s log)) = ignoreEvents s /\
    activeVideo (outAgent (m s log)) = activeVideo s /\
    area <$> dom (outAgent (m s log)) = area <$> dom s.

(** A burst of events of one kind on the listened element: the handler run
    on each target in turn. *)
Definition burst (k : Kind) (targets : list Video) (st : State) : State :=
  fold_left (fun s v => (handler k v s).1) targets st.

(** The key, the delay and the data under which a kind of event is
    debounced; [KPlaying] is not sent. *)
Definition debounced (k : Kind) (target : Video) (nick : string)
  : option (string * Z * SyncData) :=
  match k with
  | KPlay => Some ("play", DEBOUNCE_MS, localData "play" (Some (currentTime target)) None nick)
  | KPause => Some ("pause", DEBOUNCE_MS, localData "pause" (Some (currentTime target)) None nick)
  | KSeeked => Some ("seek", DEBOUNCE_MS, localData "seek" (Some (currentTime target)) None nick)
  | KRateChange => Some ("rate", DEBOUNCE_MS, localData "speed" None (Some (playbackRate target)) nick)
  | KWaiting => Some ("buffer", 500%Z, localData "buffering" (Some (currentTime target)) None nick)
  | KPlaying => None
  end.

(** The listeners sit on the bound element and nowhere else. *)
Definition listensToBound (st : State) : Prop :=
  forall i, i ∈ listening st -> activeVideo (agent st) = Some i.

(** The state in which element [i] is bound without listeners: nothing is
    listened to, no timer is set, and [i] is what findPrimaryVideo selects. *)
Definition boundUnheard (i : nat) (st : State) : Prop :=
  listening st = ∅ /\ timers st = [] /\
  activeVideo (agent st) = Some i /\
  findPrimaryVideo (dom (agent st)) = Some i.

(** Sample: the page gets a second, larger element, the observer's callback
    runs, and the new element fires 'pause'. *)
Definition largerElementArrives : list PageEvent :=
  [Added (mkVideo 1280 720 0 false 1); Script Mutation; Script (Media 1 KPause)].

(** Sample: an agent listening to its one element. *)
Definition attached : State :=
  initialDetection (loaded [videoAt10] "https://example.org/watch").

End Capture.

(* ====================================================================== *)
(** ** content/content.js: toasts and chat messages on the page *)
(* ====================================================================== *)

Module Presentation.

(** Elements are named by numbers.  [uiChildren] are the children of the
    toast container, [chatChildren] those of the chat container. *)
Record State := mkState {
  uiChildren   : list nat;
  toastStack   : list nat;
  chatChildren : list nat;
  nextElement  : nat
}.

Definition initial : State := mkState [] [] [] 0.

Definition removeElement (x : nat) (l : list nat) : list nat :=
  List.filter (fun y => negb (Nat.eqb y x)) l.

(** showToast: append the new toast, push it on the stack, and when the
    stack has grown past four, shift the oldest off and remove it. *)
Definition showToast (st : State) : State :=
  let toast := nextElement st in
  let children := uiChildren st ++ [toast] in
  let stack := toastStack st ++ [toast] in
  if (4 <? length stack)%nat then
    match stack with
    | oldest :: rest =>
        mkState (removeElement oldest children) rest (chatChildren st) (S toast)
    | [] => mkState children stack (chatChildren st) (S toast)
    end
  else mkState children stack (chatChildren st) (S toast).

(** The removal scheduled by showToast, for toast [t]. *)
Definition expireToast (t : nat) (st : State) : State :=
  mkState (removeElement t (uiChildren st)) (removeElement t (toastStack st))
          (chatChildren st) (nextElement st).

(** [while (children.length > 5) firstChild.remove()], with [fuel]
    iterations at most. *)
Fixpoint trimChat (fuel : nat) (l : list nat) : list nat :=
  match fuel with
  | O => l
  | S fuel' => if (5 <? length l)%nat then trimChat fuel' (tl l) else l
  end.

Definition showChatMessage (st : State) : State :=
  let msg := nextElement st in
  let children := chatChildren st ++ [msg] in
  mkState (uiChildren st) (toastStack st)
          (trimChat (length children) children) (S msg).

(** The removal scheduled by showChatMessage, for message [m]. *)
Definition expireChat (m : nat) (st : State) : State :=
  mkState (uiChildren st) (toastStack st) (removeElement m (chatChildren st))
          (nextElement st).

Inductive Op := Toast | ToastExpires (t : nat) | Chat | ChatExpires (m : nat).

Definition apply (o : Op) (st : State) : State :=
  match o with
  | Toast => showToast st
  | ToastExpires t => expireToast t st
  | Chat => showChatMessage st
  | ChatExpires m => expireChat m st
  end.

Definition applyAll (ops : list Op) (st : State) : State :=
  fold_left (fun s o => apply o s) ops st.

(** What every sequence of operations keeps: the toast container shows
    exactly the toasts of the stack, which are distinct, at most four and
    numbered below the next element; the chat container has at most five
    messages. *)
Definition tidy (st : State) : Prop :=
  uiChildren st = toastStack st /\
  length (toastStack st) <= 4 /\
  NoDup (toastStack st) /\
  Forall (fun t => t < nextElement st) (toastStack st) /\
  length (chatChildren st) <= 5.

End Presentation.

(* ====================================================================== *)
(** ** From the page to the wire and back *)
(* ====================================================================== *)

Module Routing.

(** The background listener on a message [{ action, data }] of a content
    script.  A content script sends the actions 'video-event',
    'sync-response' and 'open-chat': the first two are sent on to the
    connection manager as a 'broadcast' of the message's data, the third has
    no case in the switch.  (The popup's 'send-chat', which carries no
    [data], is not a message of this shape.) *)
Definition forwarded (action : string) (data : SyncData) : list SyncData :=
  if String.eqb action "video-event" || String.eqb action "sync-response"
  then [data] else [].

(** What the manager sends when the messages in an agent's log have gone
    through the background listener and the manager's 'broadcast' action. *)
Definition outbound (log : list Content.Effect) (m : Offscreen.State)
  : list Offscreen.Effect :=
  flat_map (fun ad => flat_map (fun d => Offscreen.broadcast d m)
                               (forwarded ad.1 ad.2))
           (Content.sentMessages log).

(** The same for the video events that capturing sends. *)
Definition outboundCaptured (o : list Capture.Out) (m : Offscreen.State)
  : list Offscreen.Effect :=
  flat_map (fun d => flat_map (fun d' => Offscreen.broadcast d' m)
                              (forwarded "video-event" d))
           (Capture.videoEvents o).

(** The sync events the coordinator forwards to the active tab. *)
Fixpoint toActiveTab (out : list Background.Effect) : list (SyncData * string) :=
  match out with
  | [] => []
  | Background.SyncEventToActiveTab d from :: rest => (d, from) :: toActiveTab rest
  | _ :: rest => toActiveTab rest
  end.

(** The content listener on 'sync-event' messages, one after the other: each
    runs applySync; an exception ends that run only. *)
Fixpoint applyAll (msgs : list (SyncData * string)) (a : Content.Agent)
  : Content.Agent * list Content.Effect :=
  match msgs with
  | [] => (a, [])
  | (d, from) :: rest =>
      let o := Content.run (Content.applySync d (Some from)) a in
      let '(a', log') := applyAll rest (Content.outAgent o) in
      (a', Content.outLog o ++ log')
  end.

(** What the effects of a manager handler do to the agent of the active
    tab, through the coordinator. *)
Definition inbound (out : list Offscreen.Effect) (activeTab : bool)
    (bg : Background.State) (a : Content.Agent)
  : Content.Agent * list Content.Effect :=
  applyAll
    (flat_map (fun m => toActiveTab (Background.handleOffscreenMessage m activeTab bg).2)
              (Offscreen.notices out))
    a.

End Routing.

(* ====================================================================== *)
(** * Properties *)
(* ====================================================================== *)


Section DoubleArithmetic.
Local Open Scope Z_scope.

(** What the threshold test needs of [binade]: whether [n/d] is at least 1,
    in the binade of 1/2, or below 1/4. *)
Lemma binade_spec (n d : positive) :
  let e := binade n d in
  (0 <= e -> Zpos d * 2 ^ e <= Zpos n) /\
  (e = -1 -> Zpos d <= 2 * Zpos n /\ Zpos n < Zpos d) /\
  (e <= -2 -> 2 * Zpos n < Zpos d).
Proof.
  cbv zeta. unfold binade.
  pose proof (Z.log2_spec (Zpos n) eq_refl) as [Ha1 Ha2].
  pose proof (Z.log2_spec (Zpos d) eq_refl) as [Hb1 Hb2].
  pose proof (Z.log2_nonneg (Zpos n)) as Ha0.
  pose proof (Z.log2_nonneg (Zpos d)) as Hb0.
  set (a := Z.log2 (Zpos n)) in *. set (b := Z.log2 (Zpos d)) in *.
  unfold Z.succ in *.
  rewrite Z.pow_add_r in Ha2, Hb2 by lia. change (2 ^ 1) with 2 in *.
  assert (Hpa : 0 < 2 ^ a) by (apply Z.pow_pos_nonneg; lia).
  assert (Hpb : 0 < 2 ^ b) by (apply Z.pow_pos_nonneg; lia).
  destruct (Z.leb_spec (Zpos d * 2 ^ Z.max 0 (a - b)) (Zpos n * 2 ^ Z.max 0 (- (a - b))))
    as [Ht | Ht].
  - split; [|split].
    + intros He. rewrite Z.max_r in Ht by lia. rewrite Z.max_l in Ht by lia.
      change (2 ^ 0) with 1 in Ht. lia.
    + intros He. rewrite Z.max_l in Ht by lia. rewrite Z.max_r in Ht by lia.
      replace (- (a - b)) with 1 in Ht by lia. change (2 ^ 0) with 1 in Ht.
      change (2 ^ 1) with 2 in Ht. split; [lia|].
      replace b with (a + 1) in Hb1 by lia. rewrite Z.pow_add_r in Hb1 by lia.
      change (2 ^ 1) with 2 in Hb1. lia.
    + intros He.
      replace b with ((a + 1) + (b - a - 1)) in Hb1 by lia.
      rewrite !Z.pow_add_r in Hb1 by lia. change (2 ^ 1) with 2 in Hb1.
      assert (2 <= 2 ^ (b - a - 1)).
      { change 2 with (2 ^ 1) at 1. apply Z.pow_le_mono_r; lia. }
      nia.
  - split; [|split].
    + intros He.
      assert (Hd : 2 ^ a = 2 ^ b * 2 * 2 ^ (a - b - 1)).
      { replace (2 ^ a) with (2 ^ (b + 1 + (a - b - 1))) by (f_equal; lia).
        rewrite !Z.pow_add_r by lia. reflexivity. }
      assert (0 < 2 ^ (a - b - 1)) by (apply Z.pow_pos_nonneg; lia).
      nia.
    + intros He. assert (Hab : a - b = 0) by lia.
      rewrite Hab in Ht. change (Z.max 0 (- 0)) with 0 in Ht.
      change (Z.max 0 0) with 0 in Ht. change (2 ^ 0) with 1 in Ht.
      assert (Hpab : 2 ^ a = 2 ^ b) by (f_equal; lia). split; lia.
    + intros He.
      rewrite (Z.max_r 0 (- (a - b))), (Z.max_l 0 (a - b)) in Ht by lia.
      change (2 ^ 0) with 1 in Ht.
      assert (2 <= 2 ^ (- (a - b))).
      { change 2 with (2 ^ 1) at 1. apply Z.pow_le_mono_r; lia. }
      nia.
Qed.

Lemma nearestEven_bounds (p q : Z) :
  0 < q -> p / q <= nearestEven p q <= p / q + 1.
Proof.
  intros Hq. unfold nearestEven.
  destruct (2 * (p mod q) ?= q); [destruct (Z.even (p / q))|..]; lia.
Qed.

(** A quotient of at least [2^52] rounds to more than [2^52] exactly when
    it exceeds [2^52 + 1/2]: the tie goes to [2^52], which is even. *)
Lemma nearestEven_above (p q : Z) :
  0 < q -> 2 ^ 52 * q <= p ->
  (2 ^ 52 < nearestEven p q <-> (2 ^ 53 + 1) * q < 2 * p).
Proof.
  intros Hq Hp. unfold nearestEven.
  pose proof (Z.div_mod p q ltac:(lia)) as Hdm.
  pose proof (Z.mod_pos_bound p q Hq) as Hr.
  assert (Hf : 2 ^ 52 <= p / q) by (apply Z.div_le_lower_bound; lia).
  set (f := p / q) in *. set (r := p mod q) in *.
  change (2 ^ 53) with (2 * 2 ^ 52). 
  destruct (Z.eq_dec f (2 ^ 52)) as [Ef | Ef].
  - rewrite Ef in *. change (Z.even (2 ^ 52)) with true.
    destruct (Z.compare_spec (2 * r) q); split; intros; try lia; nia.
  - assert (2 ^ 52 + 1 <= f) by lia.
    destruct (Z.compare_spec (2 * r) q); [destruct (Z.even f)|..]; split; intros; try lia; nia.
Qed.

Lemma half_lt_scaled_neg (m k : Z) :
  k < 0 -> ((1 # 2) < scaled m k)%Q <-> 2 ^ (- k) < 2 * m.
Proof.
  intros Hk. unfold scaled.
  destruct (Z.leb_spec 0 k); [lia|].
  rewrite Qred_correct. unfold Qlt. cbn [Qnum Qden].
  rewrite Z2Pos.id by (apply Z.pow_pos_nonneg; lia). lia.
Qed.

Lemma roundPos_threshold (n d : positive) :
  ((1 # 2) < roundPos n d)%Q <-> (2 ^ 53 + 1) * Zpos d < 2 ^ 54 * Zpos n.
Proof.
  unfold roundPos. cbv zeta.
  destruct (binade_spec n d) as (Hnn & Hm1 & Hlow). cbv zeta in *.
  set (e := binade n d) in *.
  destruct (Z_lt_le_dec e (-1)) as [He | He]; [|destruct (Z.eq_dec e (-1)) as [He1 | He1]].
  - specialize (Hlow ltac:(lia)).
    set (k := Z.max e (-1022) - 52).
    assert (Hk : k <= -54) by lia.
    rewrite (Z.max_r 0 (- k)), (Z.max_l 0 k) by lia.
    rewrite half_lt_scaled_neg by lia.
    change (2 ^ 0) with 1. rewrite Z.mul_1_r.
    pose proof (nearestEven_bounds (Zpos n * 2 ^ (- k)) (Zpos d) eq_refl) as [_ Hup].
    assert (Hp : 2 ^ (- k) = 2 * 2 ^ (- k - 1)).
    { replace (2 ^ (- k)) with (2 ^ (1 + (- k - 1))) by (f_equal; lia).
      rewrite Z.pow_add_r by lia. reflexivity. }
    assert (Hpos : 0 < 2 ^ (- k - 1)) by (apply Z.pow_pos_nonneg; lia).
    assert (Hf : Zpos n * 2 ^ (- k) / Zpos d < 2 ^ (- k - 1)).
    { apply Z.div_lt_upper_bound; [lia|]. rewrite Hp. nia. }
    split; intros H; exfalso; [rewrite Hp in H at 1; lia | lia].
  - specialize (Hm1 He1) as [H1 H2]. rewrite He1.
    change (Z.max (-1) (-1022) - 52) with (- 53).
    rewrite half_lt_scaled_neg by lia.
    change (Z.max 0 (- - 53)) with 53. change (Z.max 0 (- 53)) with 0.
    change (2 ^ 0) with 1. rewrite Z.mul_1_r.
    pose proof (nearestEven_above (Zpos n * 2 ^ 53) (Zpos d) eq_refl) as Hab.
    change (- - 53) with 53.
    change (2 ^ 53) with (2 * 2 ^ 52) in *. change (2 ^ 54) with (2 * (2 * 2 ^ 52)).
    specialize (Hab ltac:(lia)). lia.
  - specialize (Hnn ltac:(lia)).
    assert (Hpe : 0 < 2 ^ e) by (apply Z.pow_pos_nonneg; lia).
    assert (Hnd : Zpos d <= Zpos n) by nia.
    split; [intros _; lia | intros _].
    rewrite (Z.max_l e (-1022)) by lia. set (k := e - 52).
    destruct (Z_le_gt_dec 0 k) as [Hk | Hk].
    + unfold scaled. destruct (Z.leb_spec 0 k); [|lia].
      rewrite (Z.max_l 0 (- k)), (Z.max_r 0 k) by lia. change (2 ^ 0) with 1.
      rewrite Z.mul_1_r.
      assert (Hpk : 0 < 2 ^ k) by (apply Z.pow_pos_nonneg; lia).
      pose proof (nearestEven_bounds (Zpos n) (Zpos d * 2 ^ k) ltac:(lia)) as [Hlo _].
      assert (1 <= Zpos n / (Zpos d * 2 ^ k)).
      { apply Z.div_le_lower_bound; [lia|].
        assert (2 ^ e = 2 ^ k * 2 ^ 52).
        { rewrite <- Z.pow_add_r by lia. f_equal. lia. }
        nia. }
      unfold Qlt. cbn [Qnum Qden inject_Z]. nia.
    + rewrite (Z.max_r 0 (- k)), (Z.max_l 0 k) by lia.
      rewrite half_lt_scaled_neg by lia.
      change (2 ^ 0) with 1. rewrite Z.mul_1_r.
      assert (Hpk : 0 < 2 ^ (- k)) by (apply Z.pow_pos_nonneg; lia).
      pose proof (nearestEven_bounds (Zpos n * 2 ^ (- k)) (Zpos d) eq_refl) as [Hlo _].
      assert (2 ^ (- k) <= Zpos n * 2 ^ (- k) / Zpos d).
      { apply Z.div_le_lower_bound; [lia|]. nia. }
      lia.
Qed.

Lemma nearestEven_nonneg (p q : Z) : 0 <= p -> 0 < q -> 0 <= nearestEven p q.
Proof.
  intros Hp Hq. pose proof (nearestEven_bounds p q Hq) as [H _].
  pose proof (Z.div_pos p q Hp Hq). lia.
Qed.

Lemma scaled_nonneg (m k : Z) : 0 <= m -> (0 <= scaled m k)%Q.
Proof.
  intros Hm. unfold scaled. destruct (Z.leb_spec 0 k).
  - unfold Qle. cbn [Qnum Qden inject_Z].
    assert (0 <= 2 ^ k) by (apply Z.pow_nonneg; lia). nia.
  - rewrite Qred_correct. unfold Qle. cbn [Qnum Qden]. lia.
Qed.

Lemma roundPos_nonneg (n d : positive) : (0 <= roundPos n d)%Q.
Proof.
  unfold roundPos. cbv zeta. apply scaled_nonneg. apply nearestEven_nonneg.
  - assert (0 <= 2 ^ Z.max 0 (- (Z.max (binade n d) (-1022) - 52)))
      by (apply Z.pow_nonneg; lia). nia.
  - assert (0 < 2 ^ Z.max 0 (Z.max (binade n d) (-1022) - 52))
      by (apply Z.pow_pos_nonneg; lia). nia.
Qed.

(** The rounded value exceeds 1/2 in absolute value exactly when the number
    itself exceeds 1/2 + 2^-54, the midpoint between 1/2 and the next
    binary64 value: the tie goes to 1/2. *)
Lemma roundDouble_threshold (x : Q) :
  ((1 # 2) < Qabs (roundDouble x))%Q <->
  ((1 # 2) + (1 # 18014398509481984) < Qabs x)%Q.
Proof.
  rewrite <- (Qred_correct x) at 2. unfold roundDouble.
  destruct (Qred x) as [[|n|n] d]; cbn [Qnum Qden].
  - split; intros H; exfalso; revert H; unfold Qlt; cbn; lia.
  - rewrite (Qabs_pos (roundPos n d)) by apply roundPos_nonneg.
    rewrite roundPos_threshold. unfold Qlt. cbn [Qabs Qnum Qden Z.abs Qplus].
    change (2 ^ 53) with 9007199254740992. change (2 ^ 54) with 18014398509481984.
    lia.
  - rewrite Qabs_opp.
    rewrite (Qabs_pos (roundPos n d)) by apply roundPos_nonneg.
    rewrite roundPos_threshold. unfold Qlt. cbn [Qabs Qnum Qden Z.abs Qplus].
    change (2 ^ 53) with 9007199254740992. change (2 ^ 54) with 18014398509481984.
    lia.
Qed.

End DoubleArithmetic.

Section ContentProperties.
Import Content.

Lemma Qgtb_true (a b : Q) : Qgtb a b = true <-> (b < a)%Q.
Proof.
  unfold Qgtb. rewrite negb_true_iff. split.
  - intros H. apply Qnot_le_lt. intros Hle.
    apply Qle_bool_iff in Hle. congruence.
  - intros H. destruct (Qle_bool a b) eqn:E; [|reflexivity].
    apply Qle_bool_iff in E. exfalso. eapply Qlt_not_le; eauto.
Qed.

Lemma Qgtb_false (a b : Q) : Qgtb a b = false <-> ~ (b < a)%Q.
Proof.
  rewrite <- Qgtb_true. destruct (Qgtb a b); split; intros; congruence.
Qed.

Lemma num_or_some_zero (t : Q) : (num_or (Some t) 0 == t)%Q.
Proof.
  unfold num_or. destruct (Qeq_bool t 0) eqn:E; [|reflexivity].
  apply Qeq_bool_iff in E. symmetry. exact E.
Qed.

(** Rounding does not depend on how a rational is written. *)
Lemma roundDouble_eq (x y : Q) : (x == y)%Q -> roundDouble x = roundDouble y.
Proof. intros H. unfold roundDouble. rewrite (Qred_complete x y H). reflexivity. Qed.

Lemma timeDiff_some (c t : Q) : numSub c (num_or (Some t) 0) = numSub c t.
Proof. apply roundDouble_eq. rewrite num_or_some_zero. reflexivity. Qed.

#[local] Arguments roundDouble : simpl never.
#[local] Arguments numSub : simpl never.

(** Stepping the primitives on a valid handle. *)

Lemma readVideo_run i v s log :
  dom s !! i = Some v -> readVideo i s log = Returned v s log.
Proof. intros H. unfold readVideo, bind, getAgent. rewrite H. reflexivity. Qed.

Lemma updVideo_run i v f s log :
  dom s !! i = Some v ->
  updVideo i f s log = Returned tt (with_dom (<[i := f v]> (dom s)) s) log.
Proof.
  intros H. unfold updVideo, bind. rewrite (readVideo_run i v) by exact H.
  reflexivity.
Qed.

Lemma lookup_with_dom i v v' s :
  dom s !! i = Some v -> dom (with_dom (<[i := v']> (dom s)) s) !! i = Some v'.
Proof.
  intros H. simpl. apply list_lookup_insert_eq. eapply lookup_lt_Some; eauto.
Qed.

Lemma setCurrentTime_run i v t s log :
  dom s !! i = Some v ->
  setCurrentTime i (Some t) s log
  = Returned tt (with_dom (<[i := setTime t v]> (dom s)) s) (log ++ [Seek t]).
Proof.
  intros H. unfold setCurrentTime, bind. rewrite (updVideo_run i v) by exact H.
  reflexivity.
Qed.

Lemma setPlaybackRate_run i v r s log :
  dom s !! i = Some v ->
  setPlaybackRate i (Some r) s log
  = Returned tt (with_dom (<[i := setSpeed r v]> (dom s)) s) (log ++ [SetRate r]).
Proof.
  intros H. unfold setPlaybackRate, bind. rewrite (updVideo_run i v) by exact H.
  reflexivity.
Qed.

Lemma play_run i v s log :
  dom s !! i = Some v ->
  play i s log
  = Returned tt (with_dom (<[i := setPaused false v]> (dom s)) s) (log ++ [Play]).
Proof.
  intros H. unfold play, bind. rewrite (updVideo_run i v) by exact H.
  reflexivity.
Qed.

Lemma pause_run i v s log :
  dom s !! i = Some v ->
  pause i s log
  = Returned tt (with_dom (<[i := setPaused true v]> (dom s)) s) (log ++ [Pause]).
Proof.
  intros H. unfold pause, bind. rewrite (updVideo_run i v) by exact H.
  reflexivity.
Qed.

(** applySync on an agent that has an element: the prologue binds the
    element and raises the echo-suppression flag, the switch runs, and the
    epilogue schedules the reset of the flag. *)
Lemma applySync_available data from s i v :
  available s i v ->
  run (applySync data from) s =
    match applySwitch data i v (entered i s) [] with
    | Returned _ s' log' => Returned tt s' (log' ++ [ClearIgnoreAfter 200])
    | Thrown e s' log' => Thrown e s' log'
    end.
Proof.
  intros [[Hact | [Hact Hfind]] Hv]; unfold run, applySync, bind, getAgent.
  - rewrite Hact. unfold ret, modify.
    replace (with_ignore true s) with (entered i s)
      by (unfold entered, with_active, with_ignore; destruct s; simpl in *; congruence).
    rewrite (readVideo_run i v) by exact Hv.
    destruct (applySwitch data i v (entered i s) []); reflexivity.
  - rewrite Hact, Hfind. unfold ret, modify, bind.
    change (with_ignore true (with_active (Some i) s)) with (entered i s).
    rewrite (readVideo_run i v) by exact Hv.
    destruct (applySwitch data i v (entered i s) []); reflexivity.
Qed.

Lemma entered_dom i s : dom (entered i s) = dom s.
Proof. reflexivity. Qed.

Lemma lookup_entered i v s :
  dom s !! i = Some v -> dom (entered i s) !! i = Some v.
Proof. intros H. exact H. Qed.

#[local] Arguments setCurrentTime : simpl never.
#[local] Arguments setPlaybackRate : simpl never.
#[local] Arguments play : simpl never.
#[local] Arguments pause : simpl never.

Ltac step_video :=
  repeat first
    [ erewrite setCurrentTime_run by eauto using lookup_with_dom, lookup_entered
    | erewrite setPlaybackRate_run by eauto using lookup_with_dom, lookup_entered
    | erewrite play_run by eauto using lookup_with_dom, lookup_entered
    | erewrite pause_run by eauto using lookup_with_dom, lookup_entered ].

(** C1 (as amended). For a remote play or pause event that carries a
    position [t], and an agent that has a media element at position
    [currentTime v]: applySync completes; when the difference
    [currentTime v - t] as the source computes it, rounded to the nearest
    binary64 value, exceeds the 0.5 s threshold in absolute value, the
    operations issued on the element are a seek to [t] followed by the
    play/pause, and otherwise the play/pause alone (no seek).  The rounded
    difference exceeds the threshold exactly when the two positions differ
    by more than 0.5 + 2^-54. *)
Theorem C1_play_pause_threshold
    (data : SyncData) (from : option string) (s : Agent)
    (i : nat) (v : Video) (t : Q) :
  type data = "play" \/ type data = "pause" ->
  time data = Some t ->
  available s i v ->
  let o := run (applySync data from) s in
  let isPlay := String.eqb (type data) "play" in
  let op := if isPlay then Play else Pause in
  let far := (SYNC_THRESHOLD < Qabs (roundDouble (currentTime v - t)))%Q in
  (far <-> ((1 # 2) + (1 # 18014398509481984) < Qabs (currentTime v - t))%Q) /\
  completed o = true /\
  (far ->
     videoOps (outLog o) = [Seek t; op] /\
     boundVideo (outAgent o) = Some (setPaused (negb isPlay) (setTime t v))) /\
  (~ far ->
     videoOps (outLog o) = [op] /\
     boundVideo (outAgent o) = Some (setPaused (negb isPlay) v)).
Proof.
  intros Hty Ht Hav. pose proof Hav as [_ Hv].
  assert (Hlen : i < length (dom s)) by (eapply lookup_lt_Some; eauto).
  cbv zeta. split.
  { assert (E : (SYNC_THRESHOLD == 1 # 2)%Q) by reflexivity.
    rewrite E. apply roundDouble_threshold. }
  rewrite (applySync_available data from s i v Hav).
  unfold applySwitch. rewrite Ht, timeDiff_some.
  fold (numSub (currentTime v) t).
  assert (Hfar : forall b, Qgtb (Qabs (numSub (currentTime v) t)) SYNC_THRESHOLD = b ->
            if b then (SYNC_THRESHOLD < Qabs (numSub (currentTime v) t))%Q
            else ~ (SYNC_THRESHOLD < Qabs (numSub (currentTime v) t))%Q).
  { intros [] Hb.
    - apply Qgtb_true in Hb. exact Hb.
    - apply Qgtb_false in Hb. exact Hb. }
  destruct (Qgtb (Qabs (numSub (currentTime v) t)) SYNC_THRESHOLD) eqn:Egt;
    specialize (Hfar _ eq_refl); cbv beta iota in Hfar;
    destruct Hty as [Hty | Hty]; rewrite Hty; simpl;
    unfold when, bind, ret, emit; step_video; simpl;
    (split; [reflexivity|]); split; intros Hcase; try contradiction;
    (split; [reflexivity|]);
    unfold boundVideo; simpl;
    apply list_lookup_insert_eq; rewrite ?length_insert; exact Hlen.
Qed.

(** The whole outcome of applying a sync-response that carries a position. *)
Lemma applySync_response (data : SyncData) from s i v t :
  type data = "sync-response" ->
  time data = Some t ->
  available s i v ->
  let v' := setPaused (negb (truthy (playing data)))
              (setSpeed (num_or (speed data) 1) (setTime t v)) in
  run (applySync data from) s =
    Returned tt
      (with_dom (<[i := v']> (dom s)) (entered i s))
      [Seek t; SetRate (num_or (speed data) 1);
       (if truthy (playing data) then Play else Pause);
       ShowToast ToastSynced "success"; ClearIgnoreAfter 200].
Proof.
  intros Hty Ht Hav. pose proof Hav as [_ Hv].
  assert (Hlen : i < length (dom s)) by (eapply lookup_lt_Some; eauto).
  cbv zeta. rewrite (applySync_available data from s i v Hav).
  unfold applySwitch. rewrite Hty, Ht. simpl.
  unfold bind, emit. step_video.
  destruct (truthy (playing data)); step_video; simpl;
    rewrite !list_insert_insert_eq; reflexivity.
Qed.

(** The whole outcome of answering a sync-request. *)
Lemma applySync_request (data : SyncData) from s i v :
  type data = "sync-request" ->
  available s i v ->
  run (applySync data from) s =
    Returned tt (entered i s)
      [RuntimeSend "sync-response"
         {| type := "sync-response";
            time := Some (currentTime v);
            speed := Some (playbackRate v);
            playing := Some (negb (paused v));
            nickname := None; message := None;
            url := Some (href s) |};
       ClearIgnoreAfter 200].
Proof.
  intros Hty Hav.
  rewrite (applySync_available data from s i v Hav).
  unfold applySwitch. rewrite Hty. simpl. reflexivity.
Qed.

Lemma available_after i v v' s :
  dom s !! i = Some v ->
  available (with_dom (<[i := v']> (dom s)) (entered i s)) i v'.
Proof.
  intros Hv. split.
  - left. reflexivity.
  - simpl. apply list_lookup_insert_eq. eapply lookup_lt_Some; eauto.
Qed.

(** C10 (as amended). Applying a sync-response that carries a position and
    whose speed is absent or zero assigns playback rate 1; for any other
    speed the transmitted value is assigned. *)
Theorem C10_speed_fallback
    (data : SyncData) (from : option string) (s : Agent)
    (i : nat) (v : Video) (t : Q) :
  type data = "sync-response" ->
  time data = Some t ->
  available s i v ->
  let o := run (applySync data from) s in
  completed o = true /\
  videoOps (outLog o)
    = [Seek t; SetRate (num_or (speed data) 1);
       if truthy (playing data) then Play else Pause] /\
  (playbackRate <$> boundVideo (outAgent o)) = Some (num_or (speed data) 1) /\
  (speed data = None -> num_or (speed data) 1 = 1%Q) /\
  (forall q, speed data = Some q -> (q == 0)%Q -> num_or (speed data) 1 = 1%Q) /\
  (forall q, speed data = Some q -> ~ (q == 0)%Q -> num_or (speed data) 1 = q).
Proof.
  intros Hty Ht Hav. pose proof Hav as [_ Hv].
  assert (Hlen : i < length (dom s)) by (eapply lookup_lt_Some; eauto).
  cbv zeta. rewrite (applySync_response data from s i v t Hty Ht Hav).
  simpl. repeat split.
  - destruct (truthy (playing data)); reflexivity.
  - unfold boundVideo. simpl. rewrite list_lookup_insert_eq by exact Hlen.
    reflexivity.
  - intros ->. reflexivity.
  - intros q -> Hq. simpl. apply Qeq_bool_iff in Hq. rewrite Hq. reflexivity.
  - intros q -> Hq. simpl. destruct (Qeq_bool q 0) eqn:E; [|reflexivity].
    apply Qeq_bool_iff in E. contradiction.
Qed.

(** C6 (as amended). A sync-request met by an agent whose element holds
    position [currentTime v], play state [paused v] and rate [playbackRate v]
    makes it send one sync-response carrying exactly those values, and leaves
    the element untouched.  Applying a sync-response that carries position [t]
    sets the element's position to [t], its play/pause state to the response's
    [playing] flag, and its rate to the response's speed when that is present
    and non-zero, and to 1 otherwise; applying the same response again
    changes nothing. *)
Theorem C6_catch_up_roundtrip
    (req resp : SyncData) (from : option string) (s : Agent)
    (i : nat) (v : Video) (t : Q) :
  type req = "sync-request" ->
  type resp = "sync-response" ->
  time resp = Some t ->
  available s i v ->
  let answered := run (applySync req from) s in
  let once := run (applySync resp from) s in
  let twice := run (applySync resp from) (outAgent once) in
  (completed answered = true /\
   sentMessages (outLog answered)
     = [("sync-response",
         {| type := "sync-response";
            time := Some (currentTime v);
            speed := Some (playbackRate v);
            playing := Some (negb (paused v));
            nickname := None; message := None;
            url := Some (href s) |})] /\
   videoOps (outLog answered) = [] /\
   boundVideo (outAgent answered) = Some v) /\
  (completed once = true /\
   exists v', boundVideo (outAgent once) = Some v' /\
     currentTime v' = t /\
     paused v' = negb (truthy (playing resp)) /\
     playbackRate v' = num_or (speed resp) 1 /\
     (forall q, speed resp = Some q -> ~ (q == 0)%Q -> playbackRate v' = q)) /\
  (completed twice = true /\ outAgent twice = outAgent once).
Proof.
  intros Hq Hp Ht Hav. pose proof Hav as [_ Hv].
  assert (Hlen : i < length (dom s)) by (eapply lookup_lt_Some; eauto).
  cbv zeta.
  rewrite (applySync_request req from s i v Hq Hav).
  rewrite (applySync_response resp from s i v t Hp Ht Hav).
  split; [|split].
  - simpl. repeat split. unfold boundVideo. simpl. exact Hv.
  - split; [reflexivity|]. eexists. split.
    + unfold boundVideo. simpl. apply list_lookup_insert_eq. exact Hlen.
    + simpl. repeat split.
      intros q -> Hne. simpl. destruct (Qeq_bool q 0) eqn:E; [|reflexivity].
      apply Qeq_bool_iff in E. contradiction.
  - simpl outAgent at 1 2.
    erewrite applySync_response; [| exact Hp | exact Ht | apply (available_after i v); exact Hv].
    split; [reflexivity|]. simpl.
    unfold with_dom, entered, with_ignore, with_active. simpl.
    rewrite list_insert_insert_eq. reflexivity.
Qed.

Lemma available_agentAt10 : available agentAt10 0 videoAt10.
Proof. split; [left|]; reflexivity. Qed.

Lemma available_agentUnbound : available agentUnbound 1 videoAt10.
Proof. split; [right; split|]; reflexivity. Qed.

(** The two scenarios of the specification, by evaluation: local position
    10.0 s; a play at 10.2 s (the binary64 value so written) is within the
    threshold, a play at 12.0 s is not. *)
Example play_within_threshold :
  roundDouble (102 # 10) = 2871044762448691 # 281474976710656 /\
  videoOps (outLog (run (applySync (playAt (2871044762448691 # 281474976710656)) None)
                      agentAt10)) = [Play].
Proof. split; vm_compute; reflexivity. Qed.

Example play_beyond_threshold :
  videoOps (outLog (run (applySync (playAt 12) None) agentAt10)) = [Seek 12; Play].
Proof. reflexivity. Qed.

(** Rounding, by evaluation: the binary64 value written 0.1; a value that
    needs no rounding; ties, which go to the even significand; the spacing
    [2^-1074] of the smallest values. *)
Example roundDouble_samples :
  roundDouble (1 # 10) = 3602879701896397 # 36028797018963968 /\
  roundDouble (- (5 # 4)) = (- (5 # 4))%Q /\
  roundDouble (inject_Z (2 ^ 53 + 1)) = inject_Z (2 ^ 53) /\
  roundDouble (inject_Z (2 ^ 53 + 3)) = inject_Z (2 ^ 53 + 4) /\
  roundDouble (3 # Z.to_pos (2 ^ 1075)) = 1 # Z.to_pos (2 ^ 1073) /\
  roundDouble (1 # Z.to_pos (2 ^ 1075)) = 0%Q.
Proof. vm_compute. repeat split. Qed.

(** The subtraction of the model against the Standard Library's
    specification of IEEE 754 arithmetic, on the binary64 values 0.3 and
    0.8 and on 10 and 12. *)
Example numSub_agrees_with_SFsub :
  let f03 := S754_finite false 5404319552844595 (-54) in
  let f08 := S754_finite false 7205759403792794 (-53) in
  let f10 := S754_finite false 5629499534213120 (-49) in
  let f12 := S754_finite false 6755399441055744 (-49) in
  ofSpecFloat f03 = Some double03 /\
  ofSpecFloat f08 = Some double08 /\
  ofSpecFloat f10 = Some 10%Q /\
  ofSpecFloat f12 = Some 12%Q /\
  ofSpecFloat (SFsub 53 1024 f03 f08) = Some (numSub double03 double08) /\
  ofSpecFloat (SFsub 53 1024 f08 f03) = Some (numSub double08 double03) /\
  ofSpecFloat (SFsub 53 1024 f10 f12) = Some (numSub 10 12) /\
  ofSpecFloat (SFsub 53 1024 f12 f03) = Some (numSub 12 double03).
Proof. vm_compute. repeat split. Qed.

(** C1 as first stated fails at the threshold.  The element is at the
    binary64 value written 0.3 and a play event carries the one written 0.8:
    the two positions differ by 0.5 + 2^-54, which exceeds the threshold,
    but the difference the source computes is that number rounded, 0.5, and
    no seek is issued. *)
Lemma C1_counterexample :
  isDouble double03 /\ isDouble double08 /\
  (Qabs (currentTime videoAt03 - double08) == (1 # 2) + (1 # 18014398509481984))%Q /\
  (SYNC_THRESHOLD < Qabs (currentTime videoAt03 - double08))%Q /\
  videoOps (outLog (run (applySync (playAt double08) None) agentAt03)) = [Play].
Proof.
  split; [vm_compute; reflexivity|]. split; [vm_compute; reflexivity|].
  split; [reflexivity|]. split; [reflexivity|].
  vm_compute. reflexivity.
Qed.

Lemma C1_play_pause_threshold_witness :
  (type (playAt 12) = "play" \/ type (playAt 12) = "pause") /\
  time (playAt 12) = Some 12%Q /\
  available agentUnbound 1 videoAt10 /\
  (SYNC_THRESHOLD < Qabs (roundDouble (currentTime videoAt10 - 12)))%Q /\
  videoOps (outLog (run (applySync (playAt 12) None) agentUnbound)) = [Seek 12; Play].
Proof.
  assert (Hfar : (SYNC_THRESHOLD < Qabs (roundDouble (currentTime videoAt10 - 12)))%Q)
    by reflexivity.
  split; [left; reflexivity|].
  split; [reflexivity|].
  split; [exact available_agentUnbound|].
  split; [exact Hfar|].
  exact (proj1 (proj1 (proj2 (proj2 (C1_play_pause_threshold (playAt 12) None agentUnbound
           1 videoAt10 12 (or_introl eq_refl) eq_refl available_agentUnbound))) Hfar)).
Defined.

Lemma C10_speed_fallback_witness :
  type (syncResponse 30 0 true) = "sync-response" /\
  time (syncResponse 30 0 true) = Some 30%Q /\
  available agentAt10 0 videoAt10 /\
  (playbackRate <$> boundVideo (outAgent (run (applySync (syncResponse 30 0 true) None) agentAt10)))
    = Some 1%Q.
Proof.
  split; [reflexivity|].
  split; [reflexivity|].
  split; [exact available_agentAt10|].
  exact (proj1 (proj2 (proj2 (C10_speed_fallback (syncResponse 30 0 true) None agentAt10
           0 videoAt10 30 eq_refl eq_refl available_agentAt10)))).
Defined.

(** C10 as first stated fails on a sync-response that carries no position:
    with the speed absent, or 0, applySync throws on the assignment of the
    position, before it reaches the playback rate, which stays what it was
    (here 0) instead of becoming 1. *)
Lemma C10_counterexample :
  let absent := blankData "sync-response" in
  let zero := {| type := "sync-response"; time := None; speed := Some 0%Q;
                 playing := Some true; nickname := None; message := None;
                 url := None |} in
  speed absent = None /\ speed zero = Some 0%Q /\
  completed (run (applySync absent None) agentRateZero) = false /\
  completed (run (applySync zero None) agentRateZero) = false /\
  videoOps (outLog (run (applySync zero None) agentRateZero)) = [] /\
  (playbackRate <$> boundVideo (outAgent (run (applySync absent None) agentRateZero)))
    = Some 0%Q /\
  (playbackRate <$> boundVideo (outAgent (run (applySync zero None) agentRateZero)))
    = Some 0%Q /\
  ~ (0 == 1)%Q.
Proof.
  cbv zeta. repeat (split; [reflexivity|]). intros H. discriminate H.
Qed.

(** C6 as first stated fails on a playback rate of 0: the peer that holds
    {time = 42.3, playing = true, speed = 0} answers with exactly those
    values, but the peer that applies the response ends with rate 1. *)
Lemma C6_counterexample :
  let resp := syncResponse (423 # 10) 0 true in
  sentMessages (outLog (run (applySync syncRequest None) agentRateZero))
    = [("sync-response", resp)] /\
  speed resp = Some 0%Q /\
  exists v', boundVideo (outAgent (run (applySync resp None) agentAt10)) = Some v' /\
             playbackRate v' = 1%Q /\
             ~ (playbackRate v' == 0)%Q.
Proof.
  cbv zeta. split; [reflexivity|]. split; [reflexivity|].
  eexists. split; [reflexivity|]. split; [reflexivity|].
  intros H. discriminate H.
Qed.

Lemma C6_catch_up_roundtrip_witness :
  type syncRequest = "sync-request" /\
  type (syncResponse (423 # 10) (5 # 4) true) = "sync-response" /\
  time (syncResponse (423 # 10) (5 # 4) true) = Some (423 # 10)%Q /\
  available agentAt10 0 videoAt10 /\
  outAgent (run (applySync (syncResponse (423 # 10) (5 # 4) true) None)
             (outAgent (run (applySync (syncResponse (423 # 10) (5 # 4) true) None) agentAt10)))
  = outAgent (run (applySync (syncResponse (423 # 10) (5 # 4) true) None) agentAt10).
Proof.
  split; [reflexivity|].
  split; [reflexivity|].
  split; [reflexivity|].
  split; [exact available_agentAt10|].
  exact (proj2 (proj2 (proj2 (C6_catch_up_roundtrip syncRequest
           (syncResponse (423 # 10) (5 # 4) true) None agentAt10 0 videoAt10 (423 # 10)
           eq_refl eq_refl eq_refl available_agentAt10)))).
Defined.

End ContentProperties.

Section SessionCodeProperties.
Import Offscreen.

Lemma length_append (a b : string) :
  String.length (String.append a b) = (String.length a + String.length b)%nat.
Proof. induction a as [|c a IH]; simpl; [reflexivity | rewrite IH; reflexivity]. Qed.

Lemma list_ascii_append (a b : string) :
  list_ascii_of_string (String.append a b)
  = list_ascii_of_string a ++ list_ascii_of_string b.
Proof. induction a as [|c a IH]; simpl; [reflexivity | rewrite IH; reflexivity]. Qed.

Lemma get_some_lt (s : string) (n : nat) :
  (n < String.length s)%nat -> exists c, String.get n s = Some c.
Proof.
  revert n. induction s as [|c s IH]; intros n Hn; simpl in *; [lia|].
  destruct n as [|n]; [eauto|]. apply IH. lia.
Qed.

Lemma get_some_in (s : string) (n : nat) (c : ascii) :
  String.get n s = Some c -> In c (list_ascii_of_string s).
Proof.
  revert n. induction s as [|d s IH]; intros n H; simpl in *; [discriminate|].
  destruct n as [|n]; [left; congruence | right; eauto].
Qed.

(** A number in [0, 1) selects an index of the alphabet. *)
Lemma randomIndex_range (rnd : nat -> Q) (k : nat) :
  (0 <= rnd k)%Q -> (rnd k < 1)%Q ->
  (0 <= randomIndex rnd k < Z.of_nat (String.length chars))%Z.
Proof.
  intros H0 H1. unfold randomIndex.
  set (n := Z.of_nat (String.length chars)).
  assert (Hn : (0 < inject_Z n)%Q) by reflexivity.
  split.
  - change 0%Z with (Qfloor 0). apply Qfloor_resp_le.
    apply Qmult_le_0_compat; [exact H0 | apply Qlt_le_weak; exact Hn].
  - rewrite Zlt_Qlt. eapply Qle_lt_trans; [apply Qfloor_le|].
    apply Qlt_le_trans with (1 * inject_Z n)%Q.
    + apply Qmult_lt_r; assumption.
    + rewrite Qmult_1_l. apply Qle_refl.
Qed.

Lemma charAt_in_range (z : Z) :
  (0 <= z < Z.of_nat (String.length chars))%Z ->
  exists c, charAt chars z = String c "" /\ In c (list_ascii_of_string chars).
Proof.
  intros [H0 H1]. unfold charAt.
  destruct (z <? 0)%Z eqn:E; [apply Z.ltb_lt in E; lia|].
  destruct (get_some_lt chars (Z.to_nat z)) as [c Hc]; [lia|].
  rewrite Hc. exists c. split; [reflexivity|]. eapply get_some_in; eauto.
Qed.

Lemma codeLoop_spec (n : nat) (rnd : nat -> Q) (k : nat) (code : string) :
  (forall i, (0 <= rnd i)%Q /\ (rnd i < 1)%Q) ->
  String.length (codeLoop n rnd k code) = (String.length code + n)%nat /\
  forall c, In c (list_ascii_of_string (codeLoop n rnd k code)) ->
            In c (list_ascii_of_string code) \/ In c (list_ascii_of_string chars).
Proof.
  intros Hr. revert k code.
  induction n as [|n IH]; intros k code; simpl.
  - split; [lia | auto].
  - destruct (charAt_in_range (randomIndex rnd k)) as [c [Hc Hin]].
    { apply randomIndex_range; apply Hr. }
    rewrite Hc. destruct (IH (S k) (String.append code (String c ""))) as [Hlen Hmem].
    split.
    + rewrite Hlen, length_append. simpl. lia.
    + intros d Hd. apply Hmem in Hd. destruct Hd as [Hd | Hd]; [|auto].
      rewrite list_ascii_append in Hd. apply in_app_or in Hd.
      destruct Hd as [Hd | Hd]; [auto|]. simpl in Hd.
      destruct Hd as [<- | []]. auto.
Qed.

(** Length and alphabet of a generated code. *)
Lemma generated_code_in_alphabet (rnd : nat -> Q) (k : nat) :
  (forall i, (0 <= rnd i)%Q /\ (rnd i < 1)%Q) ->
  String.length (generateSessionCode rnd k) = 6%nat /\
  (forall c, In c (list_ascii_of_string (generateSessionCode rnd k)) ->
             In c (list_ascii_of_string chars)) /\ True.
Proof.
  intros Hr. destruct (codeLoop_spec 6 rnd k "" Hr) as [Hlen Hmem].
  split; [exact Hlen|]. split; [|exact I].
  intros c Hc. destruct (Hmem c Hc) as [[] | H]. exact H.
Qed.

(** C8 as first stated counts 33 symbols; the alphabet has 32. *)
Lemma C8_counterexample : String.length chars <> 33%nat.
Proof. intros H. discriminate H. Qed.

(** C8 (as amended). Whatever numbers in [0, 1) the random source yields,
    the generated session code has length 6 and each of its characters
    belongs to the alphabet ABCDEFGHJKLMNPQRSTUVWXYZ23456789, which has
    32 symbols and contains none of I, O, 0 and 1. *)
Theorem C8_session_code_alphabet (rnd : nat -> Q) (k : nat) :
  (forall i, (0 <= rnd i)%Q /\ (rnd i < 1)%Q) ->
  String.length (generateSessionCode rnd k) = 6%nat /\
  (forall c, In c (list_ascii_of_string (generateSessionCode rnd k)) ->
             In c (list_ascii_of_string chars)) /\
  chars = "ABCDEFGHJKLMNPQRSTUVWXYZ23456789" /\
  String.length chars = 32%nat /\
  (forall c, In c (list_ascii_of_string "IO01") ->
             ~ In c (list_ascii_of_string chars)).
Proof.
  intros Hr. destruct (codeLoop_spec 6 rnd k "" Hr) as [Hlen Hmem].
  split; [exact Hlen|]. split.
  - intros c Hc. destruct (Hmem c Hc) as [[] | H]. exact H.
  - split; [reflexivity|]. split; [reflexivity|].
    intros c Hc Hin. simpl in Hc.
    destruct Hc as [<- | [<- | [<- | [<- | []]]]];
      simpl in Hin; repeat (destruct Hin as [Hin | Hin]; [discriminate Hin|]);
      exact Hin.
Qed.

Lemma sevenths_range (i : nat) : (0 <= sevenths i)%Q /\ (sevenths i < 1)%Q.
Proof.
  unfold sevenths, Qle, Qlt. simpl.
  pose proof (Nat.mod_upper_bound i 7 ltac:(lia)). lia.
Qed.

Lemma C8_session_code_alphabet_witness :
  (forall i, (0 <= sevenths i)%Q /\ (sevenths i < 1)%Q) /\
  String.length (generateSessionCode sevenths 0) = 6%nat.
Proof.
  split; [exact sevenths_range|].
  exact (proj1 (C8_session_code_alphabet sevenths 0 sevenths_range)).
Defined.

Example generated_code : generateSessionCode sevenths 0 = "AEKPUY".
Proof. reflexivity. Qed.

End SessionCodeProperties.

Section SessionLifecycle.
Import Offscreen.

(** C3, when the leave-session request does not reach the manager.
    Where it does, leaveSession answers success in every state, leaves
    getStatus reporting connected = false and peerCount = 0, and does
    nothing when called again.  But when [sendToOffscreen] rejects, the
    catch branch of handleLeaveSession answers the UI with success and tears
    nothing down: the manager and the coordinator are as they were, and the
    next get-status round trip reports what the manager reported before, on
    a host of three guests connected = true and peerCount = 4. *)
Theorem C3_failed_leave_answers_success
    (m : Offscreen.State) (bg : Background.State) (msg : string) :
  let left := (leaveSession m).1.1 in
  ((leaveSession m).2 = RSuccess /\
   getStatus left = mkStatus false None false 0 /\
   leaveSession left = (left, [], RSuccess) /\
   (System.leave None (bg, m)).2 = [RSuccess] /\
   (System.status (System.leave None (bg, m)).1).2
     = [RStatus (mkStatus false None false 0)]) /\
  ((System.leave (Some msg) (bg, m)).2 = [RSuccess] /\
   (System.leave (Some msg) (bg, m)).1 = (bg, m) /\
   (System.status (System.leave (Some msg) (bg, m)).1).2 = [RStatus (getStatus m)] /\
   (System.status (System.leave (Some msg) (bg, hostState)).1).2
     = [RStatus (mkStatus true (Some "AAAAAA") true 4)]).
Proof.
  split.
  - destruct m as [[p|] conns code host lnks]; cbn; repeat split.
  - cbn. repeat split.
Qed.

(** C9. The 'error' handler of a link removes it from the Map and sends the
    coordinator nothing, so the coordinator's state (its peer count included)
    is what it was; the 'close' handler removes the link and sends a
    peer-left notification, which sets the coordinator's peer count to the
    new size of the Map plus one. *)
Theorem C9_error_removes_silently
    (c : DataConnection) (m : Offscreen.State) (bg : Background.State) (tab : bool) :
  let failed := onError c m in
  let closed := onClose c m in
  let rest := delete (conn_peer c) (connections m) in
  connections failed.1 = rest /\
  notices failed.2 = [] /\
  System.deliver failed.2 tab bg = bg /\
  connections closed.1 = rest /\
  notices closed.2 = [PeerLeft (conn_peer c) (count rest + 1)] /\
  Background.peerCount (System.deliver closed.2 tab bg) = (count rest + 1)%Z.
Proof. cbn. repeat split. Qed.

(** One call of createSession, up to the point where initPeer settles. *)
Lemma createSession_unfold fuel rnd init n s :
  createSession (S fuel) rnd init n s =
    let code := generateSessionCode rnd (6 * n) in
    let s3 := with_peer (Some (afterInit (Some (sessionCodeToPeerId code)) (init n)))
                (with_session (Some code) true (resetPeer s).1) in
    let e := (resetPeer s).2 ++ (initPeer (Some (sessionCodeToPeerId code)) (init n)
                                   (with_session (Some code) true (resetPeer s).1)).1.2 in
    if collision (init n)
    then match createSession fuel rnd init (S n) s3 with
         | Some (s', e', r) => Some (s', e ++ e', r)
         | None => None
         end
    else Some (s3, e, answer rnd n (init n)).
Proof.
  cbn [createSession]. destruct (resetPeer s) as [s1 e1]. cbv zeta.
  unfold collision, answer, rejection.
  destruct (init n) as [id | ty msg |]; cbn [initPeer fst snd].
  - reflexivity.
  - destruct (String.eqb (initErrorMessage ty msg) "Session code already in use");
      [|reflexivity].
    destruct (createSession fuel rnd init (S n) _) as [[[s' e'] r]|]; [|reflexivity].
    rewrite <- app_assoc. reflexivity.
  - reflexivity.
Qed.

(** As long as every attempt collides, no amount of fuel gets an answer. *)
Lemma createSession_all_collide rnd init :
  (forall j, collision (init j) = true) ->
  forall fuel n s, createSession fuel rnd init n s = None.
Proof.
  intros Hc. induction fuel as [|fuel IH]; intros n s; [reflexivity|].
  rewrite createSession_unfold. cbv zeta. rewrite Hc, IH. reflexivity.
Qed.

(** The first attempt that does not collide, [k] attempts after attempt
    [n], is the one createSession returns from; it takes [k + 1] calls. *)
Lemma createSession_first_settled rnd init :
  forall k n s fuel,
    (forall j, j < k -> collision (init (n + j)) = true) ->
    collision (init (n + k)) = false ->
    (k < fuel ->
     exists s' out,
       createSession fuel rnd init n s = Some (s', out, answer rnd (n + k) (init (n + k)))) /\
    (fuel <= k -> createSession fuel rnd init n s = None).
Proof.
  induction k as [|k IH]; intros n s fuel Hbefore Hk.
  - rewrite Nat.add_0_r in *. split.
    + intros Hf. destruct fuel as [|fuel]; [lia|].
      rewrite createSession_unfold. cbv zeta. rewrite Hk. eauto.
    + intros Hf. assert (fuel = 0) as -> by lia. reflexivity.
  - assert (Hn : collision (init n) = true).
    { specialize (Hbefore 0). rewrite Nat.add_0_r in Hbefore. apply Hbefore. lia. }
    destruct fuel as [|fuel]; [split; [lia | reflexivity]|].
    rewrite createSession_unfold. cbv zeta. rewrite Hn.
    set (s3 := with_peer _ _).
    destruct (IH (S n) s3 fuel) as [Hsome Hnone].
    { intros j Hj. replace (S n + j) with (n + S j) by lia. apply Hbefore. lia. }
    { replace (S n + k) with (n + S k) by lia. exact Hk. }
    split.
    + intros Hf. destruct Hsome as (s' & out & Heq); [lia|].
      rewrite Heq. replace (S n + k) with (n + S k) by lia. eauto.
    + intros Hf. rewrite Hnone by lia. reflexivity.
Qed.

(** C4 as first stated fails: when every attempt ends in an identity
    collision, no number of calls makes createSession return. *)
Lemma C4_counterexample :
  ~ exists fuel result,
      createSession fuel zeros alwaysCollide 0 initial = Some result.
Proof.
  intros (fuel & result & Hrun).
  rewrite (createSession_all_collide zeros alwaysCollide (fun _ => eq_refl)) in Hrun.
  discriminate Hrun.
Qed.

(** C4 (as amended). On an identity collision createSession draws a fresh
    code and tries again, with no bound on the number of attempts: if attempt
    [k] is the first that does not end in a collision, createSession returns
    the result of attempt [k] (success with that attempt's code, or the
    failure it ended in) after exactly [k + 1] calls. *)
Theorem C4_retries_until_no_collision
    (rnd : nat -> Q) (init : nat -> InitOutcome) (k fuel : nat) (s : Offscreen.State) :
  (forall j, j < k -> collision (init j) = true) ->
  collision (init k) = false ->
  (k < fuel ->
   exists s' out, createSession fuel rnd init 0 s = Some (s', out, answer rnd k (init k))) /\
  (fuel <= k -> createSession fuel rnd init 0 s = None).
Proof.
  intros Hbefore Hk.
  exact (createSession_first_settled rnd init k 0 s fuel Hbefore Hk).
Qed.

Lemma collideTwice_before (j : nat) : j < 2 -> collision (collideTwice j) = true.
Proof. intros H. destruct j as [|[|j]]; [reflexivity | reflexivity | lia]. Qed.

Lemma C4_retries_until_no_collision_witness :
  (forall j, j < 2 -> collision (collideTwice j) = true) /\
  collision (collideTwice 2) = false /\
  createSession 2 zeros collideTwice 0 initial = None /\
  exists s' out,
    createSession 3 zeros collideTwice 0 initial
    = Some (s', out, answer zeros 2 (collideTwice 2)).
Proof.
  split; [exact collideTwice_before|].
  split; [reflexivity|].
  split.
  - exact (proj2 (C4_retries_until_no_collision zeros collideTwice 2 2 initial
                     collideTwice_before eq_refl) (le_n 2)).
  - exact (proj1 (C4_retries_until_no_collision zeros collideTwice 2 3 initial
                     collideTwice_before eq_refl) (le_n 3)).
Defined.

(** C7, at the 15-second timeout of initPeer.  The attempt is rejected and
    createSession answers with the failure, but the peer object it created is
    left in place, not destroyed, with [sessionCode] and [isHost] set: nothing
    after [new Peer] closes or destroys anything, and getStatus then reports
    connected = true.  (The 10-second timeout of joinSession does call
    [conn.close()] on the pending link.) *)
Theorem C7_creation_timeout_leaves_peer (rnd : nat -> Q) (m : Offscreen.State) :
  let code := generateSessionCode rnd 0 in
  let id := sessionCodeToPeerId code in
  exists m',
    createSession 1 rnd neverAnswers 0 m
    = Some (m',
            (resetPeer m).2 ++ [NewPeer (Some id); SetTimer 15000],
            RFailure "Connection timeout - could not reach signaling server") /\
    peer m' = Some (mkPeer (Some id) false false) /\
    sessionCode m' = Some code /\
    isHost m' = true /\
    st_connected (getStatus m') = true /\
    forall code' id',
      (joinSession code' (InitOpen id') ConnectTimeout initial).1.2
      = [NewPeer None; SetTimer 15000; ClearTimer; ToBackground (PeerReady id');
         PeerConnect 0 (sessionCodeToPeerId (toUpperCase code')); SetTimer 10000;
         ConnClose 0].
Proof.
  cbv zeta. rewrite createSession_unfold. cbv zeta.
  change (collision (neverAnswers 0)) with false. cbv iota.
  eexists. split; [reflexivity|].
  repeat split.
Qed.

End SessionLifecycle.

Section ConnectionInvariant.
Import Offscreen.

Lemma resetPeer_consistent s : consistent s -> consistent (resetPeer s).1.
Proof.
  intros H. unfold resetPeer. destruct (peer s); [|exact H].
  intros id r Hl. cbn in Hl. rewrite lookup_empty in Hl. discriminate.
Qed.

Lemma createSession_consistent rnd init :
  forall fuel n s s' out r,
    consistent s -> createSession fuel rnd init n s = Some (s', out, r) ->
    consistent s'.
Proof.
  induction fuel as [|fuel IH]; intros n s s' out r Hs Hrun; [discriminate|].
  rewrite createSession_unfold in Hrun. cbv zeta in Hrun.
  pose proof (resetPeer_consistent s Hs) as H1.
  set (s3 := with_peer _ _) in Hrun.
  assert (H3 : consistent s3) by exact H1.
  destruct (collision (init n)).
  - destruct (createSession fuel rnd init (S n) s3) as [[[s'' e''] r'']|] eqn:E;
      [|discriminate].
    inversion Hrun; subst. eapply IH; eauto.
  - inversion Hrun; subst. exact H3.
Qed.

Lemma newRef_fresh s : links s !! newRef s = None.
Proof. apply not_elem_of_dom. unfold newRef. apply is_fresh. Qed.

Lemma setLink_fresh_consistent s c :
  consistent s -> consistent (setLink (newRef s) c s).
Proof.
  intros H id r Hl. cbn in *. specialize (H id r Hl).
  rewrite lookup_insert_ne; [exact H|].
  intros <-. rewrite newRef_fresh in H. discriminate.
Qed.

Lemma joinSession_consistent code init co s :
  consistent s -> consistent (joinSession code init co s).1.1.
Proof.
  intros Hs. unfold joinSession.
  pose proof (resetPeer_consistent s Hs) as H1.
  destruct (resetPeer s) as [s1 e1]. cbn in H1.
  destruct init as [id | ty msg |]; cbn; try exact H1.
  destruct co; cbn; try exact H1.
  apply (setLink_fresh_consistent
           (with_peer (Some (mkPeer None false false))
              (with_session (Some (toUpperCase code)) false s1))).
  exact H1.
Qed.

(** The invariant is kept by every handler. *)
Lemma dispatch_consistent e s s' out :
  consistent s -> dispatch e s = Some (s', out) -> consistent s'.
Proof.
  intros Hs Hd. destruct e; cbn in Hd.
  - (* connection *)
    destruct (peer s); [|discriminate]. inversion Hd; subst.
    apply setLink_fresh_consistent. exact Hs.
  - (* open *)
    destruct (links s !! r) as [[id st]|] eqn:El; [|discriminate].
    destruct st; try discriminate. inversion Hd; subst. clear Hd.
    intros id' r' Hl. cbn in *.
    destruct (decide (id = id')) as [<- | Hne].
    + rewrite lookup_insert_eq in Hl. inversion Hl; subst.
      apply lookup_insert_eq.
    + rewrite lookup_insert_ne in Hl by exact Hne.
      specialize (Hs id' r' Hl).
      rewrite lookup_insert_ne; [exact Hs|]. intros <-. congruence.
  - (* data *)
    destruct (links s !! r) as [[id st]|]; [|discriminate].
    destruct st; try discriminate. inversion Hd; subst. exact Hs.
  - (* close *)
    destruct (links s !! r) as [[id st]|] eqn:El; [|discriminate].
    destruct st; try discriminate. inversion Hd; subst. clear Hd.
    intros id' r' Hl. cbn in *.
    destruct (decide (id = id')) as [<- | Hne].
    + rewrite lookup_delete_eq in Hl. discriminate.
    + rewrite lookup_delete_ne in Hl by exact Hne.
      specialize (Hs id' r' Hl).
      rewrite lookup_insert_ne; [exact Hs|]. intros <-. congruence.
  - (* error *)
    destruct (links s !! r) as [c|]; [|discriminate]. inversion Hd; subst.
    intros id' r' Hl. cbn in *.
    destruct (decide (conn_peer c = id')) as [<- | Hne].
    + rewrite lookup_delete_eq in Hl. discriminate.
    + rewrite lookup_delete_ne in Hl by exact Hne. exact (Hs id' r' Hl).
  - destruct (peer s); [|discriminate]. inversion Hd; subst. exact Hs.
  - inversion Hd; subst. exact Hs.
  - destruct (peer s) as [p|]; [|discriminate].
    destruct (disconnected p && negb (destroyed p)); [|discriminate].
    inversion Hd; subst. exact Hs.
  - destruct (peer s); [|discriminate]. inversion Hd; subst. exact Hs.
  - (* create-session *)
    destruct (createSession fuel rnd init 0 s) as [[[s1 e1] r1]|] eqn:E; [|discriminate].
    inversion Hd; subst. eapply createSession_consistent; eauto.
  - (* join-session *)
    pose proof (joinSession_consistent code init co s Hs) as H.
    destruct (joinSession code init co s) as [[s1 e1] r1].
    inversion Hd; subst. exact H.
  - (* leave-session *)
    unfold leaveSession in Hd.
    destruct (peer s); inversion Hd; subst;
      intros id r Hl; cbn in Hl; rewrite lookup_empty in Hl; discriminate.
  - inversion Hd; subst. exact Hs.
  - inversion Hd; subst. exact Hs.
  - inversion Hd; subst. exact Hs.
Qed.

Lemma reachable_consistent s : reachable s -> consistent s.
Proof.
  induction 1 as [|s e s' out _ IH Hd].
  - intros id r Hl. cbn in Hl. rewrite lookup_empty in Hl. discriminate.
  - eapply dispatch_consistent; eauto.
Qed.

Lemma runEvents_reachable es :
  forall s s', reachable s -> runEvents es s = Some s' -> reachable s'.
Proof.
  induction es as [|e es IH]; intros s s' Hs Hrun; cbn in Hrun.
  - inversion Hrun; subst. exact Hs.
  - destruct (dispatch e s) as [[s1 out]|] eqn:E; [|discriminate].
    eapply IH; [|exact Hrun]. eapply reachable_step; eauto.
Qed.

Lemma notices_app a b : notices (a ++ b) = notices a ++ notices b.
Proof.
  induction a as [|[] a IH]; cbn; try exact IH; [reflexivity|].
  rewrite IH. reflexivity.
Qed.

Lemma uncounted_app a b : uncounted a -> uncounted b -> uncounted (a ++ b).
Proof.
  intros Ha Hb msg Hin. rewrite notices_app in Hin.
  apply in_app_or in Hin. destruct Hin; auto.
Qed.

Lemma resetPeer_uncounted s : uncounted (resetPeer s).2.
Proof. unfold resetPeer. destruct (peer s); intros msg []. Qed.

Lemma initPeer_uncounted id o s : uncounted (initPeer id o s).1.2.
Proof.
  destruct o as [pid | ty emsg |]; intros m Hin; cbn in Hin;
    repeat (destruct Hin as [<- | Hin]; [reflexivity|]); destruct Hin.
Qed.

Lemma createSession_uncounted rnd init :
  forall fuel n s s' out r,
    createSession fuel rnd init n s = Some (s', out, r) -> uncounted out.
Proof.
  induction fuel as [|fuel IH]; intros n s s' out r Hrun; [discriminate|].
  rewrite createSession_unfold in Hrun. cbv zeta in Hrun.
  set (s3 := with_peer _ _) in Hrun.
  assert (He : uncounted ((resetPeer s).2 ++
                (initPeer (Some (sessionCodeToPeerId (generateSessionCode rnd (6 * n))))
                   (init n)
                   (with_session (Some (generateSessionCode rnd (6 * n))) true
                      (resetPeer s).1)).1.2)).
  { apply uncounted_app; [apply resetPeer_uncounted | apply initPeer_uncounted]. }
  destruct (collision (init n)).
  - destruct (createSession fuel rnd init (S n) s3) as [[[s'' e''] r'']|] eqn:E;
      [|discriminate].
    inversion Hrun; subst. apply uncounted_app; [exact He | eapply IH; eauto].
  - inversion Hrun; subst. exact He.
Qed.

Lemma joinSession_uncounted code init co s :
  uncounted (joinSession code init co s).1.2.
Proof.
  unfold joinSession. pose proof (resetPeer_uncounted s) as H1.
  destruct (resetPeer s) as [s1 e1]. cbn in H1.
  destruct init as [id | ty emsg |]; cbn.
  - destruct co; cbn; apply uncounted_app; try exact H1;
      intros m Hin; cbn in Hin;
      repeat (destruct Hin as [<- | Hin]; [reflexivity|]); destruct Hin.
  - apply uncounted_app; [exact H1|]. intros m [].
  - apply uncounted_app; [exact H1|]. intros m [].
Qed.

Lemma broadcast_uncounted data s : uncounted (broadcast data s).
Proof.
  unfold broadcast, uncounted.
  induction (List.filter _ _) as [|kv l IH]; cbn; [intros msg []|exact IH].
Qed.

Lemma relay_uncounted (data : SyncData) (l : list (string * nat)) :
  uncounted ((fun kv => ConnSend kv.2 data) <$> l).
Proof. unfold uncounted. induction l as [|kv l IH]; cbn; [intros msg []|exact IH]. Qed.

(** Every peer-joined and peer-left notification carries the size of the
    Map after the handler, plus one. *)
Lemma dispatch_notice_count e s s' out msg n :
  dispatch e s = Some (s', out) ->
  In msg (notices out) -> noticeCount msg = Some n ->
  n = (count (connections s') + 1)%Z.
Proof.
  intros Hd Hin Hn.
  assert (Hun : uncounted out -> False).
  { intros Hu. rewrite (Hu msg Hin) in Hn. discriminate. }
  destruct e; cbn in Hd.
  - destruct (peer s); [|discriminate]. injection Hd as <- <-. destruct Hin.
  - destruct (links s !! r) as [[id st]|]; [|discriminate].
    destruct st; try discriminate. injection Hd as <- <-.
    cbn in Hin. destruct Hin as [<- | []]. injection Hn as <-. reflexivity.
  - destruct (links s !! r) as [[id st]|]; [|discriminate].
    destruct st; try discriminate. injection Hd as <- <-. exfalso. apply Hun.
    apply (uncounted_app [_]); [intros m [<- | []]; reflexivity|].
    destruct (isHost s && _); [apply relay_uncounted | intros m []].
  - destruct (links s !! r) as [[id st]|]; [|discriminate].
    destruct st; try discriminate. injection Hd as <- <-.
    cbn in Hin. destruct Hin as [<- | []]. injection Hn as <-. reflexivity.
  - destruct (links s !! r); [|discriminate]. injection Hd as <- <-. destruct Hin.
  - destruct (peer s); [|discriminate]. injection Hd as <- <-.
    cbn in Hin. destruct Hin as [<- | []]. discriminate.
  - injection Hd as <- <-. exfalso. apply Hun.
    destruct (peer s) as [p|]; [destruct (destroyed p)|]; intros m [].
  - destruct (peer s) as [p|]; [|discriminate].
    destruct (disconnected p && negb (destroyed p)); [|discriminate].
    injection Hd as <- <-. cbn in Hin. destruct Hin as [<- | []]. discriminate.
  - destruct (peer s); [|discriminate]. injection Hd as <- <-.
    cbn in Hin. destruct Hin as [<- | []]. discriminate.
  - destruct (createSession fuel rnd init 0 s) as [[[s1 e1] r1]|] eqn:E; [|discriminate].
    injection Hd as <- <-. exfalso. apply Hun.
    apply uncounted_app; [eapply createSession_uncounted; eauto | intros m []].
  - pose proof (joinSession_uncounted code init co s) as H.
    destruct (joinSession code init co s) as [[s1 e1] r1].
    injection Hd as <- <-. exfalso. apply Hun.
    apply uncounted_app; [exact H | intros m []].
  - unfold leaveSession in Hd. exfalso. apply Hun.
    destruct (peer s); injection Hd as <- <-; intros m [].
  - injection Hd as <- <-. destruct Hin.
  - injection Hd as <- <-. exfalso. apply Hun.
    apply uncounted_app; [apply broadcast_uncounted | intros m []].
  - injection Hd as <- <-. destruct Hin.
Qed.

Lemma sends_relay (data : SyncData) (l : list (string * nat)) :
  sends ((fun kv => ConnSend kv.2 data) <$> l) = (fun kv => (kv.2, data)) <$> l.
Proof. induction l as [|kv l IH]; cbn; [reflexivity | rewrite IH; reflexivity]. Qed.

Lemma relayTargets_spec from s id r :
  In (id, r) (relayTargets from s) <->
  connections s !! id = Some r /\ id <> from /\ link_open s r = true.
Proof.
  unfold relayTargets. rewrite filter_In, <- list_elem_of_In, elem_of_map_to_list.
  cbn. rewrite andb_true_iff, negb_true_iff, String.eqb_neq. tauto.
Qed.

Lemma hostState_runs : runEvents hostWithThree initial = Some hostState.
Proof. vm_compute. reflexivity. Qed.

Lemma hostState_reachable : reachable hostState.
Proof.
  exact (runEvents_reachable hostWithThree initial hostState
           reachable_initial hostState_runs).
Qed.

(** On a host whose Map holds more than one link, when [data] arrives on
    the open link [r] of peer [id], the data handler sends [data], as it is,
    on every open link the Map holds under another peer's id, and sends
    nothing else: in particular nothing goes out on [r] or under [id]. *)
Theorem relay_follows_the_map
    (s : Offscreen.State) (r : nat) (id : string) (data : SyncData) :
  reachable s ->
  links s !! r = Some (mkConn id Open) ->
  isHost s = true ->
  1 < size (connections s) ->
  exists out,
    dispatch (EvData r data) s = Some (s, out) /\
    notices out = [PeerData data id] /\
    (forall id' r',
       connections s !! id' = Some r' -> link_open s r' = true -> id' <> id ->
       In (r', data) (sends out)) /\
    (forall r' d,
       In (r', d) (sends out) ->
       d = data /\ r' <> r /\
       exists id', id' <> id /\ connections s !! id' = Some r' /\ link_open s r' = true).
Proof.
  intros Hr Hl Hhost Hmany. pose proof (reachable_consistent s Hr) as Hs.
  cbn. rewrite Hl. unfold onData. rewrite Hhost.
  replace (1 <? size (connections s))%nat with true
    by (symmetry; apply Nat.ltb_lt; exact Hmany).
  cbn. eexists. split; [reflexivity|]. cbn. rewrite sends_relay. split.
  - clear. induction (relayTargets id s) as [|kv l IH]; cbn; [reflexivity | exact IH].
  - split.
    + intros id' r' Hm Ho Hne. apply in_map_iff. exists (id', r').
      split; [reflexivity|]. apply relayTargets_spec. auto.
    + intros r' d Hin. apply in_map_iff in Hin.
      destruct Hin as [[id' r''] [Heq Hin]]. cbn in Heq.
      injection Heq as -> <-. apply relayTargets_spec in Hin.
      destruct Hin as (Hm & Hne & Ho).
      split; [reflexivity|]. split; [|eauto].
      intros ->. rewrite (Hs id' r Hm) in Hl. congruence.
Qed.

Lemma relay_follows_the_map_witness :
  reachable hostState /\
  links hostState !! 1 = Some (mkConn "bob" Open) /\
  isHost hostState = true /\
  1 < size (connections hostState) /\
  exists out,
    dispatch (EvData 1 (blankData "seek")) hostState = Some (hostState, out) /\
    (forall r' d, In (r', d) (sends out) -> r' <> 1).
Proof.
  assert (Hmany : 1 < size (connections hostState)) by (vm_compute; lia).
  split; [exact hostState_reachable|].
  split; [reflexivity|].
  split; [reflexivity|].
  split; [exact Hmany|].
  destruct (relay_follows_the_map hostState 1 "bob" (blankData "seek")
              hostState_reachable eq_refl eq_refl Hmany)
    as (out & Hd & _ & _ & Hback).
  exists out. split; [exact Hd|].
  intros r' d Hin. exact (proj1 (proj2 (Hback r' d Hin))).
Defined.

(** C2, on a host one of whose guests has connected a second time and whose
    first link has then closed.  The host holds two open links, bob's and
    the second of alice, but the close handler has deleted alice's entry
    from the Map, which now has the single entry of bob.  When [data]
    arrives on bob's link the coordinator is notified and nothing is
    relayed: [connections.size > 1] fails, and alice's open link gets
    nothing. *)
Theorem C2_open_link_outside_map_gets_no_relay (data : SyncData) :
  reachable Lifecycle.orphanedState /\
  isHost Lifecycle.orphanedState = true /\
  openHeld Lifecycle.orphanedState
    = {[ 1 := mkConn "bob" Open; 2 := mkConn "alice" Open ]} /\
  size (openHeld Lifecycle.orphanedState) = 2 /\
  connections Lifecycle.orphanedState = {[ "bob" := 1 ]} /\
  dispatch (EvData 1 data) Lifecycle.orphanedState
    = Some (Lifecycle.orphanedState, [ToBackground (PeerData data "bob")]).
Proof.
  split.
  { apply (runEvents_reachable
             (Lifecycle.reconnectingGuest ++ [EvClose 0]) initial);
      [exact reachable_initial | vm_compute; reflexivity]. }
  split; [reflexivity|].
  split; [vm_compute; reflexivity|].
  split; [vm_compute; reflexivity|].
  split; [vm_compute; reflexivity|].
  reflexivity.
Qed.

Example relay_from_bob :
  (fun o => sends o.2) <$> dispatch (EvData 1 (blankData "seek")) hostState
  = Some [(2, blankData "seek"); (0, blankData "seek")].
Proof. vm_compute. reflexivity. Qed.

Example host_status : getStatus hostState = mkStatus true (Some "AAAAAA") true 4.
Proof. vm_compute. reflexivity. Qed.

(** A guest after a successful join: its link to the host is open and has
    the handlers of setupConnection, but is not in the Map, so the status
    counts the guest alone. *)
Example guest_after_join :
  let joined := (joinSession "k7pq4r" (InitOpen "anonymous") ConnectOpen initial).1.1 in
  links joined !! 0 = Some (mkConn "videosync-K7PQ4R" Open) /\
  connections joined = ∅ /\
  getStatus joined = mkStatus true (Some "K7PQ4R") false 1.
Proof. vm_compute. repeat split. Qed.

End ConnectionInvariant.

Section ManagerLifecycle.
Import Offscreen Lifecycle.

(** Whatever the transport does to a peer, its identity stays. *)
Lemma afterInit_id (peerId : option string) (o : InitOutcome) :
  peer_id (afterInit peerId o) = peerId.
Proof. destruct o as [id | ty msg |]; cbn; [|destruct (errorFate ty)|]; reflexivity. Qed.

(** Where createSession returns, it returns from some attempt [k] that did
    not collide, with the state that attempt built. *)
Lemma createSession_state rnd init :
  forall fuel n s s' out r,
    createSession fuel rnd init n s = Some (s', out, r) ->
    exists k,
      n <= k /\ collision (init k) = false /\
      r = answer rnd k (init k) /\
      sessionCode s' = Some (codeOfAttempt rnd k) /\
      isHost s' = true /\
      peer s' = Some (afterInit (Some (sessionCodeToPeerId (codeOfAttempt rnd k))) (init k)) /\
      (connections s' = ∅ \/ (peer s = None /\ connections s' = connections s)).
Proof.
  induction fuel as [|fuel IH]; intros n s s' out r Hrun; [discriminate|].
  rewrite createSession_unfold in Hrun. cbv zeta in Hrun.
  set (s3 := with_peer _ _) in Hrun.
  assert (Hc3 : connections s3 = ∅ \/ (peer s = None /\ connections s3 = connections s)).
  { subst s3. unfold resetPeer. destruct (peer s); cbn; auto. }
  destruct (collision (init n)) eqn:Ecol.
  - destruct (createSession fuel rnd init (S n) s3) as [[[s'' e''] r'']|] eqn:E;
      [|discriminate].
    inversion Hrun; subst s'' r''. clear Hrun.
    destruct (IH _ _ _ _ _ E) as (k & Hk & Hnc & Hr & Hcode & Hhost & Hpeer & Hconn).
    exists k. repeat split; try assumption; [lia|].
    left. destruct Hconn as [H | [H _]]; [exact H | subst s3; cbn in H; discriminate H].
  - inversion Hrun; subst. exists n. repeat split; auto.
Qed.

Lemma allClosed_destroy p s : allClosed (destroyPeer p s).
Proof.
  intros r c Hl. cbn in Hl. rewrite lookup_fmap in Hl.
  destruct (links s !! r); inversion Hl; reflexivity.
Qed.

(** Every handler keeps: no peer, nothing held. *)
Lemma dispatch_peerless e s s' out :
  peerless s -> dispatch e s = Some (s', out) -> peerless s'.
Proof.
  intros Hs Hd. unfold peerless in *. destruct e; cbn in Hd.
  - destruct (peer s) eqn:Ep; [|discriminate]. injection Hd as <- <-. cbn. intros Hp. congruence.
  - destruct (links s !! r) as [[id st]|] eqn:El; [|discriminate].
    destruct st; try discriminate. injection Hd as <- <-. cbn. intros Hp.
    destruct (Hs Hp) as [_ Hcl]. specialize (Hcl r _ El). discriminate Hcl.
  - destruct (links s !! r) as [[id st]|]; [|discriminate].
    destruct st; try discriminate. injection Hd as <- <-. exact Hs.
  - destruct (links s !! r) as [[id st]|] eqn:El; [|discriminate].
    destruct st; try discriminate. injection Hd as <- <-. cbn. intros Hp.
    destruct (Hs Hp) as [_ Hcl]. specialize (Hcl r _ El). discriminate Hcl.
  - destruct (links s !! r) as [c|]; [|discriminate]. injection Hd as <- <-.
    cbn. intros Hp. destruct (Hs Hp) as [Hm Hcl]. split; [|exact Hcl].
    rewrite Hm. apply delete_empty.
  - destruct (peer s) eqn:Ep; [|discriminate]. injection Hd as <- <-. cbn. intros Hp. congruence.
  - injection Hd as <- <-. exact Hs.
  - destruct (peer s) as [p|] eqn:Ep; [|discriminate].
    destruct (disconnected p && negb (destroyed p)); [|discriminate].
    injection Hd as <- <-. cbn. intros Hp. congruence.
  - destruct (peer s) eqn:Ep; [|discriminate]. injection Hd as <- <-. cbn. intros Hp. congruence.
  - destruct (createSession fuel rnd init 0 s) as [[[s1 e1] r1]|] eqn:E; [|discriminate].
    injection Hd as <- <-.
    destruct (createSession_state _ _ _ _ _ _ _ _ E) as (k & _ & _ & _ & _ & _ & Hp & _).
    intros Hn. rewrite Hp in Hn. discriminate Hn.
  - unfold joinSession in Hd. destruct (resetPeer s) as [s1 e1].
    destruct init as [id | ty emsg |]; cbn in Hd;
      [destruct co|..]; injection Hd as <- <-; cbn; intros Hp; discriminate Hp.
  - unfold leaveSession in Hd. destruct (peer s) as [p|] eqn:Ep.
    + injection Hd as <- <-. cbn. intros _. split; [reflexivity|].
      apply (allClosed_destroy p s).
    + injection Hd as <- <-. cbn. intros _. split; [reflexivity|].
      exact (proj2 (Hs eq_refl)).
  - injection Hd as <- <-. exact Hs.
  - injection Hd as <- <-. exact Hs.
  - injection Hd as <- <-. exact Hs.
Qed.

Lemma reachable_peerless s : reachable s -> peerless s.
Proof.
  induction 1 as [|s e s' out _ IH Hd].
  - intros _. split; [reflexivity|]. intros r c Hl. cbn in Hl.
    rewrite lookup_empty in Hl. discriminate.
  - eapply dispatch_peerless; eauto.
Qed.

(** However createSession ends, in a reachable state it leaves an empty Map
    and the peer of the attempt it returned from, under the identity derived
    from that attempt's code, with [sessionCode] and [isHost] set as for a
    host of that code.  After a success or the 15-second timeout that peer is
    untouched and getStatus reports a connected host of one.  After an error
    the transport has dealt with the peer: getStatus reports connected =
    false with one participant when it disconnected the peer and with none
    when it destroyed it, still under the code and as host.  A success
    answers with the code of that attempt. *)
Theorem createSession_leaves_last_attempt
    (s s' : Offscreen.State) (fuel : nat) (rnd : nat -> Q)
    (init : nat -> InitOutcome) (out : list Offscreen.Effect) (r : Response) :
  reachable s ->
  createSession fuel rnd init 0 s = Some (s', out, r) ->
  exists k,
    let code := codeOfAttempt rnd k in
    r = answer rnd k (init k) /\
    connections s' = ∅ /\
    peer s' = Some (afterInit (Some (sessionCodeToPeerId code)) (init k)) /\
    st_sessionCode (getStatus s') = Some code /\
    st_isHost (getStatus s') = true /\
    (rejection (init k) = None \/ init k = InitTimeout ->
       getStatus s' = mkStatus true (Some code) true 1) /\
    (forall ty msg, init k = InitError ty msg ->
       getStatus s' = match errorFate ty with
                      | Survives => mkStatus true (Some code) true 1
                      | Disconnects => mkStatus false (Some code) true 1
                      | Destroys => mkStatus false (Some code) true 0
                      end) /\
    (forall c host, r = RSession c host -> c = Some code /\ host = true).
Proof.
  intros Hr Hrun.
  destruct (createSession_state _ _ _ _ _ _ _ _ Hrun)
    as (k & _ & _ & Hans & Hcode & Hhost & Hpeer & Hconn).
  assert (Hempty : connections s' = ∅).
  { destruct Hconn as [H | [Hp H]]; [exact H|].
    rewrite H. exact (proj1 (reachable_peerless s Hr Hp)). }
  exists k. cbv zeta. split; [exact Hans|]. split; [exact Hempty|].
  split; [exact Hpeer|]. split; [exact Hcode|]. split; [exact Hhost|].
  split; [|split].
  - intros Hok. unfold getStatus. rewrite Hpeer, Hcode, Hhost, Hempty.
    destruct Hok as [Hok | Hok].
    + destruct (init k); [reflexivity | discriminate Hok | reflexivity].
    + rewrite Hok. reflexivity.
  - intros ty msg Hk. unfold getStatus. rewrite Hpeer, Hcode, Hhost, Hempty, Hk.
    cbn [afterInit]. destruct (errorFate ty); reflexivity.
  - intros c host Heq. rewrite Hans in Heq. unfold answer in Heq.
    destruct (rejection (init k)); [discriminate|].
    injection Heq as <- <-. split; reflexivity.
Qed.

Lemma createSession_leaves_last_attempt_witness :
  reachable hostState /\
  (exists s' out,
     createSession 1 zeros (fun _ => InitError "server-error" None) 0 hostState
     = Some (s', out, RFailure "Server error - try again") /\
     getStatus s' = mkStatus false (Some "AAAAAA") true 0).
Proof.
  split; [exact hostState_reachable|].
  destruct (createSession 1 zeros (fun _ => InitError "server-error" None) 0 hostState)
    as [[[s' out] r]|] eqn:E; [|vm_compute in E; discriminate E].
  destruct (createSession_leaves_last_attempt hostState s' 1 zeros
              (fun _ => InitError "server-error" None) out r
              hostState_reachable E) as (k & _ & _ & _ & _ & _ & _ & Hst & _).
  assert (Hr : r = RFailure "Server error - try again").
  { vm_compute in E. injection E as _ _ <-. reflexivity. }
  assert (Hk : codeOfAttempt zeros k = "AAAAAA").
  { clear. unfold codeOfAttempt. generalize (6 * k). intros n. reflexivity. }
  exists s', out. rewrite Hr. split; [reflexivity|].
  rewrite (Hst "server-error" None eq_refl), Hk. reflexivity.
Defined.

Lemma upperAscii_idem (c : ascii) : upperAscii (upperAscii c) = upperAscii c.
Proof.
  destruct c as [b0 b1 b2 b3 b4 b5 b6 b7].
  destruct b0, b1, b2, b3, b4, b5, b6, b7; reflexivity.
Qed.

Lemma toUpperCase_idem (code : string) :
  toUpperCase (toUpperCase code) = toUpperCase code.
Proof.
  induction code as [|c code IH]; cbn; [reflexivity|].
  rewrite upperAscii_idem, IH. reflexivity.
Qed.

(** The letters and digits of the alphabet are their own upper case. *)
Lemma upperAscii_alphabet (c : ascii) :
  In c (list_ascii_of_string chars) -> upperAscii c = c.
Proof.
  intros Hin. cbn in Hin.
  repeat (destruct Hin as [<- | Hin]; [reflexivity|]). destruct Hin.
Qed.

Lemma toUpperCase_fixed (code : string) :
  (forall c, In c (list_ascii_of_string code) -> In c (list_ascii_of_string chars)) ->
  toUpperCase code = code.
Proof.
  induction code as [|c code IH]; intros Hall; cbn; [reflexivity|].
  rewrite (upperAscii_alphabet c) by (apply Hall; left; reflexivity).
  rewrite IH; [reflexivity|]. intros d Hd. apply Hall. right. exact Hd.
Qed.

(** The code of a character after [toUpperCase]. *)
Lemma upperAscii_code (c : ascii) :
  nat_of_ascii (upperAscii c)
  = if ((97 <=? nat_of_ascii c) && (nat_of_ascii c <=? 122))%nat
    then nat_of_ascii c - 32 else nat_of_ascii c.
Proof.
  unfold upperAscii. destruct ((97 <=? nat_of_ascii c) && (nat_of_ascii c <=? 122))%nat eqn:E;
    [|reflexivity].
  apply nat_ascii_embedding. pose proof (nat_ascii_bounded c). lia.
Qed.

Lemma nat_of_ascii_inj (c d : ascii) : nat_of_ascii c = nat_of_ascii d -> c = d.
Proof.
  intros H. rewrite <- (ascii_nat_embedding c), <- (ascii_nat_embedding d), H.
  reflexivity.
Qed.

(** [toUpperCase] identifies two characters exactly when they differ at
    most in letter case. *)
Lemma upperAscii_sameLetter (c d : ascii) :
  upperAscii c = upperAscii d <-> sameLetter c d = true.
Proof.
  split.
  - intros H. apply (f_equal nat_of_ascii) in H. rewrite !upperAscii_code in H.
    unfold sameLetter. cbv zeta.
    destruct (Nat.leb_spec 97 (nat_of_ascii c)), (Nat.leb_spec (nat_of_ascii c) 122),
             (Nat.leb_spec 97 (nat_of_ascii d)), (Nat.leb_spec (nat_of_ascii d) 122);
      cbn [andb orb] in *;
      repeat match goal with
             | |- context [Nat.eqb ?x ?y] => destruct (Nat.eqb_spec x y)
             end; cbn [andb orb]; try reflexivity; lia.
  - intros H. apply nat_of_ascii_inj. rewrite !upperAscii_code.
    unfold sameLetter in H. cbv zeta in H.
    destruct (Nat.leb_spec 97 (nat_of_ascii c)), (Nat.leb_spec (nat_of_ascii c) 122),
             (Nat.leb_spec 97 (nat_of_ascii d)), (Nat.leb_spec (nat_of_ascii d) 122);
      cbn [andb orb] in *;
      repeat match type of H with
             | context [Nat.eqb ?x ?y] => destruct (Nat.eqb_spec x y)
             end; cbn [andb orb] in H; try discriminate H; lia.
Qed.

Lemma toUpperCase_sameUpToCase (a b : string) :
  toUpperCase a = toUpperCase b <-> sameUpToCase a b = true.
Proof.
  revert b. induction a as [|c a IH]; intros [|d b]; cbn;
    try (split; [discriminate | discriminate]); [tauto|].
  rewrite andb_true_iff, <- IH, <- upperAscii_sameLetter. split.
  - intros H. injection H as H1 H2. auto.
  - intros [-> ->]. reflexivity.
Qed.

(** The identity derived from a session code ignores the case of its
    letters and nothing else: two codes of ASCII characters give the same
    identity exactly when they have the same length and differ at most in
    the case of their letters; so a code and its upper case give the same
    identity, while codes that differ in a digit, or in a letter other than
    by its case, give different ones. *)
Theorem peer_id_ignores_case_only (a b : string) :
  asciiOnly a = true -> asciiOnly b = true ->
  (sessionCodeToPeerId a = sessionCodeToPeerId b <-> sameUpToCase a b = true) /\
  sessionCodeToPeerId (toUpperCase a) = sessionCodeToPeerId a.
Proof.
  intros _ _. split.
  - rewrite <- toUpperCase_sameUpToCase. unfold sessionCodeToPeerId. split.
    + intros H. cbn in H. injection H as H. exact H.
    + intros ->. reflexivity.
  - unfold sessionCodeToPeerId. rewrite toUpperCase_idem. reflexivity.
Qed.

Lemma peer_id_ignores_case_only_witness :
  asciiOnly "k7pq4r" = true /\ asciiOnly "K7Pq4R" = true /\ asciiOnly "k7pq4s" = true /\
  sessionCodeToPeerId "k7pq4r" = sessionCodeToPeerId "K7Pq4R" /\
  sessionCodeToPeerId "k7pq4r" <> sessionCodeToPeerId "k7pq4s" /\
  sessionCodeToPeerId "k7pq4r" <> sessionCodeToPeerId "k7pq4".
Proof.
  split; [reflexivity|]. split; [reflexivity|]. split; [reflexivity|].
  split; [|split].
  - exact (proj2 (proj1 (peer_id_ignores_case_only "k7pq4r" "K7Pq4R" eq_refl eq_refl))
             eq_refl).
  - intros H.
    pose proof (proj1 (proj1 (peer_id_ignores_case_only "k7pq4r" "k7pq4s" eq_refl eq_refl))
                  H) as Hs.
    discriminate Hs.
  - intros H.
    pose proof (proj1 (proj1 (peer_id_ignores_case_only "k7pq4r" "k7pq4" eq_refl eq_refl))
                  H) as Hs.
    discriminate Hs.
Defined.

(** A host and a guest meet: when createSession succeeds with a code, the
    host's peer carries the identity [videosync-<code>], and a joinSession
    with that code typed in any letter case, once its own peer is open,
    connects to exactly that identity. *)
Theorem guest_connects_to_host_identity
    (sh sh' sg : Offscreen.State) (fuel : nat) (rnd : nat -> Q)
    (init : nat -> InitOutcome) (out : list Offscreen.Effect)
    (code typed anon : string) (host : bool) (co : ConnectOutcome) :
  (forall i, (0 <= rnd i)%Q /\ (rnd i < 1)%Q) ->
  createSession fuel rnd init 0 sh = Some (sh', out, RSession (Some code) host) ->
  toUpperCase typed = code ->
  let hostId := String.append "videosync-" code in
  (peer_id <$> peer sh') = Some (Some hostId) /\
  exists r, In (PeerConnect r hostId) (joinSession typed (InitOpen anon) co sg).1.2.
Proof.
  intros Hrnd Hrun Htyped. cbv zeta.
  destruct (createSession_state _ _ _ _ _ _ _ _ Hrun)
    as (k & _ & _ & Hans & _ & _ & Hpeer & _).
  assert (Hk : code = codeOfAttempt rnd k).
  { unfold answer in Hans. destruct (rejection (init k)); [discriminate Hans|].
    injection Hans as Hk _. exact Hk. }
  assert (Hfix : toUpperCase code = code).
  { rewrite Hk. apply toUpperCase_fixed. unfold codeOfAttempt.
    exact (proj1 (proj2 (generated_code_in_alphabet rnd (6 * k) Hrnd))). }
  split.
  - rewrite Hpeer, <- Hk. unfold sessionCodeToPeerId.
    rewrite Hfix. cbn. rewrite afterInit_id. reflexivity.
  - unfold joinSession, sessionCodeToPeerId. rewrite Htyped, Hfix.
    destruct (resetPeer sg) as [s1 e1]. eexists.
    destruct co; cbn; apply in_or_app; right; do 4 right; left; reflexivity.
Qed.

Lemma guest_connects_to_host_identity_witness :
  (forall i, (0 <= sevenths i)%Q /\ (sevenths i < 1)%Q) /\
  toUpperCase "aekpuy" = "AEKPUY" /\
  exists r,
    In (PeerConnect r "videosync-AEKPUY")
       (joinSession "aekpuy" (InitOpen "anonymous") ConnectOpen hostState).1.2.
Proof.
  split; [exact sevenths_range|].
  split; [reflexivity|].
  destruct (createSession 1 sevenths (fun _ => InitOpen "videosync-AEKPUY") 0 initial)
    as [[[sh' out] r]|] eqn:E; [|vm_compute in E; discriminate E].
  assert (Hr : r = RSession (Some "AEKPUY") true).
  { vm_compute in E. injection E as _ _ <-. reflexivity. }
  rewrite Hr in E.
  exact (proj2 (guest_connects_to_host_identity initial sh' hostState 1 sevenths
                  (fun _ => InitOpen "videosync-AEKPUY") out "AEKPUY" "aekpuy"
                  "anonymous" true ConnectOpen
                  sevenths_range E eq_refl)).
Defined.

Lemma filter_NoDup {A} (f : A -> bool) (l : list A) :
  NoDup l -> NoDup (List.filter f l).
Proof.
  induction 1 as [|x l Hx Hl IH]; cbn; [constructor|].
  destruct (f x); [|exact IH]. constructor; [|exact IH].
  rewrite list_elem_of_In, filter_In, <- list_elem_of_In. tauto.
Qed.

(** Under the invariant, distinct entries of the Map hold distinct links. *)
Lemma consistent_refs_inj s (kv1 kv2 : string * nat) :
  consistent s ->
  kv1 ∈ map_to_list (connections s) -> kv2 ∈ map_to_list (connections s) ->
  kv1.2 = kv2.2 -> kv1 = kv2.
Proof.
  intros Hs H1 H2 Heq. destruct kv1 as [id1 r1], kv2 as [id2 r2].
  cbn in Heq. subst r2.
  apply elem_of_map_to_list in H1, H2.
  pose proof (Hs _ _ H1) as L1. pose proof (Hs _ _ H2) as L2.
  rewrite L1 in L2. injection L2 as ->. reflexivity.
Qed.

Lemma sends_fmap (data : SyncData) (l : list (string * nat)) :
  sends ((fun kv => ConnSend kv.2 data) <$> l) = (fun kv => (kv.2, data)) <$> l.
Proof. induction l as [|kv l IH]; cbn; [reflexivity | rewrite IH; reflexivity]. Qed.

Lemma broadcast_targets_consistent s :
  consistent s ->
  List.filter (fun kv => link_open s kv.2) (map_to_list (connections s))
  = map_to_list (connections s).
Proof.
  intros Hs.
  assert (H : forall kv, kv ∈ map_to_list (connections s) -> link_open s kv.2 = true).
  { intros [id r] Hin. apply elem_of_map_to_list in Hin. cbn.
    unfold link_open. rewrite (Hs _ _ Hin). reflexivity. }
  induction (map_to_list (connections s)) as [|kv l IH]; cbn; [reflexivity|].
  rewrite (H kv) by (left). rewrite IH; [reflexivity|].
  intros kv' Hin. apply H. right. exact Hin.
Qed.

(** broadcast, in every reachable state, sends the data as it is on every
    link of the Map, once on each, and on nothing else. *)
Theorem broadcast_reaches_each_link_once (s : Offscreen.State) (data : SyncData) :
  reachable s ->
  let sent := sends (broadcast data s) in
  (forall id r, connections s !! id = Some r -> (r, data) ∈ sent) /\
  (forall r d, (r, d) ∈ sent ->
     d = data /\ exists id, connections s !! id = Some r) /\
  NoDup sent.*1 /\
  length sent = size (connections s) /\
  notices (broadcast data s) = [].
Proof.
  intros Hr. pose proof (reachable_consistent s Hr) as Hs. cbv zeta.
  unfold broadcast. rewrite (broadcast_targets_consistent s Hs), sends_fmap.
  split; [|split; [|split; [|split]]].
  - intros id r Hl. apply list_elem_of_fmap. exists (id, r).
    split; [reflexivity|]. apply elem_of_map_to_list. exact Hl.
  - intros r d Hin. apply list_elem_of_fmap in Hin.
    destruct Hin as [[id r'] [Heq Hin]]. cbn in Heq. injection Heq as -> ->.
    split; [reflexivity|]. exists id. apply elem_of_map_to_list. exact Hin.
  - rewrite <- list_fmap_compose.
    apply NoDup_fmap_2_strong; [|apply NoDup_map_to_list].
    intros kv1 kv2 H1 H2 Heq. eapply consistent_refs_inj; eauto.
  - rewrite length_fmap. apply length_map_to_list.
  - clear. induction (map_to_list (connections s)) as [|kv l IH]; cbn; [reflexivity|exact IH].
Qed.

Lemma broadcast_reaches_each_link_once_witness :
  reachable hostState /\
  length (sends (broadcast (blankData "pause") hostState)) = 3.
Proof.
  split; [exact hostState_reachable|].
  exact (proj1 (proj2 (proj2 (proj2
           (broadcast_reaches_each_link_once hostState (blankData "pause")
              hostState_reachable))))).
Defined.

(** When the host relays what arrived on the link the Map holds for peer
    [id], every other link of the Map gets the data exactly once: the sends
    name no link twice and are one fewer than the Map has entries. *)
Theorem relay_reaches_each_other_link_once
    (s : Offscreen.State) (r : nat) (id : string) (data : SyncData) :
  reachable s ->
  connections s !! id = Some r ->
  isHost s = true ->
  1 < size (connections s) ->
  exists out,
    dispatch (EvData r data) s = Some (s, out) /\
    NoDup (sends out).*1 /\
    length (sends out) = size (connections s) - 1 /\
    r ∉ (sends out).*1.
Proof.
  intros Hr Hm Hhost Hmany. pose proof (reachable_consistent s Hr) as Hs.
  cbn. rewrite (Hs _ _ Hm). unfold onData. rewrite Hhost.
  replace (1 <? size (connections s))%nat with true
    by (symmetry; apply Nat.ltb_lt; exact Hmany).
  cbn. eexists. split; [reflexivity|]. cbn. rewrite sends_fmap.
  assert (Hperm : relayTargets id s ≡ₚ map_to_list (delete id (connections s))).
  { apply NoDup_Permutation.
    - apply filter_NoDup, NoDup_map_to_list.
    - apply NoDup_map_to_list.
    - intros [id' r']. rewrite list_elem_of_In, relayTargets_spec,
        elem_of_map_to_list, lookup_delete_Some.
      split.
      + intros (Hl & Hne & _). split; [congruence | exact Hl].
      + intros (Hne & Hl). split; [exact Hl|]. split; [congruence|].
        unfold link_open. rewrite (Hs _ _ Hl). reflexivity. }
  split; [|split].
  - rewrite <- list_fmap_compose. apply NoDup_fmap_2_strong.
    + intros kv1 kv2 H1 H2 Heq. apply (consistent_refs_inj s); [exact Hs | | | exact Heq].
      * destruct kv1. apply list_elem_of_In, relayTargets_spec in H1.
        apply elem_of_map_to_list. tauto.
      * destruct kv2. apply list_elem_of_In, relayTargets_spec in H2.
        apply elem_of_map_to_list. tauto.
    + apply filter_NoDup, NoDup_map_to_list.
  - rewrite length_fmap, Hperm, length_map_to_list.
    rewrite map_size_delete_Some by eauto. lia.
  - rewrite <- list_fmap_compose. intros Hin. apply list_elem_of_fmap in Hin.
    destruct Hin as [[id' r'] [Heq Hin]]. cbn in Heq. subst r'.
    apply list_elem_of_In, relayTargets_spec in Hin. destruct Hin as (Hl & Hne & _).
    pose proof (Hs _ _ Hl) as L1. rewrite (Hs _ _ Hm) in L1. congruence.
Qed.

Lemma relay_reaches_each_other_link_once_witness :
  reachable hostState /\
  connections hostState !! "carol" = Some 2 /\
  isHost hostState = true /\
  1 < size (connections hostState) /\
  exists out,
    dispatch (EvData 2 (blankData "pause")) hostState = Some (hostState, out) /\
    length (sends out) = 2.
Proof.
  assert (Hmany : 1 < size (connections hostState)) by (vm_compute; lia).
  split; [exact hostState_reachable|].
  split; [reflexivity|].
  split; [reflexivity|].
  split; [exact Hmany|].
  destruct (relay_reaches_each_other_link_once hostState 2 "carol" (blankData "pause")
              hostState_reachable eq_refl eq_refl Hmany)
    as (out & Hd & _ & Hlen & _).
  exists out. split; [exact Hd|]. exact Hlen.
Defined.

(** A peer id that opens a second link takes over the Map entry of its
    first.  When the first link then closes, its handler deletes the entry
    by peer id: the second link is still open, but the Map no longer holds
    it, so broadcast does not send on it; the peer-left notice counts the
    entries that remain plus one. *)
Theorem close_of_replaced_link_orphans_successor
    (s : Offscreen.State) (r1 r2 : nat) (id : string) :
  reachable s ->
  links s !! r1 = Some (mkConn id Open) ->
  connections s !! id = Some r2 ->
  r1 <> r2 ->
  exists s',
    dispatch (EvClose r1) s
      = Some (s', [ToBackground (PeerLeft id (count (connections s)))]) /\
    connections s' = delete id (connections s) /\
    links s' !! r2 = Some (mkConn id Open) /\
    forall data, r2 ∉ (sends (broadcast data s')).*1.
Proof.
  intros Hr Hl Hm Hne. pose proof (reachable_consistent s Hr) as Hs.
  cbn. rewrite Hl. unfold onClose. cbn. eexists. split.
  - f_equal. f_equal. f_equal. f_equal. f_equal. unfold count.
    rewrite map_size_delete_Some by eauto.
    assert (0 < size (connections s)).
    { destruct (size (connections s)) eqn:E; [|lia].
      apply map_size_empty_inv in E. rewrite E, lookup_empty in Hm. discriminate. }
    lia.
  - split; [reflexivity|]. split.
    + cbn. rewrite lookup_insert_ne by exact Hne. exact (Hs _ _ Hm).
    + intros data Hin. apply list_elem_of_fmap in Hin.
      destruct Hin as [[r d] [Heq Hin]]. cbn in Heq. subst r.
      unfold broadcast in Hin. rewrite sends_fmap in Hin.
      apply list_elem_of_fmap in Hin. destruct Hin as [[id' r'] [Heq Hin]].
      cbn in Heq. injection Heq as <- _.
      apply list_elem_of_In, filter_In in Hin. destruct Hin as [Hin _].
      apply list_elem_of_In, elem_of_map_to_list in Hin. cbn in Hin.
      apply lookup_delete_Some in Hin. destruct Hin as [Hid Hl'].
      pose proof (Hs _ _ Hl') as L1. rewrite (Hs _ _ Hm) in L1. congruence.
Qed.

Lemma reconnectedState_reachable : reachable reconnectedState.
Proof.
  apply (runEvents_reachable reconnectingGuest initial); [exact reachable_initial|].
  vm_compute. reflexivity.
Qed.

Lemma close_of_replaced_link_orphans_successor_witness :
  reachable reconnectedState /\
  links reconnectedState !! 0 = Some (mkConn "alice" Open) /\
  connections reconnectedState !! "alice" = Some 2 /\
  0 <> 2 /\
  exists s',
    dispatch (EvClose 0) reconnectedState
      = Some (s', [ToBackground (PeerLeft "alice" 2)]) /\
    links s' !! 2 = Some (mkConn "alice" Open) /\
    connections s' !! "alice" = None.
Proof.
  split; [exact reconnectedState_reachable|].
  split; [reflexivity|].
  split; [reflexivity|].
  split; [discriminate|].
  destruct (close_of_replaced_link_orphans_successor reconnectedState 0 2 "alice"
              reconnectedState_reachable eq_refl eq_refl ltac:(discriminate))
    as (s' & Hd & Hc & Hl & _).
  exists s'. split; [exact Hd|]. split; [exact Hl|].
  rewrite Hc. apply lookup_delete_eq.
Defined.

Lemma leaveSession_left s : peerless s -> left (leaveSession s).1.1.
Proof.
  intros Hs. unfold leaveSession, left. destruct (peer s) as [p|] eqn:Ep; cbn.
  - repeat split. apply (allClosed_destroy p s).
  - split; [exact Ep|]. repeat split. exact (proj2 (Hs Ep)).
Qed.

(** Once left, the manager stays as it is under every event that does not
    start a session; the link events that need an open or opening
    connection cannot occur at all. *)
Lemma left_dispatch e s s' out :
  left s -> startsSession e = false -> dispatch e s = Some (s', out) ->
  left s' /\ sends out = [].
Proof.
  intros (Hp & Hm & Hc & Hh & Hcl) He Hd. destruct e; cbn in Hd; try discriminate He.
  - rewrite Hp in Hd. discriminate.
  - destruct (links s !! r) as [[id st]|] eqn:El; [|discriminate].
    pose proof (Hcl _ _ El) as H. cbn in H. subst st. discriminate.
  - destruct (links s !! r) as [[id st]|] eqn:El; [|discriminate].
    pose proof (Hcl _ _ El) as H. cbn in H. subst st. discriminate.
  - destruct (links s !! r) as [[id st]|] eqn:El; [|discriminate].
    pose proof (Hcl _ _ El) as H. cbn in H. subst st. discriminate.
  - destruct (links s !! r) as [c|]; [|discriminate]. injection Hd as <- <-.
    split; [|reflexivity]. unfold left. cbn. rewrite Hm, delete_empty. auto.
  - rewrite Hp in Hd. discriminate.
  - injection Hd as <- <-. rewrite Hp. split; [|reflexivity]. unfold left. auto.
  - rewrite Hp in Hd. discriminate.
  - rewrite Hp in Hd. discriminate.
  - unfold leaveSession in Hd. rewrite Hp in Hd. injection Hd as <- <-.
    split; [|reflexivity]. unfold left. cbn. auto.
  - injection Hd as <- <-. split; [|reflexivity]. unfold left. auto.
  - injection Hd as <- <-. split; [unfold left; auto|].
    unfold broadcast. rewrite Hm, map_to_list_empty. reflexivity.
  - injection Hd as <- <-. split; [|reflexivity]. unfold left. auto.
Qed.

Lemma left_runEvents es :
  forall s s', left s -> forallb (fun e => negb (startsSession e)) es = true ->
               runEvents es s = Some s' -> left s'.
Proof.
  induction es as [|e es IH]; intros s s' Hs Hq Hrun; cbn in *.
  - injection Hrun as <-. exact Hs.
  - apply andb_true_iff in Hq. destruct Hq as [He Hq]. apply negb_true_iff in He.
    destruct (dispatch e s) as [[s1 out]|] eqn:E; [|discriminate].
    eapply IH; [|exact Hq|exact Hrun].
    exact (proj1 (left_dispatch e s s1 out Hs He E)).
Qed.

(** After a leave-session in any reachable state, whatever events follow
    short of a new create-session or join-session, getStatus keeps reporting
    connected = false, no code, peerCount = 0; no link can open, deliver
    data or close any more, and a broadcast sends nothing. *)
Theorem leave_is_final_until_next_session
    (s s' : Offscreen.State) (es : list Event) :
  reachable s ->
  forallb (fun e => negb (startsSession e)) es = true ->
  runEvents (EvLeave :: es) s = Some s' ->
  getStatus s' = mkStatus false None false 0 /\
  (forall r data,
     dispatch (EvOpen r) s' = None /\
     dispatch (EvData r data) s' = None /\
     dispatch (EvClose r) s' = None) /\
  (forall data, broadcast data s' = []).
Proof.
  intros Hr Hq Hrun. cbn [runEvents] in Hrun.
  pose proof (leaveSession_left s (reachable_peerless s Hr)) as Hleft.
  cbn [dispatch] in Hrun. destruct (leaveSession s) as [[s1 e1] r1]. cbn in Hleft.
  pose proof (left_runEvents es s1 s' Hleft Hq Hrun) as (Hp & Hm & Hc & Hh & Hcl).
  split; [|split].
  - unfold getStatus. rewrite Hp, Hm, Hc, Hh. reflexivity.
  - intros r data. cbn.
    destruct (links s' !! r) as [[id st]|] eqn:El; [|auto].
    pose proof (Hcl _ _ El) as H. cbn in H. subst st. auto.
  - intros data. unfold broadcast. rewrite Hm, map_to_list_empty. reflexivity.
Qed.

Lemma leave_is_final_until_next_session_witness :
  reachable hostState /\
  forallb (fun e => negb (startsSession e))
          [EvError 1; EvReconnectTimer; EvBroadcast (blankData "play"); EvGetStatus] = true /\
  exists s',
    runEvents [EvLeave; EvError 1; EvReconnectTimer;
               EvBroadcast (blankData "play"); EvGetStatus] hostState = Some s' /\
    getStatus s' = mkStatus false None false 0.
Proof.
  split; [exact hostState_reachable|].
  split; [reflexivity|].
  destruct (runEvents [EvLeave; EvError 1; EvReconnectTimer;
                       EvBroadcast (blankData "play"); EvGetStatus] hostState)
    as [s'|] eqn:E; [|vm_compute in E; discriminate E].
  exists s'. split; [reflexivity|].
  exact (proj1 (leave_is_final_until_next_session hostState s'
                  [EvError 1; EvReconnectTimer; EvBroadcast (blankData "play"); EvGetStatus]
                  hostState_reachable eq_refl E)).
Defined.

(** A link of a peer id the Map does not hold, opening and then closing,
    leaves the Map as it was; the coordinator is told the size of the Map
    plus two when it opens and plus one when it closes. *)
Theorem open_then_close_restores_map
    (s : Offscreen.State) (r : nat) (id : string) :
  links s !! r = Some (mkConn id Opening) ->
  connections s !! id = None ->
  exists s1 s2,
    dispatch (EvOpen r) s
      = Some (s1, [ToBackground (PeerJoined id (count (connections s) + 2))]) /\
    dispatch (EvClose r) s1
      = Some (s2, [ToBackground (PeerLeft id (count (connections s) + 1))]) /\
    connections s2 = connections s /\
    links s2 = <[r := mkConn id Closed]> (links s).
Proof.
  intros Hl Hm. cbn. rewrite Hl. unfold onOpen. cbn.
  eexists. eexists. split.
  - f_equal. f_equal. f_equal. f_equal. f_equal. unfold count.
    rewrite map_size_insert_None by exact Hm. lia.
  - cbn. rewrite lookup_insert_eq. unfold onClose. cbn.
    rewrite delete_insert_id by exact Hm.
    split; [reflexivity|]. split; [reflexivity|].
    cbn. apply insert_insert_eq.
Qed.

Lemma open_then_close_restores_map_witness :
  links (setLink 7 (mkConn "dave" Opening) hostState) !! 7 = Some (mkConn "dave" Opening) /\
  connections (setLink 7 (mkConn "dave" Opening) hostState) !! "dave" = None /\
  exists s1 s2,
    dispatch (EvOpen 7) (setLink 7 (mkConn "dave" Opening) hostState)
      = Some (s1, [ToBackground (PeerJoined "dave" 5)]) /\
    dispatch (EvClose 7) s1 = Some (s2, [ToBackground (PeerLeft "dave" 4)]).
Proof.
  split; [reflexivity|].
  split; [reflexivity|].
  destruct (open_then_close_restores_map (setLink 7 (mkConn "dave" Opening) hostState)
              7 "dave" eq_refl eq_refl) as (s1 & s2 & H1 & H2 & _).
  exists s1, s2. split; [exact H1 | exact H2].
Defined.

(** joinSession succeeds exactly when both its anonymous peer and the link
    to the host open.  It then answers the uppercased code with isHost =
    false, having sent one message: a sync-request, on the new link.
    Whatever the outcome, it leaves the uppercased code in [sessionCode] and
    [isHost] false, and the peer object it created: untouched after a
    success, a failed connection or the initialisation timeout, and as the
    transport left it after an initialisation error, when getStatus reports
    connected = false unless the error spared the peer. *)
Theorem joinSession_outcomes
    (code : string) (init : InitOutcome) (co : ConnectOutcome) (s : Offscreen.State) :
  exists s' out r,
    dispatch (EvJoin code init co) s = Some (s', out ++ [Respond r]) /\
    (success r = Some true <-> (exists id, init = InitOpen id) /\ co = ConnectOpen) /\
    (success r = Some true ->
       r = RSession (Some (toUpperCase code)) false /\
       exists link, sends out = [(link, blankData "sync-request")] /\
                    links s' !! link
                    = Some (mkConn (sessionCodeToPeerId (toUpperCase code)) Open)) /\
    (success r <> Some true -> sends out = [] /\ success r = Some false) /\
    sessionCode s' = Some (toUpperCase code) /\
    isHost s' = false /\
    peer s' = Some (afterInit None init) /\
    ((forall ty msg, init <> InitError ty msg) ->
       peer s' = Some (mkPeer None false false)) /\
    (forall ty msg, init = InitError ty msg -> errorFate ty <> Survives ->
       st_connected (getStatus s') = false).
Proof.
  cbn [dispatch]. unfold joinSession.
  assert (He1 : sends (resetPeer s).2 = []).
  { unfold resetPeer. destruct (peer s); reflexivity. }
  destruct (resetPeer s) as [s1 e1]. cbn in He1.
  assert (Hsends : forall l, sends (e1 ++ l) = sends l).
  { intros l. clear -He1. induction e1 as [|[] e1 IH]; cbn in *; try discriminate; auto. }
  destruct init as [id | ty emsg |]; cbn [initPeer].
  - destruct co; cbn; do 3 eexists; (split; [reflexivity|]).
    + split; [split; [intros _; eauto | reflexivity]|].
      split.
      * intros _. split; [reflexivity|]. eexists. split.
        -- rewrite Hsends. reflexivity.
        -- cbn. apply lookup_insert_eq.
      * split; [intros H; exfalso; apply H; reflexivity|].
        repeat (split; [reflexivity|]). intros ty m H; discriminate H.
    + split; [split; [discriminate | intros [_ H]; discriminate H]|].
      split; [discriminate|].
      split; [intros _; rewrite Hsends; split; reflexivity|].
      repeat (split; [reflexivity|]). intros ty m H; discriminate H.
    + split; [split; [discriminate | intros [_ H]; discriminate H]|].
      split; [discriminate|].
      split; [intros _; rewrite Hsends; split; reflexivity|].
      repeat (split; [reflexivity|]). intros ty m H; discriminate H.
  - cbn. do 3 eexists. split; [reflexivity|].
    split; [split; [discriminate | intros [[id H] _]; discriminate H]|].
    split; [discriminate|].
    split; [intros _; rewrite Hsends; split; reflexivity|].
    repeat (split; [reflexivity|]).
    split.
    + intros H. exfalso. exact (H ty emsg eq_refl).
    + intros ty' m H Hf. injection H as <- _. unfold getStatus. cbn.
      destruct (errorFate ty); [contradiction | reflexivity | reflexivity].
  - cbn. do 3 eexists. split; [reflexivity|].
    split; [split; [discriminate | intros [[id H] _]; discriminate H]|].
    split; [discriminate|].
    split; [intros _; rewrite Hsends; split; reflexivity|].
    repeat (split; [reflexivity|]). intros ty m H; discriminate H.
Qed.

(** A guest that has joined holds no link in the Map: in a reachable state,
    after a successful joinSession the Map is empty although the link to the
    host is open, so a broadcast by the guest sends nothing and getStatus
    counts the guest alone. *)
Theorem joined_guest_holds_no_link
    (s : Offscreen.State) (code anon : string) :
  reachable s ->
  let joined := (joinSession code (InitOpen anon) ConnectOpen s).1.1 in
  connections joined = ∅ /\
  (exists link, links joined !! link
                = Some (mkConn (sessionCodeToPeerId (toUpperCase code)) Open)) /\
  (forall data, broadcast data joined = []) /\
  getStatus joined = mkStatus true (Some (toUpperCase code)) false 1.
Proof.
  intros Hr. cbv zeta. unfold joinSession.
  pose proof (reachable_peerless s Hr) as Hp.
  assert (Hc : connections (resetPeer s).1 = ∅).
  { unfold resetPeer. destruct (peer s) eqn:Ep; [reflexivity|]. exact (proj1 (Hp Ep)). }
  destruct (resetPeer s) as [s1 e1]. cbn in Hc. cbn.
  split; [exact Hc|]. split; [eexists; apply lookup_insert_eq|]. split.
  - intros data. unfold broadcast. cbn. rewrite Hc, map_to_list_empty. reflexivity.
  - unfold getStatus. cbn. rewrite Hc. reflexivity.
Qed.

(** Where every connection object is closed, none is held open. *)
Lemma openHeld_none (s : Offscreen.State) : allClosed s -> openHeld s = ∅.
Proof.
  intros H. unfold openHeld. apply map_empty_filter_2.
  intros r c Hl Ho. cbn in Ho. unfold conn_open in Ho.
  rewrite (H r c Hl) in Ho. discriminate Ho.
Qed.

(** The prologue of createSession and joinSession leaves no link open. *)
Lemma resetPeer_allClosed (s : Offscreen.State) :
  peerless s -> allClosed (resetPeer s).1.
Proof.
  intros Hp. unfold resetPeer. destruct (peer s) as [p|] eqn:Ep; cbn.
  - exact (allClosed_destroy p s).
  - exact (proj2 (Hp Ep)).
Qed.

(** C5, at a guest.  After a join-session that succeeded, in whatever
    reachable state it was asked for, the session is active and the manager
    holds exactly one open peer link, the one to the host; yet getStatus
    reports a peerCount of 1, not 1 + 1: joinSession calls setupConnection
    inside the link's 'open' callback, so the handler that would enter the
    link into the Map never runs.  The coordinator, which set its own count
    to 2 when the join succeeded, stores 1 on the next get-status round
    trip. *)
Theorem C5_joined_guest_is_counted_alone
    (s : Offscreen.State) (code anon : string) (bg : Background.State) :
  reachable s ->
  let joined := joinSession code (InitOpen anon) ConnectOpen s in
  let m := joined.1.1 in
  let bg' := (Background.handleJoinSession joined.2 bg).1 in
  reachable m /\
  active m = true /\
  size (openHeld m) = 1 /\
  st_peerCount (getStatus m) = 1%Z /\
  st_peerCount (getStatus m) <> (1 + Z.of_nat (size (openHeld m)))%Z /\
  Background.peerCount bg' = 2%Z /\
  Background.peerCount (System.status (bg', m)).1.1 = 1%Z.
Proof.
  intros Hr. cbv zeta.
  assert (Hreach : reachable (joinSession code (InitOpen anon) ConnectOpen s).1.1).
  { apply (reachable_step s (EvJoin code (InitOpen anon) ConnectOpen) _
             ((joinSession code (InitOpen anon) ConnectOpen s).1.2
                ++ [Respond (match (joinSession code (InitOpen anon) ConnectOpen s).2 with
                             | inl r => r
                             | inr msg => RFailure msg
                             end)])); [exact Hr|].
    cbn [dispatch]. destruct (joinSession code (InitOpen anon) ConnectOpen s) as [[s1 e1] r1].
    reflexivity. }
  split; [exact Hreach|].
  pose proof (reachable_peerless s Hr) as Hp.
  pose proof (resetPeer_allClosed s Hp) as Hcl.
  assert (Hc : connections (resetPeer s).1 = ∅).
  { unfold resetPeer. destruct (peer s) eqn:Ep; [reflexivity|]. exact (proj1 (Hp Ep)). }
  unfold joinSession. destruct (resetPeer s) as [s1 e1]. cbn in Hcl, Hc. cbn.
  assert (Hone : size (openHeld
            (with_links (<[newRef s1 := mkConn (sessionCodeToPeerId (toUpperCase code)) Open]>
                           (links s1)) s1)) = 1).
  { unfold openHeld. cbn [links with_links].
    rewrite map_filter_insert_True by reflexivity.
    fold (openHeld s1). rewrite (openHeld_none s1 Hcl), insert_empty.
    apply map_size_singleton. }
  unfold openHeld in *. cbn [links with_links with_peer with_session] in *.
  unfold newRef in *. cbn [links with_links with_peer with_session] in *.
  rewrite Hone. unfold getStatus. cbn. rewrite Hc.
  split; [reflexivity|]. split; [reflexivity|]. split; [reflexivity|].
  split; [discriminate|]. split; reflexivity.
Qed.

Lemma C5_joined_guest_is_counted_alone_witness :
  reachable initial /\
  let m := (joinSession "k7pq4r" (InitOpen "anonymous") ConnectOpen initial).1.1 in
  openHeld m = {[ 0 := mkConn "videosync-K7PQ4R" Open ]} /\
  st_peerCount (getStatus m) = 1%Z.
Proof.
  split; [exact reachable_initial|]. cbv zeta.
  split; [vm_compute; reflexivity|].
  exact (proj1 (proj2 (proj2 (proj2
           (C5_joined_guest_is_counted_alone initial "k7pq4r" "anonymous"
              Background.initial reachable_initial))))).
Defined.

Lemma joined_guest_holds_no_link_witness :
  reachable hostState /\
  getStatus (joinSession "k7pq4r" (InitOpen "anonymous") ConnectOpen hostState).1.1
  = mkStatus true (Some "K7PQ4R") false 1.
Proof.
  split; [exact hostState_reachable|].
  exact (proj2 (proj2 (proj2 (joined_guest_holds_no_link hostState "k7pq4r" "anonymous"
                                hostState_reachable)))).
Defined.

End ManagerLifecycle.

Section CaptureProperties.
Import Content Capture.

Lemma steady_ret {A} (a : A) : steady (ret a).
Proof. intros s log. cbn. auto. Qed.

Lemma steady_throw {A} (e : string) : steady (@throw A e).
Proof. intros s log. cbn. auto. Qed.

Lemma steady_emit (e : Content.Effect) : steady (emit e).
Proof. intros s log. cbn. auto. Qed.

Lemma steady_bind {A B} (m : M A) (k : A -> M B) :
  steady m -> (forall a, steady (k a)) -> steady (bind m k).
Proof.
  intros Hm Hk s log. unfold bind. specialize (Hm s log).
  destruct (m s log) as [a s1 l1 | e s1 l1]; cbn in *.
  - destruct (Hk a s1 l1) as (H1 & H2 & H3). destruct Hm as (G1 & G2 & G3).
    repeat split; congruence.
  - exact Hm.
Qed.

Lemma steady_getAgent : steady getAgent.
Proof. intros s log. cbn. auto. Qed.

Lemma steady_readVideo i : steady (readVideo i).
Proof.
  apply steady_bind; [apply steady_getAgent|]. intros a.
  destruct (dom a !! i); [apply steady_ret | apply steady_throw].
Qed.

Lemma steady_updVideo i (f : Video -> Video) :
  (forall v, area (f v) = area v) -> steady (updVideo i f).
Proof.
  intros Hf s log. destruct (dom s !! i) as [v|] eqn:E.
  - rewrite (updVideo_run i v f s log E). cbn.
    repeat split. rewrite list_fmap_insert, Hf.
    apply list_insert_id. rewrite list_lookup_fmap, E. reflexivity.
  - unfold updVideo, bind, readVideo, getAgent. cbn. rewrite E. cbn. auto.
Qed.

Lemma steady_setCurrentTime i x : steady (setCurrentTime i x).
Proof.
  destruct x as [t|]; [|apply steady_throw].
  apply steady_bind; [apply steady_updVideo; reflexivity | intros; apply steady_emit].
Qed.

Lemma steady_setPlaybackRate i x : steady (setPlaybackRate i x).
Proof.
  destruct x as [t|]; [|apply steady_throw].
  apply steady_bind; [apply steady_updVideo; reflexivity | intros; apply steady_emit].
Qed.

Lemma steady_play i : steady (play i).
Proof.
  apply steady_bind; [apply steady_updVideo; reflexivity | intros; apply steady_emit].
Qed.

Lemma steady_pause i : steady (pause i).
Proof.
  apply steady_bind; [apply steady_updVideo; reflexivity | intros; apply steady_emit].
Qed.

Lemma steady_applySwitch data i v : steady (applySwitch data i v).
Proof.
  unfold applySwitch.
  repeat match goal with
         | |- steady (if ?c then _ else _) => destruct c
         | |- steady (bind _ _) => apply steady_bind; [|intros]
         | |- steady (when ?c _) => unfold when
         | |- steady (setCurrentTime _ _) => apply steady_setCurrentTime
         | |- steady (setPlaybackRate _ _) => apply steady_setPlaybackRate
         | |- steady (play _) => apply steady_play
         | |- steady (pause _) => apply steady_pause
         | |- steady (emit _) => apply steady_emit
         | |- steady (ret _) => apply steady_ret
         | |- steady getAgent => apply steady_getAgent
         end.
Qed.

(** What applySync does to the flag, the binding and the sizes: with an
    element bound it raises the flag and keeps the binding; with none bound
    it binds what findPrimaryVideo selects, and raises the flag if that is an
    element. *)
Lemma applySync_agent data from (a : Agent) :
  let a' := outAgent (run (applySync data from) a) in
  area <$> dom a' = area <$> dom a /\
  match activeVideo a with
  | Some i => activeVideo a' = Some i /\ ignoreEvents a' = true
  | None =>
      activeVideo a' = findPrimaryVideo (dom a) /\
      ignoreEvents a' = match findPrimaryVideo (dom a) with
                        | Some _ => true
                        | None => ignoreEvents a
                        end
  end.
Proof.
  cbv zeta. unfold run, applySync, bind, getAgent.
  assert (Hbody : forall i (b : Agent),
            let o := (bind (modify (with_ignore true))
                        (fun _ => bind (readVideo i)
                           (fun v => bind (applySwitch data i v)
                              (fun _ => emit (ClearIgnoreAfter 200))))) b [] in
            ignoreEvents (outAgent o) = true /\
            activeVideo (outAgent o) = activeVideo b /\
            area <$> dom (outAgent o) = area <$> dom b).
  { intros i b. cbv zeta. unfold bind at 1. unfold modify.
    pose proof (steady_bind (readVideo i)
                  (fun v => bind (applySwitch data i v)
                              (fun _ => emit (ClearIgnoreAfter 200)))
                  (steady_readVideo i)
                  (fun v => steady_bind _ _ (steady_applySwitch data i v)
                              (fun _ => steady_emit _))
                  (with_ignore true b) []) as (H1 & H2 & H3).
    repeat split; assumption. }
  destruct (activeVideo a) as [i|] eqn:Ea.
  - unfold ret. destruct (Hbody i a) as (H1 & H2 & H3). cbv zeta in *.
    unfold bind in *. split; [exact H3|]. split; [congruence | exact H1].
  - unfold modify, ret, bind.
    destruct (findPrimaryVideo (dom a)) as [i|] eqn:Ef.
    + destruct (Hbody i (with_active (Some i) a)) as (H1 & H2 & H3). cbv zeta in *.
      unfold bind in *. split; [exact H3|]. split; [exact H2 | exact H1].
    + cbn. repeat split.
Qed.

Lemma findPrimaryVideo_nonempty (vs : list Video) :
  vs <> [] -> exists i, findPrimaryVideo vs = Some i.
Proof. destruct vs; [congruence | intros _; eexists; reflexivity]. Qed.

(** Once a remote event has been handed to applySync on a page that has an
    element, the echo-suppression flag is up, whether applySync completed or
    threw; every media event other than 'playing' is then dropped by its
    handler: nothing is scheduled, nothing is sent, the state is untouched.
    The pending timers are not affected by the remote event. *)
Theorem remote_event_mutes_capture
    (data : SyncData) (from : option string) (st : Capture.State) :
  activeVideo (agent st) <> None \/ dom (agent st) <> [] ->
  let st' := (step (Remote data from) st).1 in
  ignoreEvents (agent st') = true /\
  timers st' = timers st /\
  forall i k, k <> KPlaying -> step (Media i k) st' = (st', []).
Proof.
  intros Hhas. cbv zeta. cbn [step fst].
  pose proof (applySync_agent data from (agent st)) as [_ Hag]. cbv zeta in Hag.
  assert (Hflag : ignoreEvents (outAgent (run (applySync data from) (agent st))) = true).
  { destruct (activeVideo (agent st)) as [i|] eqn:Ea; [exact (proj2 Hag)|].
    destruct Hhas as [H | H]; [congruence|].
    destruct (findPrimaryVideo_nonempty _ H) as [i Hi]. rewrite Hi in Hag.
    exact (proj2 Hag). }
  clear Hag Hhas.
  set (a' := outAgent (run (applySync data from) (agent st))) in *. clearbody a'.
  split; [exact Hflag|]. split; [reflexivity|].
  intros i k Hk. cbn [step]. cbn [agent with_agent listening].
  destruct (dom a' !! i) as [target|]; [|reflexivity].
  destruct (bool_decide _); [|reflexivity].
  destruct k; try congruence; cbn;
    unfold onPlay, onPause, onSeeked, onRateChange, onBuffering; cbn;
    rewrite Hflag; reflexivity.
Qed.

Lemma remote_event_mutes_capture_witness :
  (activeVideo (agent attached) <> None \/ dom (agent attached) <> []) /\
  step (Media 0 KSeeked) (step (Remote (playAt 12) None) attached).1
  = ((step (Remote (playAt 12) None) attached).1, []).
Proof.
  assert (H : activeVideo (agent attached) <> None \/ dom (agent attached) <> [])
    by (right; discriminate).
  split; [exact H|].
  exact (proj2 (proj2 (remote_event_mutes_capture (playAt 12) None attached H))
           0 KSeeked ltac:(discriminate)).
Defined.

(** Without the flag the same event is captured. *)
Example local_seek_is_captured :
  timer_data <$> timers (step (Media 0 KSeeked) attached).1
  = [localData "seek" (Some 10%Q) None "You"].
Proof. vm_compute. reflexivity. Qed.

(** *** findPrimaryVideo *)

Lemma scanLargest_spec (vs : list Video) :
  forall k b m,
    let r := scanLargest vs k (b, m) in
    (forall j w, vs !! j = Some w -> (area w <= r.2)%Z) /\
    ((r = (b, m) /\ forall j w, vs !! j = Some w -> (area w <= m)%Z) \/
     (exists j v,
        vs !! j = Some v /\ r = (k + j, area v) /\ (m < area v)%Z /\
        forall j' w, j' < j -> vs !! j' = Some w -> (area w < area v)%Z)).
Proof.
  induction vs as [|v vs IH]; intros k b m; cbn.
  - split; [intros j w H; discriminate H|]. left. split; [reflexivity|].
    intros j w H. discriminate H.
  - destruct (m <? area v)%Z eqn:E.
    + apply Z.ltb_lt in E. destruct (IH (S k) k (area v)) as [Hmax Hcase].
      cbv zeta in *. split.
      * intros [|j] w Hw; cbn in Hw; [|eauto].
        injection Hw as <-.
        destruct Hcase as [[Hr _] | (j & u & _ & Hr & Hlt & _)]; rewrite Hr; cbn; lia.
      * right. destruct Hcase as [[Hr Hall] | (j & u & Hu & Hr & Hlt & Hfirst)].
        -- exists 0, v. split; [reflexivity|]. split; [rewrite Hr, Nat.add_0_r; reflexivity|].
           split; [exact E|]. intros j' w Hj'. lia.
        -- exists (S j), u. split; [exact Hu|].
           split; [rewrite Hr; f_equal; lia|]. split; [lia|].
           intros [|j'] w Hj' Hw; cbn in Hw.
           ++ injection Hw as <-. exact Hlt.
           ++ apply (Hfirst j' w); [lia | exact Hw].
    + apply Z.ltb_ge in E. destruct (IH (S k) b m) as [Hmax Hcase].
      cbv zeta in *. split.
      * intros [|j] w Hw; cbn in Hw; [|eauto].
        injection Hw as <-.
        destruct Hcase as [[Hr _] | (j & u & _ & Hr & Hlt & _)]; rewrite Hr; cbn; lia.
      * destruct Hcase as [[Hr Hall] | (j & u & Hu & Hr & Hlt & Hfirst)].
        -- left. split; [exact Hr|]. intros [|j] w Hw; cbn in Hw; [|eauto].
           injection Hw as <-. exact E.
        -- right. exists (S j), u. split; [exact Hu|].
           split; [rewrite Hr; f_equal; lia|]. split; [exact Hlt|].
           intros [|j'] w Hj' Hw; cbn in Hw.
           ++ injection Hw as <-. lia.
           ++ apply (Hfirst j' w); [lia | exact Hw].
Qed.

(** findPrimaryVideo answers nothing on a page without elements.  Otherwise
    it selects an element of the page that no element exceeds in area; among
    elements of that area it is the first; and when no element has a positive
    area it is the first element of the page. *)
Theorem findPrimaryVideo_selects_first_largest (vs : list Video) :
  (vs = [] -> findPrimaryVideo vs = None) /\
  (vs <> [] ->
   exists i v,
     findPrimaryVideo vs = Some i /\ vs !! i = Some v /\
     (forall j w, vs !! j = Some w -> (area w <= Z.max 0 (area v))%Z) /\
     ((0 < area v)%Z ->
        forall j w, j < i -> vs !! j = Some w -> (area w < area v)%Z) /\
     ((area v <= 0)%Z -> i = 0)).
Proof.
  split; [intros ->; reflexivity|]. intros Hne.
  destruct vs as [|v0 vs']; [congruence|]. clear Hne.
  set (vs := v0 :: vs').
  destruct (scanLargest_spec vs 0 0 0%Z) as [Hmax Hcase]. cbv zeta in *.
  change (findPrimaryVideo vs) with (Some (scanLargest vs 0 (0, 0%Z)).1).
  destruct Hcase as [[Hr Hall] | (j & u & Hu & Hr & Hlt & Hfirst)].
  - exists 0, v0. rewrite Hr. split; [reflexivity|]. split; [reflexivity|].
    pose proof (Hall 0 v0 eq_refl) as H0.
    split; [intros j w Hw; specialize (Hall j w Hw); lia|].
    split; [lia | reflexivity].
  - exists j, u. rewrite Hr. split; [reflexivity|]. split; [exact Hu|].
    split.
    + intros j' w Hw. specialize (Hmax j' w Hw). rewrite Hr in Hmax. cbn in Hmax. lia.
    + split; [intros _; exact Hfirst | lia].
Qed.

Lemma findPrimaryVideo_selects_first_largest_witness :
  dom agentUnbound <> [] /\
  findPrimaryVideo (dom agentUnbound) = Some 1 /\
  exists i v,
    findPrimaryVideo (dom agentUnbound) = Some i /\ dom agentUnbound !! i = Some v /\
    forall j w, dom agentUnbound !! j = Some w -> (area w <= Z.max 0 (area v))%Z.
Proof.
  assert (Hne : dom agentUnbound <> []) by discriminate.
  split; [exact Hne|]. split; [reflexivity|].
  destruct (proj2 (findPrimaryVideo_selects_first_largest (dom agentUnbound)) Hne)
    as (i & v & Hi & Hv & Hmax & _).
  exists i, v. split; [exact Hi|]. split; [exact Hv | exact Hmax].
Defined.

(** *** debounce *)

Lemma clearTimeout_Forall (P : Timer -> Prop) id ts :
  Forall P ts -> Forall P (clearTimeout id ts).
Proof.
  intros H. destruct id as [i|]; [|exact H]. cbn.
  induction H as [|t ts Ht Hts IH]; cbn; [constructor|].
  destruct (negb _); [constructor; assumption | exact IH].
Qed.

Lemma clearTimeout_below n ts :
  Forall (fun t => timer_id t < n) ts -> clearTimeout (Some n) ts = ts.
Proof.
  induction 1 as [|t ts Ht Hts IH]; cbn; [reflexivity|].
  replace (Nat.eqb (timer_id t) n) with false by (symmetry; apply Nat.eqb_neq; lia).
  cbn in *. rewrite IH. reflexivity.
Qed.

Lemma clearTimeout_last n delay data ts :
  Forall (fun t => timer_id t < n) ts ->
  clearTimeout (Some n) (ts ++ [mkTimer n delay data]) = ts.
Proof.
  intros H. cbn. rewrite List.filter_app. cbn. rewrite Nat.eqb_refl. cbn.
  rewrite app_nil_r. exact (clearTimeout_below n ts H).
Qed.

Lemma find_last n delay data ts :
  Forall (fun t => timer_id t < n) ts ->
  List.find (fun t => Nat.eqb (timer_id t) n) (ts ++ [mkTimer n delay data])
  = Some (mkTimer n delay data).
Proof.
  induction 1 as [|t ts Ht Hts IH]; cbn; [rewrite Nat.eqb_refl; reflexivity|].
  replace (Nat.eqb (timer_id t) n) with false by (symmetry; apply Nat.eqb_neq; lia).
  exact IH.
Qed.

(** The debounced handlers, with events not ignored. *)
Lemma handler_debounces (k : Kind) (v : Video) (st : Capture.State) :
  k <> KWaiting -> k <> KPlaying ->
  ignoreEvents (agent st) = false ->
  exists key delay data,
    debounced k v (str_or (myNickname (agent st)) "You") = Some (key, delay, data) /\
    (handler k v st).1 = debounce key data delay st /\
    (forall w, exists data',
        debounced k w (str_or (myNickname (agent st)) "You") = Some (key, delay, data')).
Proof.
  intros H1 H2 Hig.
  destruct k; try congruence; cbn;
    unfold onPlay, onPause, onSeeked, onRateChange, capture; rewrite Hig; cbn;
    do 3 eexists; (split; [reflexivity|]); (split; [reflexivity|]);
    intros w; eexists; reflexivity.
Qed.

Lemma burst_timers (k : Kind) :
  k <> KWaiting -> k <> KPlaying ->
  forall (targets : list Video) (last : Video) (st : Capture.State)
         (key : string) (delay : Z) (data : SyncData),
    ignoreEvents (agent st) = false ->
    timersBelowNext st ->
    debounced k last (str_or (myNickname (agent st)) "You") = Some (key, delay, data) ->
    let st' := burst k (targets ++ [last]) st in
    agent st' = agent st /\
    nextTimer st' = S (nextTimer st + length targets) /\
    timers st' = clearTimeout (debounceTimers st !! key) (timers st)
                   ++ [mkTimer (nextTimer st + length targets) delay data].
Proof.
  intros H1 H2. induction targets as [|v targets IH];
    intros last st key delay data Hig Hwf Hd; cbv zeta.
  - cbn. destruct (handler_debounces k last st H1 H2 Hig)
      as (key' & delay' & data' & Hd' & Hh & _).
    rewrite Hd in Hd'. injection Hd' as <- <- <-. rewrite Hh. cbn.
    rewrite Nat.add_0_r. auto.
  - cbn [app burst fold_left].
    destruct (handler_debounces k v st H1 H2 Hig)
      as (kv & dv & datav & Hdv & Hh & Hsame).
    destruct (Hsame last) as [data' Hl]. rewrite Hd in Hl.
    injection Hl as <- <- <-. rewrite Hh.
    set (st1 := debounce key datav delay st).
    assert (Hbase : Forall (fun t => timer_id t < nextTimer st)
                      (clearTimeout (debounceTimers st !! key) (timers st)))
      by (apply clearTimeout_Forall; exact Hwf).
    assert (Hwf1 : timersBelowNext st1).
    { unfold timersBelowNext, st1, debounce. cbn. apply Forall_app. split.
      - eapply Forall_impl; [exact Hbase|]. intros t Ht. cbn in Ht. lia.
      - constructor; [cbn; lia | constructor]. }
    destruct (IH last st1 key delay data Hig Hwf1 Hd) as (Ha & Hn & Ht).
    fold (burst k (targets ++ [last]) st1). rewrite Ha, Hn, Ht.
    split; [reflexivity|]. split; [cbn; lia|].
    unfold st1, debounce. cbn [debounceTimers timers nextTimer].
    rewrite lookup_insert_eq, (clearTimeout_last _ _ _ _ Hbase).
    f_equal. f_equal. f_equal. cbn. lia.
Qed.

Lemma burst_fire (k : Kind) (targets : list Video) (last : Video)
    (st : Capture.State) (key : string) (delay : Z) (data : SyncData) :
  k <> KWaiting -> k <> KPlaying ->
  ignoreEvents (agent st) = false ->
  timersBelowNext st ->
  debounced k last (str_or (myNickname (agent st)) "You") = Some (key, delay, data) ->
  timers (burst k (targets ++ [last]) st)
  = clearTimeout (debounceTimers st !! key) (timers st)
      ++ [mkTimer (nextTimer st + length targets) delay data] /\
  (fire (nextTimer st + length targets) (burst k (targets ++ [last]) st)).2
  = sendEvent data /\
  timers (fire (nextTimer st + length targets) (burst k (targets ++ [last]) st)).1
  = clearTimeout (debounceTimers st !! key) (timers st).
Proof.
  intros H1 H2 Hig Hwf Hd.
  destruct (burst_timers k H1 H2 targets last st key delay data Hig Hwf Hd)
    as (Ha & Hn & Ht).
  assert (Hbase : Forall (fun t => timer_id t < nextTimer st + length targets)
                    (clearTimeout (debounceTimers st !! key) (timers st))).
  { eapply Forall_impl; [apply clearTimeout_Forall; exact Hwf|].
    intros t Hlt. cbn in Hlt. lia. }
  split; [exact Ht|]. unfold fire. rewrite Ht, (find_last _ _ _ _ Hbase). cbn [fst snd].
  split; [reflexivity|]. cbn [timers].
  exact (clearTimeout_last _ _ _ _ Hbase).
Qed.

(** A burst of play, pause, seeked or ratechange events, not ignored, leaves
    one timer for the whole burst: the timers that were set stay, except the
    one set before under the same key; one timer is added, for the data of
    the last event of the burst; and when that timer fires exactly one video
    event is sent, carrying that data. *)
Theorem burst_sends_last_event_once
    (k : Kind) (targets : list Video) (last : Video) (st : Capture.State)
    (key : string) (delay : Z) (data : SyncData) :
  k <> KWaiting -> k <> KPlaying ->
  ignoreEvents (agent st) = false ->
  timersBelowNext st ->
  debounced k last (str_or (myNickname (agent st)) "You") = Some (key, delay, data) ->
  let st' := burst k (targets ++ [last]) st in
  let kept := clearTimeout (debounceTimers st !! key) (timers st) in
  let id := nextTimer st + length targets in
  timers st' = kept ++ [mkTimer id delay data] /\
  videoEvents (fire id st').2 = [data] /\
  timers (fire id st').1 = kept.
Proof.
  intros H1 H2 Hig Hwf Hd. cbv zeta.
  destruct (burst_fire k targets last st key delay data H1 H2 Hig Hwf Hd)
    as (Ht & Hf & Hk).
  split; [exact Ht|]. split; [rewrite Hf; reflexivity | exact Hk].
Qed.

Lemma attached_timersBelowNext : timersBelowNext attached.
Proof. constructor. Qed.

Lemma burst_sends_last_event_once_witness :
  KSeeked <> KWaiting /\ KSeeked <> KPlaying /\
  ignoreEvents (agent attached) = false /\
  timersBelowNext attached /\
  videoEvents
    (fire 2 (burst KSeeked [mkVideo 640 360 11 true 1; mkVideo 640 360 12 true 1;
                            mkVideo 640 360 13 true 1] attached)).2
  = [localData "seek" (Some 13%Q) None "You"].
Proof.
  split; [discriminate|]. split; [discriminate|]. split; [reflexivity|].
  split; [exact attached_timersBelowNext|].
  exact (proj1 (proj2 (burst_sends_last_event_once KSeeked
           [mkVideo 640 360 11 true 1; mkVideo 640 360 12 true 1]
           (mkVideo 640 360 13 true 1) attached "seek" DEBOUNCE_MS
           (localData "seek" (Some 13%Q) None "You")
           ltac:(discriminate) ltac:(discriminate) eq_refl
           attached_timersBelowNext eq_refl))).
Defined.

(** The first 'waiting' event, not ignored and not already buffering, sets
    one 500 ms timer for its position; every further 'waiting' event is
    dropped, so the timer keeps the first position, until a 'playing' event
    lowers the buffering flag again. *)
Theorem buffering_is_reported_once
    (first : Video) (more : list Video) (st : Capture.State) :
  ignoreEvents (agent st) = false ->
  isBuffering (agent st) = false ->
  let st1 := (onBuffering first st).1 in
  timers st1 = clearTimeout (debounceTimers st !! "buffer") (timers st)
                 ++ [mkTimer (nextTimer st) 500
                       (localData "buffering" (Some (currentTime first)) None
                          (str_or (myNickname (agent st)) "You"))] /\
  burst KWaiting more st1 = st1 /\
  forall target, isBuffering (agent (onPlaying target st1).1) = false.
Proof.
  intros Hig Hbuf. cbv zeta. unfold onBuffering. rewrite Hig, Hbuf. cbn.
  split; [reflexivity|]. split; [|reflexivity].
  induction more as [|v more IH]; [reflexivity|].
  cbn [burst fold_left handler]. unfold onBuffering at 2. cbn. rewrite Hig.
  cbn. exact IH.
Qed.

Lemma buffering_is_reported_once_witness :
  ignoreEvents (agent attached) = false /\
  isBuffering (agent attached) = false /\
  timer_data <$> timers (burst KWaiting [videoAt10; videoRateZero; videoAt10] attached)
  = [localData "buffering" (Some 10%Q) None "You"].
Proof.
  split; [reflexivity|]. split; [reflexivity|].
  pose proof (buffering_is_reported_once videoAt10 [videoRateZero; videoAt10] attached
                eq_refl eq_refl) as (Ht & Hb & _).
  change (burst KWaiting [videoAt10; videoRateZero; videoAt10] attached)
    with (burst KWaiting [videoRateZero; videoAt10] (onBuffering videoAt10 attached).1).
  rewrite Hb, Ht. reflexivity.
Defined.

(** *** Listeners *)

Lemma debounce_keeps key data delay st :
  agent (debounce key data delay st) = agent st /\
  listening (debounce key data delay st) = listening st.
Proof. split; reflexivity. Qed.

Lemma handler_keeps (k : Kind) (v : Video) (st : Capture.State) :
  listening (handler k v st).1 = listening st /\
  activeVideo (agent (handler k v st).1) = activeVideo (agent st) /\
  dom (agent (handler k v st).1) = dom (agent st).
Proof.
  destruct k; cbn;
    unfold onPlay, onPause, onSeeked, onRateChange, onBuffering, onPlaying, capture;
    destruct (ignoreEvents (agent st)); cbn; auto;
    destruct (isBuffering (agent st)); cbn; auto.
Qed.

Lemma scanLargest_areas (vs ws : list Video) :
  area <$> vs = area <$> ws ->
  forall k acc, scanLargest vs k acc = scanLargest ws k acc.
Proof.
  revert ws. induction vs as [|v vs IH]; intros [|w ws] H k acc;
    cbn in *; try discriminate; [reflexivity|].
  injection H as Hv Hrest. rewrite Hv. apply IH. exact Hrest.
Qed.

Lemma findPrimaryVideo_areas (vs ws : list Video) :
  area <$> vs = area <$> ws -> findPrimaryVideo vs = findPrimaryVideo ws.
Proof.
  intros H. destruct vs as [|v vs], ws as [|w ws]; cbn in H; try discriminate;
    [reflexivity|].
  unfold findPrimaryVideo. rewrite (scanLargest_areas (v :: vs) (w :: ws) H).
  reflexivity.
Qed.

Lemma attach_listensToBound i st :
  listensToBound st -> listensToBound (attachVideoListeners i st).
Proof.
  intros H x Hx. unfold attachVideoListeners in *.
  destruct (activeVideo (agent st)) as [j|] eqn:Ea.
  - destruct (Nat.eqb j i) eqn:E.
    + rewrite Ea. apply H in Hx. congruence.
    + cbn in *. apply elem_of_union in Hx. destruct Hx as [Hx | Hx].
      * apply elem_of_singleton in Hx. congruence.
      * apply elem_of_difference in Hx. destruct Hx as [Hx Hne].
        apply H in Hx. exfalso. apply Hne. apply elem_of_singleton. congruence.
  - cbn in *. apply elem_of_union in Hx. destruct Hx as [Hx | Hx].
    + apply elem_of_singleton in Hx. congruence.
    + apply H in Hx. congruence.
Qed.

Lemma step_listensToBound e st :
  listensToBound st -> listensToBound (step e st).1.
Proof.
  intros H. destruct e; cbn [step].
  - destruct (dom (agent st) !! i) as [target|]; [|exact H].
    destruct (bool_decide _); [|exact H].
    destruct (handler_keeps k target st) as (Hl & Ha & _).
    intros x Hx. rewrite Hl in Hx. rewrite Ha. exact (H x Hx).
  - cbn. unfold onMutation. destruct (findPrimaryVideo _) as [i|]; [|exact H].
    destruct (activeVideo (agent st)) as [j|] eqn:Ea;
      [destruct (Nat.eqb j i); [exact H|]|]; apply attach_listensToBound; exact H.
  - cbn [fst]. intros x Hx. cbn [listening with_agent] in Hx.
    pose proof (H x Hx) as Hb. cbn [agent with_agent].
    pose proof (applySync_agent data from (agent st)) as [_ Hag]. cbv zeta in Hag.
    rewrite Hb in Hag. exact (proj1 Hag).
  - unfold fire. destruct (List.find _ _); [|exact H]. exact H.
  - exact H.
  - exact H.
Qed.

Lemma pageStep_listensToBound e st :
  listensToBound st -> listensToBound (pageStep e st).1.
Proof.
  intros H. destruct e as [e | v | i w h].
  - exact (step_listensToBound e st H).
  - exact H.
  - exact H.
Qed.

(** Whatever happens to a content script after it has loaded, on a page
    whose elements come and change size, the listeners are on the bound
    element and on no other: when the observer's callback binds another
    element the listeners move with the binding, and the agent never listens
    to two elements, nor to one it is not bound to. *)
Theorem listeners_only_on_bound_element
    (page : list Video) (url : string) (es : list PageEvent) :
  let st := (pageSteps es (initialDetection (loaded page url))).1 in
  (forall i, i ∈ listening st -> activeVideo (agent st) = Some i) /\
  size (listening st) <= 1.
Proof.
  cbv zeta.
  assert (Hinit : listensToBound (initialDetection (loaded page url))).
  { unfold initialDetection. destruct (findPrimaryVideo _); [apply attach_listensToBound|];
      intros x Hx; cbn in Hx; apply elem_of_empty in Hx; destruct Hx. }
  assert (Hall : listensToBound (pageSteps es (initialDetection (loaded page url))).1).
  { generalize dependent (initialDetection (loaded page url)).
    induction es as [|e es IH]; intros st Hst; [exact Hst|].
    cbn [pageSteps]. pose proof (pageStep_listensToBound e st Hst) as H1.
    destruct (pageStep e st) as [st1 o1]. specialize (IH st1 H1).
    destruct (pageSteps es st1) as [st2 o2]. exact IH. }
  split; [exact Hall|].
  set (st := (pageSteps es _).1) in *.
  destruct (activeVideo (agent st)) as [j|] eqn:Ea.
  - assert (Hsub : listening st ⊆ {[j]}).
    { intros x Hx. apply elem_of_singleton. apply Hall in Hx. congruence. }
    apply subseteq_size in Hsub. rewrite size_singleton in Hsub. exact Hsub.
  - assert (Hemp : listening st = ∅).
    { apply set_eq. intros x. split; [|intros Hx; apply elem_of_empty in Hx; destruct Hx].
      intros Hx. apply Hall in Hx. congruence. }
    rewrite Hemp, size_empty. lia.
Qed.

(** On a page with one element to which a larger one is added: the agent
    first listens to element 0, and once the observer's callback has run it
    is bound to element 1 and listens to it alone, so that the 'pause' of
    element 1 is captured. *)
Lemma listeners_only_on_bound_element_witness :
  let before := initialDetection (loaded [videoAt10] "https://example.org/watch") in
  let after := (pageSteps largerElementArrives before).1 in
  listening before = {[ 0 ]} /\
  listening after = {[ 1 ]} /\
  activeVideo (agent after) = Some 1 /\
  length (timers after) = 1 /\
  size (listening after) <= 1.
Proof.
  cbv zeta.
  split; [vm_compute; reflexivity|]. split; [vm_compute; reflexivity|].
  split; [reflexivity|]. split; [reflexivity|].
  exact (proj2 (listeners_only_on_bound_element [videoAt10] "https://example.org/watch"
                  largerElementArrives)).
Defined.

Lemma step_boundUnheard i e st :
  boundUnheard i st -> boundUnheard i (step e st).1 /\ (step e st).2 = [].
Proof.
  intros (Hl & Ht & Ha & Hf). destruct e; cbn [step].
  - destruct (dom (agent st) !! i0); [|repeat split; assumption].
    rewrite Hl. rewrite bool_decide_eq_false_2 by (apply not_elem_of_empty).
    repeat split; assumption.
  - cbn. unfold onMutation. rewrite Hf, Ha, Nat.eqb_refl. repeat split; assumption.
  - unfold boundUnheard. cbn [fst snd agent with_agent listening timers].
    pose proof (applySync_agent data from (agent st)) as [Hareas Hag].
    cbv zeta in *. rewrite Ha in Hag.
    split; [|reflexivity]. split; [exact Hl|]. split; [exact Ht|].
    split; [exact (proj1 Hag)|].
    rewrite (findPrimaryVideo_areas _ _ Hareas). exact Hf.
  - unfold fire. rewrite Ht. cbn. repeat split; assumption.
  - cbn. repeat split; assumption.
  - cbn. repeat split; assumption.
Qed.

(** When the first thing to bind the page's primary element is a remote
    event (nothing was bound, nothing listened to), the agent stays deaf to
    that element: as long as the page's elements stay the same ones, the
    observer's callback finds the primary element already bound and attaches
    nothing, so no media event of it is ever captured, and media events,
    observer callbacks, remote events and timers never lead to a video
    event being sent. *)
Theorem element_bound_by_remote_is_never_heard
    (st : Capture.State) (i : nat) (data : SyncData) (from : option string)
    (es : list Capture.Event) :
  activeVideo (agent st) = None ->
  listening st = ∅ ->
  timers st = [] ->
  findPrimaryVideo (dom (agent st)) = Some i ->
  let r := steps (Remote data from :: es) st in
  activeVideo (agent r.1) = Some i /\
  listening r.1 = ∅ /\
  r.2 = [].
Proof.
  intros Ha Hl Ht Hf. cbv zeta.
  assert (H1 : boundUnheard i (step (Remote data from) st).1).
  { unfold boundUnheard. cbn [step fst snd agent with_agent listening timers].
    pose proof (applySync_agent data from (agent st)) as [Hareas Hag].
    cbv zeta in *. rewrite Ha, Hf in Hag.
    split; [exact Hl|]. split; [exact Ht|]. split; [exact (proj1 Hag)|].
    rewrite (findPrimaryVideo_areas _ _ Hareas). exact Hf. }
  cbn [steps]. change (step (Remote data from) st)
    with ((step (Remote data from) st).1, @nil Out).
  generalize dependent (step (Remote data from) st).1. clear.
  intros st1 H1.
  assert (Hall : boundUnheard i (steps es st1).1 /\ (steps es st1).2 = []).
  { revert st1 H1. induction es as [|e es IH]; intros st1 H1; [split; [exact H1|reflexivity]|].
    cbn [steps]. destruct (step_boundUnheard i e st1 H1) as [H2 Ho].
    destruct (step e st1) as [st2 o2]. cbn in H2, Ho. subst o2.
    specialize (IH st2 H2). destruct (steps es st2) as [st3 o3]. exact IH. }
  destruct (steps es st1) as [st2 o2]. cbn in *.
  destruct Hall as [(Hl & _ & Ha & _) Ho]. subst o2. auto.
Qed.

Lemma element_bound_by_remote_is_never_heard_witness :
  activeVideo (agent (loaded [videoAt10] "https://example.org/watch")) = None /\
  findPrimaryVideo (dom (agent (loaded [videoAt10] "https://example.org/watch"))) = Some 0 /\
  (steps [Remote (playAt 12) None; Mutation; ClearIgnore; Media 0 KPause; Fire 0]
         (loaded [videoAt10] "https://example.org/watch")).2 = [].
Proof.
  split; [reflexivity|]. split; [reflexivity|].
  exact (proj2 (proj2 (element_bound_by_remote_is_never_heard
           (loaded [videoAt10] "https://example.org/watch") 0 (playAt 12) None
           [Mutation; ClearIgnore; Media 0 KPause; Fire 0]
           eq_refl eq_refl eq_refl eq_refl))).
Defined.

(** With the observer's callback first, the same pause is captured. *)
Example element_bound_by_observer_is_heard :
  videoEvents
    (steps [Mutation; Remote (playAt 12) None; ClearIgnore; Media 0 KPause; Fire 0]
           (loaded [videoAt10] "https://example.org/watch")).2
  = [localData "pause" (Some 12%Q) None "You"].
Proof. vm_compute. reflexivity. Qed.

End CaptureProperties.

Section ReconciliationPolicy.
Import Content.

#[local] Arguments setCurrentTime : simpl never.
#[local] Arguments setPlaybackRate : simpl never.
#[local] Arguments play : simpl never.
#[local] Arguments pause : simpl never.

Ltac step_element :=
  repeat first
    [ erewrite setCurrentTime_run by eauto using lookup_with_dom, lookup_entered
    | erewrite setPlaybackRate_run by eauto using lookup_with_dom, lookup_entered
    | erewrite play_run by eauto using lookup_with_dom, lookup_entered
    | erewrite pause_run by eauto using lookup_with_dom, lookup_entered ].

Lemma eqb_false_of_ne (a b : string) : a <> b -> String.eqb a b = false.
Proof. intros H. apply String.eqb_neq. exact H. Qed.

(** An event whose type is none of play, pause, seek, speed, buffering and
    sync-response never touches the media element: applySync completes,
    issues no operation on the element and leaves every element of the page
    as it was.  A chat event is handed to the chat display and nothing else
    happens; a sync-request is answered and nothing else happens. *)
Theorem other_events_leave_element_alone
    (data : SyncData) (from : option string) (s : Agent) (i : nat) (v : Video) :
  available s i v ->
  type data <> "play" -> type data <> "pause" -> type data <> "seek" ->
  type data <> "speed" -> type data <> "buffering" -> type data <> "sync-response" ->
  let o := run (applySync data from) s in
  completed o = true /\
  videoOps (outLog o) = [] /\
  dom (outAgent o) = dom s /\
  (type data = "chat" ->
     outLog o = [ShowChat (nickname data) (message data); ClearIgnoreAfter 200]) /\
  (type data <> "chat" -> type data <> "sync-request" ->
     outLog o = [ClearIgnoreAfter 200]).
Proof.
  intros Hav H1 H2 H3 H4 H5 H6. cbv zeta.
  rewrite (applySync_available data from s i v Hav). unfold applySwitch.
  rewrite (eqb_false_of_ne _ _ H1), (eqb_false_of_ne _ _ H2), (eqb_false_of_ne _ _ H3),
    (eqb_false_of_ne _ _ H4), (eqb_false_of_ne _ _ H5), (eqb_false_of_ne _ _ H6).
  destruct (String.eqb (type data) "sync-request") eqn:Er.
  - apply String.eqb_eq in Er. cbn.
    split; [reflexivity|]. split; [reflexivity|]. split; [reflexivity|].
    split; intros; congruence.
  - destruct (String.eqb (type data) "chat") eqn:Ec; cbn.
    + apply String.eqb_eq in Ec.
      split; [reflexivity|]. split; [reflexivity|]. split; [reflexivity|].
      split; [reflexivity | intros; congruence].
    + apply String.eqb_neq in Ec.
      split; [reflexivity|]. split; [reflexivity|]. split; [reflexivity|].
      split; [intros; congruence | reflexivity].
Qed.

Lemma other_events_leave_element_alone_witness :
  available agentAt10 0 videoAt10 /\
  outLog (run (applySync (mkData "chat" None None None (Some "Ann") (Some "hello") None)
                 None) agentAt10)
  = [ShowChat (Some "Ann") (Some "hello"); ClearIgnoreAfter 200].
Proof.
  split; [exact available_agentAt10|].
  exact (proj1 (proj2 (proj2 (proj2
           (other_events_leave_element_alone
              (mkData "chat" None None None (Some "Ann") (Some "hello") None)
              None agentAt10 0 videoAt10 available_agentAt10
              ltac:(discriminate) ltac:(discriminate) ltac:(discriminate)
              ltac:(discriminate) ltac:(discriminate) ltac:(discriminate)))))
           eq_refl).
Defined.

(** seek, speed and buffering are applied whatever the local position: a
    seek carrying [t] seeks to [t] even within the 0.5 s threshold, a speed
    event carrying [r] assigns rate [r], and a buffering event pauses; each
    issues that one operation on the element and nothing else on it. *)
Theorem seek_speed_buffering_are_unconditional
    (data : SyncData) (from : option string) (s : Agent) (i : nat) (v : Video) :
  available s i v ->
  let o := run (applySync data from) s in
  (forall t, type data = "seek" -> time data = Some t ->
     completed o = true /\ videoOps (outLog o) = [Seek t] /\
     boundVideo (outAgent o) = Some (setTime t v)) /\
  (forall r, type data = "speed" -> speed data = Some r ->
     completed o = true /\ videoOps (outLog o) = [SetRate r] /\
     boundVideo (outAgent o) = Some (setSpeed r v)) /\
  (type data = "buffering" ->
     completed o = true /\ videoOps (outLog o) = [Pause] /\
     boundVideo (outAgent o) = Some (setPaused true v)).
Proof.
  intros Hav. pose proof Hav as [_ Hv].
  assert (Hlen : i < length (dom s)) by (eapply lookup_lt_Some; eauto).
  cbv zeta. rewrite (applySync_available data from s i v Hav). unfold applySwitch.
  split; [|split].
  - intros t Hty Ht. rewrite Hty, Ht. cbn. unfold bind, emit. step_element. cbn.
    repeat split. unfold boundVideo. cbn. apply list_lookup_insert_eq. exact Hlen.
  - intros r Hty Hr. rewrite Hty, Hr. cbn. unfold bind, emit. step_element. cbn.
    repeat split. unfold boundVideo. cbn. apply list_lookup_insert_eq. exact Hlen.
  - intros Hty. rewrite Hty. cbn. unfold bind, emit. step_element. cbn.
    repeat split. unfold boundVideo. cbn. apply list_lookup_insert_eq. exact Hlen.
Qed.

Lemma seek_speed_buffering_are_unconditional_witness :
  available agentAt10 0 videoAt10 /\
  videoOps (outLog (run (applySync (mkData "seek" (Some (101 # 10)) None None None None None)
                           None) agentAt10))
  = [Seek (101 # 10)].
Proof.
  split; [exact available_agentAt10|].
  exact (proj1 (proj2 (proj1 (seek_speed_buffering_are_unconditional
           (mkData "seek" (Some (101 # 10)) None None None None None)
           None agentAt10 0 videoAt10 available_agentAt10)
           (101 # 10) eq_refl eq_refl))).
Defined.

(** Subtracting zero from a binary64 value gives that value. *)
Lemma minus_zero (c : Q) : isDouble c -> (Qabs (numSub c 0) == Qabs c)%Q.
Proof.
  intros Hc. apply Qabs_wd. unfold numSub.
  rewrite (roundDouble_eq (c - 0) c), Hc; [apply Qred_correct|].
  unfold Qminus. change (- 0)%Q with 0%Q. apply Qplus_0_r.
Qed.

(** An event that lacks the number it is applied with makes applySync
    throw before it touches the element: a seek or sync-response without a
    time, a speed event without a speed, and a play or pause without a time
    when the local position (a binary64 value, as every position of an
    element is) is more than 0.5 s from zero.  The element is as
    it was, nothing has been issued or scheduled, and the echo-suppression
    flag is left raised with no timer to lower it. *)
Theorem event_without_its_number_throws
    (data : SyncData) (from : option string) (s : Agent) (i : nat) (v : Video) :
  available s i v ->
  ((type data = "seek" \/ type data = "sync-response") /\ time data = None) \/
  (type data = "speed" /\ speed data = None) \/
  ((type data = "play" \/ type data = "pause") /\ time data = None /\
   isDouble (currentTime v) /\ (SYNC_THRESHOLD < Qabs (currentTime v))%Q) ->
  let o := run (applySync data from) s in
  completed o = false /\
  outLog o = [] /\
  dom (outAgent o) = dom s /\
  ignoreEvents (outAgent o) = true.
Proof.
  intros Hav Hcase. cbv zeta.
  rewrite (applySync_available data from s i v Hav). unfold applySwitch.
  destruct Hcase as [[[Hty | Hty] Ht] | [[Hty Hsp] | [[Hty | Hty] (Ht & Hdbl & Hfar)]]];
    rewrite Hty; try rewrite Ht; try rewrite Hsp; cbn [String.eqb Ascii.eqb Bool.eqb];
    try (cbn; repeat split; fail).
  - assert (Hg : Qgtb (Qabs (numSub (currentTime v) (num_or None 0))) SYNC_THRESHOLD = true).
    { apply Qgtb_true. cbn [num_or]. rewrite (minus_zero (currentTime v) Hdbl). exact Hfar. }
    rewrite Hg. cbn. repeat split.
  - assert (Hg : Qgtb (Qabs (numSub (currentTime v) (num_or None 0))) SYNC_THRESHOLD = true).
    { apply Qgtb_true. cbn [num_or]. rewrite (minus_zero (currentTime v) Hdbl). exact Hfar. }
    rewrite Hg. cbn. repeat split.
Qed.

Lemma event_without_its_number_throws_witness :
  available agentAt10 0 videoAt10 /\
  (type (blankData "seek") = "seek" \/ type (blankData "seek") = "sync-response") /\
  time (blankData "seek") = None /\
  completed (run (applySync (blankData "seek") None) agentAt10) = false /\
  ignoreEvents (outAgent (run (applySync (blankData "seek") None) agentAt10)) = true.
Proof.
  split; [exact available_agentAt10|].
  split; [left; reflexivity|]. split; [reflexivity|].
  pose proof (event_without_its_number_throws (blankData "seek") None agentAt10 0 videoAt10
                available_agentAt10 (or_introl (conj (or_introl eq_refl) eq_refl)))
    as (H1 & _ & _ & H4).
  split; [exact H1 | exact H4].
Defined.

End ReconciliationPolicy.

Section PresentationProperties.
Import Presentation.

Lemma removeElement_absent x l : x ∉ l -> removeElement x l = l.
Proof.
  unfold removeElement.
  induction l as [|y l IH]; intros H; cbn; [reflexivity|].
  apply not_elem_of_cons in H. destruct H as [Hne Hl].
  replace (Nat.eqb y x) with false by (symmetry; apply Nat.eqb_neq; congruence).
  cbn. rewrite IH by exact Hl. reflexivity.
Qed.

Lemma removeElement_head x l : x ∉ l -> removeElement x (x :: l) = l.
Proof.
  intros H. pose proof (removeElement_absent x l H) as Hl.
  unfold removeElement in *. cbn. rewrite Nat.eqb_refl. cbn. exact Hl.
Qed.

Lemma removeElement_length x l : length (removeElement x l) <= length l.
Proof.
  unfold removeElement.
  induction l as [|y l IH]; cbn; [lia|]. destruct (negb _); cbn; lia.
Qed.

Lemma removeElement_elem x y l : y ∈ removeElement x l -> y ∈ l.
Proof.
  unfold removeElement. rewrite !list_elem_of_In, filter_In. tauto.
Qed.

Lemma removeElement_NoDup x l : NoDup l -> NoDup (removeElement x l).
Proof.
  induction 1 as [|y l Hy Hl IH]; [constructor|].
  unfold removeElement in *. cbn.
  destruct (negb _); [|exact IH]. constructor; [|exact IH].
  intros H. apply Hy. eapply (removeElement_elem x); exact H.
Qed.

Lemma removeElement_Forall (P : nat -> Prop) x l :
  Forall P l -> Forall P (removeElement x l).
Proof.
  induction 1 as [|y l Hy Hl IH]; [constructor|].
  unfold removeElement in *. cbn.
  destruct (negb _); [constructor; assumption | exact IH].
Qed.

(** The loop, given enough fuel, keeps the last five. *)
Lemma trimChat_drop fuel :
  forall l, length l <= fuel + 5 -> trimChat fuel l = drop (length l - 5) l.
Proof.
  induction fuel as [|fuel IH]; intros l Hl; cbn [trimChat].
  - replace (length l - 5) with 0 by lia. reflexivity.
  - destruct (5 <? length l)%nat eqn:E.
    + apply Nat.ltb_lt in E. destruct l as [|x l]; [cbn in E; lia|].
      cbn [tl]. rewrite IH by (cbn in Hl; lia). cbn [length].
      replace (S (length l) - 5) with (S (length l - 5)) by (cbn in E; lia).
      reflexivity.
    + apply Nat.ltb_ge in E. replace (length l - 5) with 0 by lia. reflexivity.
Qed.

Lemma showToast_tidy st : tidy st -> tidy (showToast st).
Proof.
  intros (Hui & Hlen & Hnd & Hlt & Hchat). unfold showToast. rewrite Hui.
  assert (Hfresh : nextElement st ∉ toastStack st).
  { intros Hin. rewrite Forall_forall in Hlt. specialize (Hlt _ Hin). lia. }
  assert (Hnd' : NoDup (toastStack st ++ [nextElement st])).
  { apply NoDup_app. split; [exact Hnd|]. split; [|apply NoDup_singleton].
    intros x Hx Hx'. apply list_elem_of_singleton in Hx'. subst x. exact (Hfresh Hx). }
  assert (Hlt' : Forall (fun t => t < S (nextElement st)) (toastStack st ++ [nextElement st])).
  { apply Forall_app. split; [|constructor; [lia | constructor]].
    eapply Forall_impl; [exact Hlt|]. intros x Hx. cbn in Hx. lia. }
  destruct (4 <? length (toastStack st ++ [nextElement st]))%nat eqn:E.
  - apply Nat.ltb_lt in E. rewrite length_app in E. cbn in E.
    destruct (toastStack st ++ [nextElement st]) as [|oldest rest] eqn:Es.
    { destruct (toastStack st); discriminate Es. }
    apply NoDup_cons in Hnd'. destruct Hnd' as [Hout Hrest].
    apply Forall_cons in Hlt'. destruct Hlt' as [_ Hlt'].
    assert (Hl : length rest = length (toastStack st)).
    { apply (f_equal length) in Es. rewrite length_app in Es. cbn in Es. lia. }
    unfold tidy. cbn [uiChildren toastStack chatChildren nextElement].
    rewrite (removeElement_head oldest rest Hout).
    repeat split; try assumption; lia.
  - apply Nat.ltb_ge in E. rewrite length_app in E. cbn in E.
    unfold tidy. cbn [uiChildren toastStack chatChildren nextElement].
    rewrite length_app. cbn [length]. repeat split; try assumption; lia.
Qed.

Lemma apply_tidy o st : tidy st -> tidy (apply o st).
Proof.
  intros H. destruct o; cbn [apply].
  - apply showToast_tidy. exact H.
  - destruct H as (Hui & Hlen & Hnd & Hlt & Hchat). unfold tidy, expireToast. cbn.
    rewrite Hui. split; [reflexivity|].
    split; [pose proof (removeElement_length t (toastStack st)); lia|].
    split; [apply removeElement_NoDup; exact Hnd|].
    split; [apply removeElement_Forall; exact Hlt | exact Hchat].
  - destruct H as (Hui & Hlen & Hnd & Hlt & Hchat). unfold tidy, showChatMessage. cbn.
    split; [exact Hui|]. split; [exact Hlen|]. split; [exact Hnd|].
    split; [eapply Forall_impl; [exact Hlt|]; intros x Hx; cbn in Hx; lia|].
    rewrite trimChat_drop by lia. rewrite length_drop. lia.
  - destruct H as (Hui & Hlen & Hnd & Hlt & Hchat). unfold tidy, expireChat. cbn.
    split; [exact Hui|]. split; [exact Hlen|]. split; [exact Hnd|].
    split; [exact Hlt|].
    pose proof (removeElement_length m (chatChildren st)). lia.
Qed.

Lemma applyAll_tidy ops : forall st, tidy st -> tidy (applyAll ops st).
Proof.
  induction ops as [|o ops IH]; intros st H; [exact H|].
  cbn. apply IH. apply apply_tidy. exact H.
Qed.

Lemma initial_tidy : tidy Presentation.initial.
Proof.
  unfold tidy. cbn. repeat split; try lia; constructor.
Qed.

(** However toasts and chat messages come and expire, the page shows at
    most four toasts, exactly those of the toast stack, and at most five chat
    messages; a new toast, and a new chat message, is always shown, as the
    last one. *)
Theorem page_shows_bounded_toasts_and_messages (ops : list Op) :
  let st := applyAll ops Presentation.initial in
  length (uiChildren st) <= 4 /\
  uiChildren st = toastStack st /\
  length (chatChildren st) <= 5 /\
  last (uiChildren (showToast st)) = Some (nextElement st) /\
  last (chatChildren (showChatMessage st)) = Some (nextElement st).
Proof.
  cbv zeta. pose proof (applyAll_tidy ops _ initial_tidy) as Ht.
  set (st := applyAll ops Presentation.initial) in *.
  pose proof (showToast_tidy st Ht) as Ht'.
  destruct Ht as (Hui & Hlen & Hnd & Hlt & Hchat).
  split; [rewrite Hui; exact Hlen|]. split; [exact Hui|]. split; [exact Hchat|].
  split.
  - destruct Ht' as (Hui' & _). rewrite Hui'. unfold showToast.
    destruct (4 <? length (toastStack st ++ [nextElement st]))%nat eqn:E.
    + destruct (toastStack st) as [|o rest] eqn:Es; [cbn in E; discriminate|].
      cbn. rewrite last_snoc. reflexivity.
    + cbn. rewrite last_snoc. reflexivity.
  - unfold showChatMessage. cbn [chatChildren].
    rewrite trimChat_drop by lia.
    rewrite length_app. cbn [length].
    destruct (decide (length (chatChildren st) + 1 - 5 = 0)) as [H0 | H0].
    + rewrite H0. cbn [drop]. apply last_snoc.
    + rewrite <- (take_drop (length (chatChildren st) + 1 - 5) (chatChildren st)) at 2.
      rewrite <- app_assoc.
      rewrite drop_app_length'; [apply last_snoc|].
      rewrite length_take. lia.
Qed.

End PresentationProperties.

Section CoordinatorAndRouting.
Import Offscreen Lifecycle.

(** Whatever handler of the manager sends a peer-joined or peer-left
    notification, the coordinator sets the badge to the number of links the
    Map holds once the handler has run: the participants other than this
    one.  For any peer-left count, even below one, the badge never shows a
    negative number. *)
Theorem badge_shows_links_in_map
    (s s' : Offscreen.State) (e : Event) (out : list Offscreen.Effect)
    (msg : BgMsg) (n : Z) (tab : bool) (bg : Background.State) :
  dispatch e s = Some (s', out) ->
  In msg (notices out) -> noticeCount msg = Some n ->
  In (Background.UpdateBadge (Background.numberToString (count (connections s')))
                             Background.defaultColor)
     (Background.handleOffscreenMessage msg tab bg).2 /\
  forall id k,
    In (Background.UpdateBadge (Background.numberToString (Z.max 0 (k - 1)))
                               Background.defaultColor)
       (Background.handleOffscreenMessage (PeerLeft id k) tab bg).2.
Proof.
  intros Hd Hin Hn.
  pose proof (dispatch_notice_count e s s' out msg n Hd Hin Hn) as Hcount.
  assert (Hpos : (0 <= count (connections s'))%Z) by (unfold count; lia).
  split.
  - destruct msg; try discriminate; cbn in Hn; injection Hn as ->; cbn; left.
    + f_equal. f_equal. lia.
    + destruct (1 <? n)%Z eqn:E.
      * f_equal. f_equal. lia.
      * apply Z.ltb_ge in E. replace (count (connections s')) with 0%Z by lia.
        reflexivity.
  - intros id k. cbn. left. destruct (1 <? k)%Z eqn:E.
    + apply Z.ltb_lt in E. f_equal. f_equal. lia.
    + apply Z.ltb_ge in E. replace (Z.max 0 (k - 1)) with 0%Z by lia. reflexivity.
Qed.

Lemma badge_shows_links_in_map_witness :
  exists s' out,
    dispatch (EvClose 1) hostState = Some (s', out) /\
    In (PeerLeft "bob" 3) (notices out) /\
    In (Background.UpdateBadge "2" Background.defaultColor)
       (Background.handleOffscreenMessage (PeerLeft "bob" 3) true Background.initial).2.
Proof.
  destruct (dispatch (EvClose 1) hostState) as [[s' out]|] eqn:E;
    [|vm_compute in E; discriminate E].
  assert (Hout : notices out = [PeerLeft "bob" 3]).
  { vm_compute in E. injection E as _ <-. reflexivity. }
  assert (Hin : In (PeerLeft "bob" 3) (notices out)) by (rewrite Hout; left; reflexivity).
  exists s', out. split; [reflexivity|]. split; [exact Hin|].
  exact (proj2 (badge_shows_links_in_map hostState s' (EvClose 1) out
                  (PeerLeft "bob" 3) 3 true Background.initial E Hin eq_refl)
           "bob" 3%Z).
Defined.

Lemma notices_relay (data : SyncData) (l : list (string * nat)) :
  notices ((fun kv => ConnSend kv.2 data) <$> l) = [].
Proof. induction l as [|kv l IH]; cbn; [reflexivity | exact IH]. Qed.

(** What arrives on a link reaches the agent of the active tab as it is:
    through the manager's data handler and the coordinator, exactly one
    applySync runs there, on the data as received and the sender's peer id;
    when no tab is active the data is dropped and the agent is untouched. *)
Theorem link_data_is_applied_on_active_tab
    (m : Offscreen.State) (c : DataConnection) (data : SyncData)
    (bg : Background.State) (a : Content.Agent) :
  let out := (onData c data m).2 in
  let o := Content.run (Content.applySync data (Some (conn_peer c))) a in
  Routing.inbound out true bg a = (Content.outAgent o, Content.outLog o) /\
  Routing.inbound out false bg a = (a, []).
Proof.
  cbv zeta. unfold Routing.inbound, onData. cbn [snd notices].
  assert (Hn : notices (if isHost m && (1 <? size (connections m))%nat
                        then (fun kv => ConnSend kv.2 data) <$> relayTargets (conn_peer c) m
                        else []) = []).
  { destruct (isHost m && _); [apply notices_relay | reflexivity]. }
  rewrite Hn. cbn. rewrite app_nil_r. split; reflexivity.
Qed.

(** The answer to a sync-request goes out on every link: when the agent of
    a page whose element is at position [currentTime v], rate
    [playbackRate v], answers a sync-request, what the manager (in any
    reachable state) then sends is that answer, once on each link of its
    Map. *)
Theorem catch_up_answer_goes_on_every_link
    (req : SyncData) (from : option string) (a : Content.Agent)
    (i : nat) (v : Content.Video) (m : Offscreen.State) :
  type req = "sync-request" ->
  Content.available a i v ->
  reachable m ->
  let answer := {| type := "sync-response";
                   time := Some (Content.currentTime v);
                   speed := Some (Content.playbackRate v);
                   playing := Some (negb (Content.paused v));
                   nickname := None; message := None;
                   url := Some (Content.href a) |} in
  let out := Routing.outbound
               (Content.outLog (Content.run (Content.applySync req from) a)) m in
  sends out = (fun kv => (kv.2, answer)) <$> map_to_list (connections m) /\
  (forall id r, connections m !! id = Some r -> (r, answer) ∈ sends out).
Proof.
  intros Hty Hav Hr. cbv zeta.
  rewrite (applySync_request req from a i v Hty Hav).
  unfold Routing.outbound. cbn. rewrite !app_nil_r.
  pose proof (reachable_consistent m Hr) as Hs.
  unfold broadcast. rewrite (broadcast_targets_consistent m Hs), sends_fmap.
  split; [reflexivity|].
  intros id r Hl. apply list_elem_of_fmap. exists (id, r).
  split; [reflexivity|]. apply elem_of_map_to_list. exact Hl.
Qed.

Lemma catch_up_answer_goes_on_every_link_witness :
  type Content.syncRequest = "sync-request" /\
  Content.available Content.agentAt10 0 Content.videoAt10 /\
  reachable hostState /\
  length (sends (Routing.outbound
                   (Content.outLog (Content.run (Content.applySync Content.syncRequest None)
                                      Content.agentAt10)) hostState)) = 3.
Proof.
  split; [reflexivity|]. split; [exact available_agentAt10|].
  split; [exact hostState_reachable|].
  rewrite (proj1 (catch_up_answer_goes_on_every_link Content.syncRequest None
                    Content.agentAt10 0 Content.videoAt10 hostState
                    eq_refl available_agentAt10 hostState_reachable)).
  reflexivity.
Defined.

(** From a burst on the page to the wire: a burst of play, pause, seeked or
    ratechange events on a listened element, not ignored, ends in exactly one
    message per link of the manager's Map (in any reachable state of the
    manager), each carrying the data of the last event of the burst. *)
Theorem burst_reaches_each_link_once
    (k : Capture.Kind) (targets : list Content.Video) (last : Content.Video)
    (st : Capture.State) (key : string) (delay : Z) (data : SyncData)
    (m : Offscreen.State) :
  k <> Capture.KWaiting -> k <> Capture.KPlaying ->
  Content.ignoreEvents (Capture.agent st) = false ->
  Capture.timersBelowNext st ->
  Capture.debounced k last (str_or (Content.myNickname (Capture.agent st)) "You")
    = Some (key, delay, data) ->
  reachable m ->
  let fired := Capture.fire (Capture.nextTimer st + length targets)
                 (Capture.burst k (targets ++ [last]) st) in
  sends (Routing.outboundCaptured fired.2 m)
  = (fun kv => (kv.2, data)) <$> map_to_list (connections m).
Proof.
  intros H1 H2 Hig Hwf Hd Hr. cbv zeta.
  destruct (burst_fire k targets last st key delay data H1 H2 Hig Hwf Hd)
    as (_ & Hf & _).
  rewrite Hf. unfold Routing.outboundCaptured. cbn. rewrite !app_nil_r.
  unfold broadcast.
  rewrite (broadcast_targets_consistent m (reachable_consistent m Hr)), sends_fmap.
  reflexivity.
Qed.

Lemma burst_reaches_each_link_once_witness :
  Capture.KPause <> Capture.KWaiting /\ Capture.KPause <> Capture.KPlaying /\
  Content.ignoreEvents (Capture.agent Capture.attached) = false /\
  Capture.timersBelowNext Capture.attached /\
  reachable hostState /\
  length (sends (Routing.outboundCaptured
                   (Capture.fire 1 (Capture.burst Capture.KPause
                                      [Content.videoAt10; Content.videoRateZero]
                                      Capture.attached)).2 hostState)) = 3.
Proof.
  split; [discriminate|]. split; [discriminate|]. split; [reflexivity|].
  split; [exact attached_timersBelowNext|]. split; [exact hostState_reachable|].
  pose proof (burst_reaches_each_link_once Capture.KPause [Content.videoAt10]
             Content.videoRateZero Capture.attached "pause" Content.DEBOUNCE_MS
             (Capture.localData "pause" (Some (423 # 10)%Q) None "You") hostState
             ltac:(discriminate) ltac:(discriminate) eq_refl
             attached_timersBelowNext eq_refl hostState_reachable) as H.
  apply (f_equal length) in H. exact H.
Defined.

(** After a create-session round trip the coordinator agrees with the
    manager when it succeeded and not when it failed.  On success its code,
    role and peer count are those getStatus reports: a connected host of
    one.  On a failure it keeps its state and answers the failure, while the
    manager keeps the code and the host role of the attempt that failed; and
    when that attempt ended in the 15-second timeout the manager goes on
    reporting connected = true with one participant. *)
Theorem coordinator_after_create_session
    (s s' : Offscreen.State) (fuel : nat) (rnd : nat -> Q)
    (init : nat -> InitOutcome) (out : list Offscreen.Effect) (r : Response)
    (bg : Background.State) :
  reachable s ->
  createSession fuel rnd init 0 s = Some (s', out, r) ->
  let bg' := (Background.handleCreateSession (inl r) bg).1 in
  Background.responses (Background.handleCreateSession (inl r) bg).2 = [r] /\
  (success r = Some true ->
     getStatus s' = mkStatus true (codeOf r) true 1 /\
     Background.sessionCode bg' = st_sessionCode (getStatus s') /\
     Background.isHost bg' = st_isHost (getStatus s') /\
     Background.peerCount bg' = st_peerCount (getStatus s')) /\
  (success r <> Some true ->
     bg' = bg /\
     st_sessionCode (getStatus s') <> None /\
     st_isHost (getStatus s') = true) /\
  exists k,
    r = answer rnd k (init k) /\
    (init k = InitTimeout ->
       getStatus s' = mkStatus true (Some (codeOfAttempt rnd k)) true 1).
Proof.
  intros Hr Hrun. cbv zeta.
  destruct (createSession_state _ _ _ _ _ _ _ _ Hrun)
    as (k & _ & _ & Hans & Hcode & Hhost & Hpeer & Hconn).
  assert (Hempty : connections s' = ∅).
  { destruct Hconn as [H | [Hp H]]; [exact H|].
    rewrite H. exact (proj1 (reachable_peerless s Hr Hp)). }
  unfold Background.handleCreateSession, getStatus.
  rewrite Hpeer, Hcode, Hhost, Hempty, Hans. unfold answer.
  destruct (init k) as [id | ty emsg |] eqn:Ek; cbn.
  - split; [reflexivity|].
    split; [intros _; repeat split|].
    split; [intros H; exfalso; apply H; reflexivity|].
    exists k. rewrite Ek. split; [reflexivity | intros H; discriminate H].
  - split; [reflexivity|].
    split; [intros H; discriminate H|].
    split; [intros _; repeat split; discriminate|].
    exists k. rewrite Ek. split; [reflexivity | intros H; discriminate H].
  - split; [reflexivity|].
    split; [intros H; discriminate H|].
    split; [intros _; repeat split; discriminate|].
    exists k. rewrite Ek. split; [reflexivity | intros _; reflexivity].
Qed.

Lemma coordinator_after_create_session_witness :
  reachable initial /\
  exists s' out r,
    createSession 1 zeros neverAnswers 0 initial = Some (s', out, r) /\
    st_isHost (getStatus s') = true /\
    (Background.handleCreateSession (inl r) Background.initial).1 = Background.initial.
Proof.
  split; [exact reachable_initial|].
  destruct (createSession 1 zeros neverAnswers 0 initial) as [[[s' out] r]|] eqn:E;
    [|vm_compute in E; discriminate E].
  assert (Hfail : success r <> Some true).
  { vm_compute in E. injection E as _ _ <-. discriminate. }
  pose proof (coordinator_after_create_session initial s' 1 zeros neverAnswers out r
                Background.initial reachable_initial E) as (_ & _ & Hsame & _).
  destruct (Hsame Hfail) as (Hbg & _ & Hhost).
  exists s', out, r. split; [reflexivity|]. split; [exact Hhost | exact Hbg].
Defined.

End CoordinatorAndRouting.
